(** * PIVOT / UNPIVOT binder: a shallow embedding of
      [src/planner/binder/tableref/bind_pivot.cpp]

    The C++ functions are transcribed as executable Rocq functions.
    - A call either returns, throws one exception, or performs an
      out-of-range [vector::operator[]] (undefined behaviour): see [outcome].
    - [vector<T>] is [list T], [push_back] appends at the end.
    - [unique_ptr<T>] that may be null is [option T].
    - Arguments taken by reference and mutated are returned in the result.
    - [idx_t] is an unsigned 64-bit integer.  Counters and indices that are
      bounded by the size of a vector are [nat]; [total_pivots], a product
      of sizes, is a [Z] reduced modulo 2^64 after every multiplication.
    - [std::move] out of a slot that is read again is written out (stage 4);
      a slot that is not read again is left as it was.
    - [D_ASSERT] is compiled out in release builds and is a no-op here; the
      asserted conditions are stated separately where a property needs them.
    - Messages are kept unformatted; the quotation marks inside them are
      written as apostrophes. *)

From Stdlib Require Import List String Ascii ZArith Lia Bool Arith PeanoNat.
From Stdlib Require Import Decimal DecimalString DecimalNat.
Import ListNotations.
Open Scope string_scope.
Open Scope list_scope.

Set Implicit Arguments.
Set Warnings "-register-all".

(* ================================================================== *)
(** * Outcomes *)

Inductive ExceptionKind :=
| BinderException | ParserException | InternalException | CatalogException.

(** An exception: its C++ class and its (unformatted) message. *)
Record Exception := mkException { exc_kind : ExceptionKind; exc_message : string }.

Inductive outcome (A : Type) : Type :=
| Ok (a : A)
| Throw (e : Exception)
| OutOfBounds (access : string).
Arguments Ok {A} a.
Arguments Throw {A} e.
Arguments OutOfBounds {A} access.

Definition bind {A B} (c : outcome A) (k : A -> outcome B) : outcome B :=
  match c with
  | Ok a => k a
  | Throw e => Throw e
  | OutOfBounds s => OutOfBounds s
  end.

Notation "x <- c ;; k" := (bind c (fun x => k))
  (at level 61, c at next level, right associativity).
Notation "' pat <- c ;; k" := (bind c (fun x => match x with pat => k end))
  (at level 61, pat pattern, c at next level, right associativity).

(** [for (auto &x : xs) body] with a loop-carried state and early exit. *)
Definition for_each {A S} (body : S -> A -> outcome S) : list A -> S -> outcome S :=
  fix loop (xs : list A) (s : S) : outcome S :=
    match xs with
    | [] => Ok s
    | x :: rest => s' <- body s x ;; loop rest s'
    end.

(** [v[i]] on a [std::vector]: no bounds check. *)
Definition subscript {A} (what : string) (v : list A) (i : nat) : outcome A :=
  match nth_error v i with
  | Some a => Ok a
  | None => OutOfBounds what
  end.

Definition is_ok {A} (c : outcome A) : bool :=
  match c with Ok _ => true | _ => false end.

Definition empty (s : string) : bool :=
  match s with EmptyString => true | _ => false end.

(** [std::to_string] on an unsigned count: its decimal digits. *)
Definition to_string (n : nat) : string := NilZero.string_of_uint (Nat.to_uint n).

(** [prefix + std::to_string(count)] *)
Definition internal_name (prefix : string) (count : nat) : string :=
  (prefix ++ to_string count)%string.

(* ================================================================== *)
(** * Values

    [duckdb::Value] is declared outside this file.  The binder only builds
    values, prints them and puts them in a [value_set_t]; those operations
    are the interface below. *)

Class ValueOps := {
  Value : Type;
  (** [Value::ToString()] *)
  ToString : Value -> string;
  (** [Value(string)] *)
  Value_VARCHAR : string -> Value;
  (** [Value::INTEGER(n)] *)
  Value_INTEGER : nat -> Value;
  (** [Value::LIST(LogicalType::VARCHAR, values)] *)
  Value_LIST : list Value -> Value;
  (** [ValueEquality], the key equality of [value_set_t] *)
  ValueEquality : Value -> Value -> bool;
  (** what [Value(Value &&)] leaves behind in the value it moves from *)
  Value_moved_from : Value -> Value
}.

(** [LogicalType], as far as [BindPivot] looks at it. *)
Inductive LogicalType :=
| ENUM (enum_values : list string)
| NOT_ENUM (type_name : string).

(** [Catalog::GetType(context, INVALID_CATALOG, INVALID_SCHEMA, name)] *)
Class Catalog := { GetType : string -> outcome LogicalType }.

Section Binder.
Context {VO : ValueOps} {CAT : Catalog}.

(* ------------------------------------------------------------------ *)
(** ** Parsed expressions (the node kinds this file builds or inspects) *)

Inductive ExpressionType :=
| COLUMN_REF | VALUE_CONSTANT | FUNCTION | STAR
| OPERATOR_IS_NOT_NULL | CONJUNCTION_AND
| SUBQUERY | WINDOW_AGGREGATE | OTHER_EXPRESSION.

(** Node kinds the binder only looks through. *)
Inductive OtherKind := SubqueryNode | WindowNode | PlainNode.

(** [OperatorExpression] and [ConjunctionExpression] are only ever built
    here with types [OPERATOR_IS_NOT_NULL] and [CONJUNCTION_AND]. *)
Inductive ParsedExpression :=
| ColumnRefExpression (column_names : list string) (alias : string)
| ConstantExpression (value : Value) (alias : string)
| FunctionExpression (function_name : string) (children : list ParsedExpression) (alias : string)
| StarExpression (alias : string)
| OperatorExpression (children : list ParsedExpression) (alias : string)
| ConjunctionExpression (children : list ParsedExpression) (alias : string)
| OtherExpression (kind : OtherKind) (children : list ParsedExpression) (alias : string).

Definition expr_type (e : ParsedExpression) : ExpressionType :=
  match e with
  | ColumnRefExpression _ _ => COLUMN_REF
  | ConstantExpression _ _ => VALUE_CONSTANT
  | FunctionExpression _ _ _ => FUNCTION
  | StarExpression _ => STAR
  | OperatorExpression _ _ => OPERATOR_IS_NOT_NULL
  | ConjunctionExpression _ _ => CONJUNCTION_AND
  | OtherExpression SubqueryNode _ _ => SUBQUERY
  | OtherExpression WindowNode _ _ => WINDOW_AGGREGATE
  | OtherExpression PlainNode _ _ => OTHER_EXPRESSION
  end.

Definition expr_alias (e : ParsedExpression) : string :=
  match e with
  | ColumnRefExpression _ a | ConstantExpression _ a | FunctionExpression _ _ a
  | StarExpression a | OperatorExpression _ a | ConjunctionExpression _ a
  | OtherExpression _ _ a => a
  end.

(** [expr->alias = a] *)
Definition set_alias (e : ParsedExpression) (a : string) : ParsedExpression :=
  match e with
  | ColumnRefExpression n _ => ColumnRefExpression n a
  | ConstantExpression v _ => ConstantExpression v a
  | FunctionExpression f c _ => FunctionExpression f c a
  | StarExpression _ => StarExpression a
  | OperatorExpression c _ => OperatorExpression c a
  | ConjunctionExpression c _ => ConjunctionExpression c a
  | OtherExpression t c _ => OtherExpression t c a
  end.

(** [make_unique<ColumnRefExpression>(column_name)] *)
Definition make_colref (column_name : string) : ParsedExpression :=
  ColumnRefExpression [column_name] "".

(** [make_unique<ConstantExpression>(value)] *)
Definition make_constant (value : Value) : ParsedExpression :=
  ConstantExpression value "".

(** [ColumnRefExpression::IsQualified]: more than one name part. *)
Definition IsQualified (column_names : list string) : bool :=
  Nat.ltb 1 (List.length column_names).

(** [ColumnRefExpression::GetColumnName]: the last name part. *)
Definition GetColumnName (column_names : list string) : string :=
  last column_names "".

(** [GetName]: the alias when there is one; a column reference without
    alias is named after its column.  The printed form of the other node
    kinds is not modelled: [GetName] is only called on column references. *)
Definition GetName (e : ParsedExpression) : string :=
  if negb (empty (expr_alias e)) then expr_alias e
  else match e with
       | ColumnRefExpression column_names _ => GetColumnName column_names
       | _ => ""
       end.

(** Modelled from the spec: [ParsedExpression::HasSubquery] and [IsWindow]
    are declared outside this file; by section 8 of the specification they
    hold of an expression that contains a sub-query, resp. a window
    function. *)
Fixpoint HasSubquery (e : ParsedExpression) : bool :=
  match e with
  | OtherExpression SubqueryNode _ _ => true
  | FunctionExpression _ c _ | OperatorExpression c _
  | ConjunctionExpression c _ | OtherExpression _ c _ => existsb HasSubquery c
  | _ => false
  end.

Fixpoint IsWindow (e : ParsedExpression) : bool :=
  match e with
  | OtherExpression WindowNode _ _ => true
  | FunctionExpression _ c _ | OperatorExpression c _
  | ConjunctionExpression c _ | OtherExpression _ c _ => existsb IsWindow c
  | _ => false
  end.

(* ------------------------------------------------------------------ *)
(** ** Case-insensitive string sets and maps

    [case_insensitive_set_t] and [case_insensitive_map_t] compare keys after
    [StringUtil::Lower].  They are kept as lists in insertion order. *)

Definition lower_ascii (c : ascii) : ascii :=
  let n := nat_of_ascii c in
  if andb (Nat.leb 65 n) (Nat.leb n 90) then ascii_of_nat (n + 32) else c.

Fixpoint Lower (s : string) : string :=
  match s with
  | EmptyString => EmptyString
  | String c rest => String (lower_ascii c) (Lower rest)
  end.

Definition ci_equal (a b : string) : bool := String.eqb (Lower a) (Lower b).

Definition case_insensitive_set_t := list string.

Definition ci_find (key : string) (s : case_insensitive_set_t) : bool :=
  existsb (ci_equal key) s.

Definition ci_insert (key : string) (s : case_insensitive_set_t)
    : case_insensitive_set_t :=
  if ci_find key s then s else s ++ [key].

Definition ci_erase (key : string) (s : case_insensitive_set_t)
    : case_insensitive_set_t :=
  filter (fun k => negb (ci_equal key k)) s.

Definition case_insensitive_map_t := list (string * string).

Definition ci_map_find (key : string) (m : case_insensitive_map_t) : option string :=
  match find (fun kv => ci_equal key (fst kv)) m with
  | Some kv => Some (snd kv)
  | None => None
  end.

(** [m[key] = v] *)
Definition ci_map_set (key v : string) (m : case_insensitive_map_t)
    : case_insensitive_map_t :=
  if existsb (fun kv => ci_equal key (fst kv)) m
  then map (fun kv => if ci_equal key (fst kv) then (fst kv, v) else kv) m
  else m ++ [(key, v)].

(** [value_set_t]: membership by [ValueEquality]. *)
Definition value_set_t := list Value.

Definition value_set_find (val : Value) (s : value_set_t) : bool :=
  existsb (ValueEquality val) s.

Definition value_set_insert (val : Value) (s : value_set_t) : value_set_t :=
  if value_set_find val s then s else s ++ [val].

(* ------------------------------------------------------------------ *)
(** ** The pivot declaration *)

Record PivotColumnEntry := mkEntry {
  entry_values : list Value;
  star_expr : option ParsedExpression;
  entry_alias : string
}.

Record PivotColumn := mkPivotColumn {
  pivot_expressions : list ParsedExpression;
  column_unpivot_names : list string;
  entries : list PivotColumnEntry;
  pivot_enum : string
}.

(** Query trees.  The source of a pivot is opaque to this file. *)
Inductive TableRef :=
| BaseTableRef (table_name : string)
| SubqueryRef (subquery : SelectNode)
with SelectNode :=
| mkSelectNode (select_list : list ParsedExpression)
               (from_table : option TableRef)
               (where_clause : option ParsedExpression)
               (group_expressions : list ParsedExpression).

Definition select_list (n : SelectNode) : list ParsedExpression :=
  match n with mkSelectNode l _ _ _ => l end.
Definition from_table (n : SelectNode) : option TableRef :=
  match n with mkSelectNode _ f _ _ => f end.
Definition where_clause (n : SelectNode) : option ParsedExpression :=
  match n with mkSelectNode _ _ w _ => w end.
Definition group_expressions (n : SelectNode) : list ParsedExpression :=
  match n with mkSelectNode _ _ _ g => g end.

(** [make_unique<SelectNode>()] *)
Definition new_SelectNode : SelectNode := mkSelectNode [] None None [].

(** [node->select_list.push_back(e)] *)
Definition push_select (n : SelectNode) (e : ParsedExpression) : SelectNode :=
  mkSelectNode (select_list n ++ [e]) (from_table n) (where_clause n)
               (group_expressions n).

(** [node->groups.group_expressions.push_back(e)] *)
Definition push_group (n : SelectNode) (e : ParsedExpression) : SelectNode :=
  mkSelectNode (select_list n) (from_table n) (where_clause n)
               (group_expressions n ++ [e]).

(** [node->from_table = t] *)
Definition set_from_table (n : SelectNode) (t : option TableRef) : SelectNode :=
  mkSelectNode (select_list n) t (where_clause n) (group_expressions n).

Record PivotRef := mkPivotRef {
  source : option TableRef;
  aggregates : list ParsedExpression;
  unpivot_names : list string;
  pivots : list PivotColumn;
  groups : list string;
  column_name_alias : list string;
  include_nulls : bool;
  ref_alias : string
}.

Definition set_pivots (ref : PivotRef) (ps : list PivotColumn) : PivotRef :=
  {| source := source ref; aggregates := aggregates ref;
     unpivot_names := unpivot_names ref; pivots := ps; groups := groups ref;
     column_name_alias := column_name_alias ref;
     include_nulls := include_nulls ref; ref_alias := ref_alias ref |}.

Definition set_pivot_expressions (pivot : PivotColumn)
    (es : list ParsedExpression) : PivotColumn :=
  {| pivot_expressions := es; column_unpivot_names := column_unpivot_names pivot;
     entries := entries pivot; pivot_enum := pivot_enum pivot |}.

Definition set_entries (pivot : PivotColumn) (es : list PivotColumnEntry)
    : PivotColumn :=
  {| pivot_expressions := pivot_expressions pivot;
     column_unpivot_names := column_unpivot_names pivot;
     entries := es; pivot_enum := pivot_enum pivot |}.

Record PivotValueElement := mkElement {
  values : list Value;
  name : string
}.

(* ------------------------------------------------------------------ *)
(** ** ConstructPivots *)

(** Body of the loop over [entry.values] (lines 33-43): the state is
    [(new_value.values, name)], the local [name] being [name_]. *)
Definition add_value (entry : PivotColumnEntry) (st : list Value * string)
    (value : Value) : list Value * string :=
  let '(new_values, name_) := st in
  (new_values ++ [value],
   if empty (entry_alias entry) then
     if empty name_ then ToString value else (name_ ++ "_" ++ ToString value)%string
   else name_).

(** Lines 30-48: the element reached from [current_value] through [entry]. *)
Definition extend_element (current_value : PivotValueElement)
    (entry : PivotColumnEntry) : PivotValueElement :=
  let '(new_values, name_) :=
    fold_left (add_value entry) (entry_values entry)
              (values current_value, entry_alias entry) in
  {| values := new_values;
     name := if negb (empty (name current_value))
             then (name current_value ++ "_" ++ name_)%string
             else name_ |}.

(** The recursion of [ConstructPivots], on the pivot columns from
    [pivot_idx] on: [levels = ref.pivots[pivot_idx..]].  An empty [levels]
    is the subscript [ref.pivots[pivot_idx]] with [pivot_idx >= size()]. *)
Fixpoint ConstructPivots_from (levels : list PivotColumn)
    (pivot_values : list PivotValueElement) (current_value : PivotValueElement)
    : outcome (list PivotValueElement) :=
  match levels with
  | [] => OutOfBounds "ref.pivots[pivot_idx]"
  | pivot :: deeper =>
      let last_pivot := match deeper with [] => true | _ => false end in
      for_each (fun pivot_values entry =>
                  let new_value := extend_element current_value entry in
                  if last_pivot then Ok (pivot_values ++ [new_value])
                  else ConstructPivots_from deeper pivot_values new_value)
               (entries pivot) pivot_values
  end.

Definition ConstructPivots (ref : PivotRef)
    (pivot_values : list PivotValueElement) (pivot_idx : nat)
    (current_value : PivotValueElement) : outcome (list PivotValueElement) :=
  ConstructPivots_from (skipn pivot_idx (pivots ref)) pivot_values current_value.

(** [PivotValueElement()] *)
Definition empty_element : PivotValueElement := {| values := []; name := "" |}.

(* ------------------------------------------------------------------ *)
(** ** ExtractPivotExpressions *)

Definition qualified_column_error : Exception :=
  mkException BinderException "PIVOT expression cannot contain qualified columns".

Fixpoint ExtractPivotExpressions (expr : ParsedExpression)
    (handled_columns : case_insensitive_set_t) : outcome case_insensitive_set_t :=
  handled_columns <-
    match expr with
    | ColumnRefExpression column_names _ =>
        if IsQualified column_names then Throw qualified_column_error
        else Ok (ci_insert (GetColumnName column_names) handled_columns)
    | _ => Ok handled_columns
    end ;;
  match expr with
  | FunctionExpression _ c _ | OperatorExpression c _
  | ConjunctionExpression c _ | OtherExpression _ c _ =>
      for_each (fun handled child => ExtractPivotExpressions child handled)
               c handled_columns
  | _ => Ok handled_columns
  end.

(* ------------------------------------------------------------------ *)
(** ** PivotBindState *)

Record PivotBindState := mkBindState {
  internal_group_names : list string;
  group_names : list string;
  aggregate_names : list string;
  internal_aggregate_names : list string;
  internal_pivot_names : list string;
  internal_map_names : list string
}.

Definition new_PivotBindState : PivotBindState := mkBindState [] [] [] [] [] [].

Definition push_internal_group_name (b : PivotBindState) (s : string) :=
  mkBindState (internal_group_names b ++ [s]) (group_names b) (aggregate_names b)
    (internal_aggregate_names b) (internal_pivot_names b) (internal_map_names b).
Definition push_group_name (b : PivotBindState) (s : string) :=
  mkBindState (internal_group_names b) (group_names b ++ [s]) (aggregate_names b)
    (internal_aggregate_names b) (internal_pivot_names b) (internal_map_names b).
Definition push_aggregate_name (b : PivotBindState) (s : string) :=
  mkBindState (internal_group_names b) (group_names b) (aggregate_names b ++ [s])
    (internal_aggregate_names b) (internal_pivot_names b) (internal_map_names b).
Definition push_internal_aggregate_name (b : PivotBindState) (s : string) :=
  mkBindState (internal_group_names b) (group_names b) (aggregate_names b)
    (internal_aggregate_names b ++ [s]) (internal_pivot_names b) (internal_map_names b).
Definition push_internal_pivot_name (b : PivotBindState) (s : string) :=
  mkBindState (internal_group_names b) (group_names b) (aggregate_names b)
    (internal_aggregate_names b) (internal_pivot_names b ++ [s]) (internal_map_names b).
Definition push_internal_map_name (b : PivotBindState) (s : string) :=
  mkBindState (internal_group_names b) (group_names b) (aggregate_names b)
    (internal_aggregate_names b) (internal_pivot_names b) (internal_map_names b ++ [s]).

(** A loop that rewrites the elements of a vector in place while it
    threads a state. *)
Fixpoint map_accum {A B S} (f : S -> A -> S * B) (xs : list A) (s : S)
    : S * list B :=
  match xs with
  | [] => (s, [])
  | x :: rest =>
      let '(s1, y) := f s x in
      let '(s2, ys) := map_accum f rest s1 in
      (s2, y :: ys)
  end.

(* ------------------------------------------------------------------ *)
(** ** PivotStageOne *)

Definition not_colref_error : Exception :=
  mkException InternalException "Unexpected child of pivot source - not a ColumnRef".

(** Lines 91-93, 99-101 and 120-122: a select-list entry grouped by its
    (1-based) position. *)
Definition push_grouped (n : SelectNode) (e : ParsedExpression) : SelectNode :=
  push_select
    (push_group n (make_constant (Value_INTEGER (List.length (select_list n) + 1))))
    e.

(** Lines 84-95. *)
Definition stage1_implicit_group (handled_columns : case_insensitive_set_t)
    (n : SelectNode) (entry : ParsedExpression) : outcome SelectNode :=
  match entry with
  | ColumnRefExpression column_names _ =>
      if negb (ci_find (GetColumnName column_names) handled_columns)
      then Ok (push_grouped n entry)
      else Ok n
  | _ => Throw not_colref_error
  end.

(** Lines 105-111, one iteration; the state is [group_count], the part of
    the select list already renamed, and the bind state. *)
Definition stage1_name_group (st : nat * list ParsedExpression * PivotBindState)
    (expr : ParsedExpression) : nat * list ParsedExpression * PivotBindState :=
  let '(group_count, renamed, bind_state) := st in
  let bind_state := push_group_name bind_state (GetName expr) in
  let '(group_count, expr) :=
    if empty (expr_alias expr)
    then (S group_count,
          set_alias expr (internal_name "__internal_pivot_group" (S group_count)))
    else (group_count, expr) in
  (group_count, renamed ++ [expr],
   push_internal_group_name bind_state (expr_alias expr)).

(** Lines 115-124, one iteration; returns what is left in [ref]. *)
Definition stage1_pivot_expr (st : nat * SelectNode) (pivot_expr : ParsedExpression)
    : (nat * SelectNode) * ParsedExpression :=
  let '(pivot_count, n) := st in
  let '(pivot_count, pivot_expr) :=
    if empty (expr_alias pivot_expr)
    then (S pivot_count,
          set_alias pivot_expr (internal_name "__internal_pivot_ref" (S pivot_count)))
    else (pivot_count, pivot_expr) in
  let pivot_alias := expr_alias pivot_expr in
  ((pivot_count, push_grouped n pivot_expr), make_colref pivot_alias).

Definition stage1_pivot_column (st : nat * SelectNode) (pivot_column : PivotColumn)
    : (nat * SelectNode) * PivotColumn :=
  let '(st, exprs) := map_accum stage1_pivot_expr (pivot_expressions pivot_column) st in
  (st, set_pivot_expressions pivot_column exprs).

(** Lines 128-134, one iteration. *)
Definition stage1_aggregate (st : nat * PivotBindState * SelectNode)
    (aggregate : ParsedExpression) : nat * PivotBindState * SelectNode :=
  let '(aggregate_count, bind_state, n) := st in
  let aggregate_alias :=
    internal_name "__internal_pivot_aggregate" (S aggregate_count) in
  let bind_state := push_aggregate_name bind_state (expr_alias aggregate) in
  let bind_state := push_internal_aggregate_name bind_state aggregate_alias in
  (S aggregate_count, bind_state, push_select n (set_alias aggregate aggregate_alias)).

(** Lines 80-103: the tree with its grouping columns, not yet renamed. *)
Definition stage1_groups (ref : PivotRef) (all_columns : list ParsedExpression)
    (handled_columns : case_insensitive_set_t) : outcome SelectNode :=
  let subquery_stage1 := set_from_table new_SelectNode (source ref) in
  match groups ref with
  | [] => for_each (stage1_implicit_group handled_columns) all_columns subquery_stage1
  | rows => Ok (fold_left (fun n row => push_grouped n (make_colref row))
                          rows subquery_stage1)
  end.

(** The source and the aggregates are moved into the tree; the slots they
    leave in [ref] are not read again. *)
Definition PivotStageOne (bind_state : PivotBindState) (ref : PivotRef)
    (all_columns : list ParsedExpression) (handled_columns : case_insensitive_set_t)
    : outcome (PivotBindState * PivotRef * SelectNode) :=
  subquery_stage1 <- stage1_groups ref all_columns handled_columns ;;
  let '(_, renamed, bind_state) :=
    fold_left stage1_name_group (select_list subquery_stage1) (0, [], bind_state) in
  let subquery_stage1 :=
    mkSelectNode renamed (from_table subquery_stage1) (where_clause subquery_stage1)
                 (group_expressions subquery_stage1) in
  let '((_, subquery_stage1), new_pivots) :=
    map_accum stage1_pivot_column (pivots ref) (0, subquery_stage1) in
  let '(_, bind_state, subquery_stage1) :=
    fold_left stage1_aggregate (aggregates ref) (0, bind_state, subquery_stage1) in
  Ok (bind_state, set_pivots ref new_pivots, subquery_stage1).

(* ------------------------------------------------------------------ *)
(** ** PivotStageTwo *)

(** [ColumnRefExpression(name)] with [alias = name]. *)
Definition group_reference (internal_name alias : string) : ParsedExpression :=
  ColumnRefExpression [internal_name] alias.

(** Lines 146-152. *)
Definition stage2_group (n : SelectNode) (internal_group : string) : SelectNode :=
  push_grouped n (group_reference internal_group internal_group).

(** Lines 155-162. *)
Definition stage2_aggregate (n : SelectNode) (internal_aggregate : string)
    : SelectNode :=
  push_select n
    (FunctionExpression "list" [make_colref internal_aggregate] internal_aggregate).

(** Lines 166-174. *)
Definition stage2_pivot_expr (st : nat * PivotBindState * SelectNode)
    (pivot_expr : ParsedExpression) : nat * PivotBindState * SelectNode :=
  let '(pivot_count, bind_state, n) := st in
  let pivot_name := internal_name "__internal_pivot_name" (S pivot_count) in
  (S pivot_count, push_internal_pivot_name bind_state pivot_name,
   push_select n (FunctionExpression "list" [pivot_expr] pivot_name)).

Definition PivotStageTwo (bind_state : PivotBindState) (ref : PivotRef)
    (subquery_stage1 : SelectNode) : PivotBindState * SelectNode :=
  let subquery_stage2 := new_SelectNode in
  let subquery_ref := SubqueryRef subquery_stage1 in
  let subquery_stage2 :=
    fold_left stage2_group (internal_group_names bind_state) subquery_stage2 in
  let subquery_stage2 :=
    fold_left stage2_aggregate (internal_aggregate_names bind_state) subquery_stage2 in
  let '(_, bind_state, subquery_stage2) :=
    fold_left (fun st pivot => fold_left stage2_pivot_expr (pivot_expressions pivot) st)
              (pivots ref) (0, bind_state, subquery_stage2) in
  (bind_state, set_from_table subquery_stage2 (Some subquery_ref)).

(* ------------------------------------------------------------------ *)
(** ** PivotStageThree *)

(** Lines 188-192. *)
Definition stage3_group (n : SelectNode) (internal_group : string) : SelectNode :=
  push_select n (group_reference internal_group internal_group).

(** The condition of the [D_ASSERT] on line 195. *)
Definition stage3_assertion (bind_state : PivotBindState) : bool :=
  Nat.eqb (List.length (internal_pivot_names bind_state))
          (List.length (internal_aggregate_names bind_state)).

(** Lines 196-205, iteration [i]. *)
Definition stage3_map (st : PivotBindState * SelectNode) (i : nat)
    : outcome (PivotBindState * SelectNode) :=
  let '(bind_state, n) := st in
  let map_name := internal_name "__internal_pivot_map" (i + 1) in
  pivot_list <- subscript "bind_state.internal_pivot_names[i]"
                          (internal_pivot_names bind_state) i ;;
  aggregate_list <- subscript "bind_state.internal_aggregate_names[i]"
                              (internal_aggregate_names bind_state) i ;;
  let function :=
    FunctionExpression "map" [make_colref pivot_list; make_colref aggregate_list]
                       map_name in
  Ok (push_internal_map_name bind_state map_name, push_select n function).

Definition PivotStageThree (bind_state : PivotBindState) (ref : PivotRef)
    (subquery_stage2 : SelectNode) : outcome (PivotBindState * SelectNode) :=
  let subquery_stage3 := new_SelectNode in
  let subquery_ref := SubqueryRef subquery_stage2 in
  let subquery_stage3 :=
    fold_left stage3_group (internal_group_names bind_state) subquery_stage3 in
  '(bind_state, subquery_stage3) <-
    for_each stage3_map (seq 0 (List.length (internal_pivot_names bind_state)))
             (bind_state, subquery_stage3) ;;
  Ok (bind_state, set_from_table subquery_stage3 (Some subquery_ref)).

(* ------------------------------------------------------------------ *)
(** ** PivotStageFour *)

Definition multiple_pivots_error : Exception :=
  mkException InternalException "FIXME multiple pivots".

(** Lines 218-222, iteration [gr]. *)
Definition stage4_group (bind_state : PivotBindState) (n : SelectNode) (gr : nat)
    : outcome SelectNode :=
  internal_group <- subscript "bind_state.internal_group_names[gr]"
                              (internal_group_names bind_state) gr ;;
  group_name <- subscript "bind_state.group_names[gr]" (group_names bind_state) gr ;;
  Ok (push_select n (group_reference internal_group group_name)).

(** [array_extract(map_extract(internal_map, value), 1) AS alias] *)
Definition map_extract_call (internal_map : string) (value : Value) (alias : string)
    : ParsedExpression :=
  FunctionExpression "array_extract"
    [FunctionExpression "map_extract" [make_colref internal_map; make_constant value] "";
     make_constant (Value_INTEGER 1)]
    alias.

(** Lines 230-241, one iteration.  [std::move] takes the value and the
    name out of [pivot_value]: the value slot keeps what the move
    constructor leaves, the moved-from string is empty. *)
Definition stage4_extract (st : PivotValueElement * SelectNode) (internal_map : string)
    : outcome (PivotValueElement * SelectNode) :=
  let '(pivot_value, n) := st in
  value <- subscript "pivot_value.values[0]" (values pivot_value) 0 ;;
  let function := map_extract_call internal_map value (name pivot_value) in
  let pivot_value :=
    {| values := Value_moved_from value :: tl (values pivot_value); name := "" |} in
  Ok (pivot_value, push_select n function).

(** Lines 225-242, one iteration. *)
Definition stage4_pivot_value (bind_state : PivotBindState) (n : SelectNode)
    (pivot_value : PivotValueElement) : outcome SelectNode :=
  if negb (Nat.eqb (List.length (values pivot_value)) 1)
  then Throw multiple_pivots_error
  else
    '(_, n) <- for_each stage4_extract (internal_map_names bind_state)
                        (pivot_value, n) ;;
    Ok n.

Definition PivotStageFour (bind_state : PivotBindState) (ref : PivotRef)
    (subquery_stage3 : SelectNode) (pivot_values : list PivotValueElement)
    : outcome SelectNode :=
  let subquery_stage4 := new_SelectNode in
  let subquery_ref := SubqueryRef subquery_stage3 in
  subquery_stage4 <-
    for_each (stage4_group bind_state)
             (seq 0 (List.length (internal_group_names bind_state))) subquery_stage4 ;;
  subquery_stage4 <-
    for_each (stage4_pivot_value bind_state) pivot_values subquery_stage4 ;;
  Ok (set_from_table subquery_stage4 (Some subquery_ref)).

(* ------------------------------------------------------------------ *)
(** ** Binder::BindPivot *)

Definition PIVOT_EXPRESSION_LIMIT : Z := 10000.

(** [idx_t] is an unsigned 64-bit integer: products wrap around. *)
Definition idx_mul (a b : Z) : Z := (a * b) mod 2 ^ 64.

Definition not_aggregate_error : Exception :=
  mkException BinderException "Pivot expression must be an aggregate".
Definition subquery_error : Exception :=
  mkException BinderException "Pivot expression cannot contain subqueries".
Definition window_error : Exception :=
  mkException BinderException "Pivot expression cannot contain window functions".
Definition not_enum_error : Exception :=
  mkException BinderException "Pivot must reference an ENUM type: '%s' is of type '%s'".
Definition duplicate_value_error : Exception :=
  mkException BinderException
    "The value '%s' was specified multiple times in the IN clause".
Definition inconsistent_rows_error : Exception :=
  mkException ParserException
    "PIVOT IN list - inconsistent amount of rows - expected %d but got %d".
Definition pivot_limit_error : Exception :=
  mkException BinderException "Pivot column limit of %llu exceeded".

(** Lines 253-264, one iteration. *)
Definition check_aggregate (handled_columns : case_insensitive_set_t)
    (aggr : ParsedExpression) : outcome case_insensitive_set_t :=
  match expr_type aggr with
  | FUNCTION =>
      if HasSubquery aggr then Throw subquery_error
      else if IsWindow aggr then Throw window_error
      else ExtractPivotExpressions aggr handled_columns
  | _ => Throw not_aggregate_error
  end.

(** Lines 270-285: a pivot over an enum type gets one entry per enum value. *)
Definition enum_entry (enum_value : string) : PivotColumnEntry :=
  {| entry_values := [Value_VARCHAR enum_value]; star_expr := None;
     entry_alias := enum_value |}.

Definition expand_pivot_enum (pivot : PivotColumn) : outcome PivotColumn :=
  if negb (empty (pivot_enum pivot)) then
    type <- GetType (pivot_enum pivot) ;;
    match type with
    | ENUM enum_values =>
        Ok (set_entries pivot (entries pivot ++ map enum_entry enum_values))
    | NOT_ENUM _ => Throw not_enum_error
    end
  else Ok pivot.

(** Lines 294-299: the key under which an entry is remembered. *)
Definition entry_key (entry : PivotColumnEntry) : Value :=
  match entry_values entry with
  | [v] => v
  | vs => Value_LIST vs
  end.

(** Lines 292-310, one iteration; the state is the local set [pivots]. *)
Definition check_entry (pivot : PivotColumn) (seen : value_set_t)
    (entry : PivotColumnEntry) : outcome value_set_t :=
  let val := entry_key entry in
  if value_set_find val seen then Throw duplicate_value_error
  else if negb (Nat.eqb (List.length (entry_values entry))
                        (List.length (pivot_expressions pivot)))
  then Throw inconsistent_rows_error
  else Ok (value_set_insert val seen).

(** Lines 269-311, one iteration; the state is [total_pivots], the handled
    columns and the pivot columns already checked (with their enum entries). *)
Definition check_pivot (st : Z * case_insensitive_set_t * list PivotColumn)
    (pivot : PivotColumn) : outcome (Z * case_insensitive_set_t * list PivotColumn) :=
  let '(total_pivots, handled_columns, checked) := st in
  pivot <- expand_pivot_enum pivot ;;
  let total_pivots := idx_mul total_pivots (Z.of_nat (List.length (entries pivot))) in
  handled_columns <-
    for_each (fun handled pivot_name => ExtractPivotExpressions pivot_name handled)
             (pivot_expressions pivot) handled_columns ;;
  _ <- for_each (check_entry pivot) (entries pivot) [] ;;
  Ok (total_pivots, handled_columns, checked ++ [pivot]).

(** Lines 248-314: everything [BindPivot] does before it enumerates. *)
Definition BindPivot_validate (ref : PivotRef)
    : outcome (PivotRef * case_insensitive_set_t) :=
  handled_columns <- for_each check_aggregate (aggregates ref) [] ;;
  '(total_pivots, handled_columns, checked) <-
    for_each check_pivot (pivots ref) (1%Z, handled_columns, []) ;;
  if (PIVOT_EXPRESSION_LIMIT <=? total_pivots)%Z then Throw pivot_limit_error
  else Ok (set_pivots ref checked, handled_columns).

(** Lines 248-347: validation, enumeration and the first three stages. *)
Definition BindPivot_stage3 (ref : PivotRef) (all_columns : list ParsedExpression)
    : outcome (PivotBindState * PivotRef * SelectNode * list PivotValueElement) :=
  '(ref, handled_columns) <- BindPivot_validate ref ;;
  pivot_values <- ConstructPivots ref [] 0 empty_element ;;
  let bind_state := new_PivotBindState in
  '(bind_state, ref, subquery_stage1) <-
    PivotStageOne bind_state ref all_columns handled_columns ;;
  let '(bind_state, subquery_stage2) := PivotStageTwo bind_state ref subquery_stage1 in
  '(bind_state, subquery_stage3) <- PivotStageThree bind_state ref subquery_stage2 ;;
  Ok (bind_state, ref, subquery_stage3, pivot_values).

Definition BindPivot (ref : PivotRef) (all_columns : list ParsedExpression)
    : outcome SelectNode :=
  '(bind_state, ref, subquery_stage3, pivot_values) <-
    BindPivot_stage3 ref all_columns ;;
  PivotStageFour bind_state ref subquery_stage3 pivot_values.

(** [BoundSubqueryRef(binder, subquery)]; the binder it owns is not
    looked at again. *)
Inductive BoundTableRef (node : Type) :=
| BoundSubqueryRef (subquery : node).
Arguments BoundSubqueryRef {node} subquery.

(* ------------------------------------------------------------------ *)
(** ** The binder this file calls into

    [Binder::CreateBinder], [Binder::Bind(TableRef)], [ExpandStarExpression],
    [BindNode], [BindSelectNode], [MoveCorrelatedExpressions] and
    [BindContext::AddSubquery] are defined elsewhere.  Each may throw.

    A binder from [CreateBinder(context)] does not know [this] binder.  A
    binder from [CreateBinder(context, this)] has [this] as its parent, and
    [MoveCorrelatedExpressions] is a method of [this]: these calls take the
    state of [this] and give it back, also when they throw.  Of the state
    of [this] the file names two parts: its bind context (line 531) and
    what [MoveCorrelatedExpressions] writes (line 513).  [AddSubquery] is
    a method of the bind context it is called on and gives that bind
    context back, also when it throws. *)

Class BinderOps := {
  (** a binder from [CreateBinder(context)] on which [Bind(source)] has
      been called *)
  StarBinder : Type;
  (** a binder from [CreateBinder(context, this)] that has bound a node *)
  ChildBinder : Type;
  BoundQueryNode : Type;
  BindContext : Type;
  (** the part of [this] binder that [MoveCorrelatedExpressions] writes *)
  CorrelatedColumns : Type;
  (** [CreateBinder(context)] followed by [star_binder->Bind( *copied_source)] *)
  bind_source : TableRef -> outcome StarBinder;
  ExpandStarExpression : StarBinder -> ParsedExpression -> outcome (list ParsedExpression);
  (** [CreateBinder(context, this)] followed by [child_binder->BindNode(node)] *)
  BindNode : BindContext * CorrelatedColumns -> SelectNode
             -> outcome (ChildBinder * BoundQueryNode)
                * (BindContext * CorrelatedColumns);
  (** [MoveCorrelatedExpressions( *child_binder)] on [this] *)
  MoveCorrelatedExpressions : BindContext * CorrelatedColumns -> ChildBinder
                              -> outcome unit * (BindContext * CorrelatedColumns);
  GetRootIndex : BoundQueryNode -> nat;
  (** the bind context of a binder fresh from [CreateBinder(context, this)] *)
  new_BindContext : BindContext;
  (** [bind_context.AddSubquery(index, alias, subquery_ref, bound_node)],
      where [subquery_ref] carries the alias and the column name aliases *)
  AddSubquery : BindContext -> nat -> string -> list string -> BoundQueryNode
                -> outcome unit * BindContext;
  (** [child_binder->BindSelectNode(statement, std::move(from))], in a
      binder from [CreateBinder(context, this)] whose bind context is the
      second argument *)
  BindSelectNode : BindContext * CorrelatedColumns -> BindContext -> SelectNode
                   -> BoundTableRef BoundQueryNode
                   -> outcome BoundQueryNode * (BindContext * CorrelatedColumns)
}.

Context {BO : BinderOps}.

(* ------------------------------------------------------------------ *)
(** ** Binder::BindUnpivot *)

Definition not_colref_star_error : Exception :=
  mkException InternalException "Unexpected child of unpivot star - not a ColumnRef".
Definition unmatched_column_error : Exception :=
  mkException BinderException
    "Column '%s' referenced in UNPIVOT but no matching entry was found in the table".
Definition name_map_error : Exception :=
  mkException InternalException "Unpivot - could not find column name in name map".
Definition name_count_error : Exception :=
  mkException BinderException
    "UNPIVOT name count mismatch - got %d names but %d expressions".

(** Lines 371-390, one iteration. *)
Definition expand_star_entry (child_binder : StarBinder)
    (new_entries : list PivotColumnEntry) (entry : PivotColumnEntry)
    : outcome (list PivotColumnEntry) :=
  match star_expr entry with
  | Some star =>
      star_columns <- ExpandStarExpression child_binder star ;;
      for_each (fun new_entries col =>
                  match col with
                  | ColumnRefExpression column_names _ =>
                      Ok (new_entries ++
                          [{| entry_values := [Value_VARCHAR (GetColumnName column_names)];
                              star_expr := None;
                              entry_alias := GetColumnName column_names |}])
                  | _ => Throw not_colref_star_error
                  end)
               star_columns new_entries
  | None => Ok (new_entries ++ [entry])
  end.

(** Lines 395-399. *)
Definition unpivot_handled_columns (unpivot_entries : list PivotColumnEntry)
    : case_insensitive_set_t :=
  fold_left (fun handled entry =>
               fold_left (fun handled value => ci_insert (ToString value) handled)
                         (entry_values entry) handled)
            unpivot_entries [].

(** Lines 401-415, one iteration. *)
Definition split_column
    (st : SelectNode * case_insensitive_map_t * case_insensitive_set_t)
    (col_expr : ParsedExpression)
    : outcome (SelectNode * case_insensitive_map_t * case_insensitive_set_t) :=
  let '(select_node, name_map, handled_columns) := st in
  match col_expr with
  | ColumnRefExpression column_names _ =>
      let column_name := GetColumnName column_names in
      if negb (ci_find column_name handled_columns)
      then Ok (push_select select_node col_expr, name_map, handled_columns)
      else Ok (select_node, ci_map_set column_name column_name name_map,
               ci_erase column_name handled_columns)
  | _ => Throw not_colref_error
  end.

(** Lines 425-434, one iteration. *)
Definition append_column_name (name_map : case_insensitive_map_t)
    (generated_name : string) (val : Value) : outcome string :=
  match ci_map_find (ToString val) name_map with
  | None => Throw name_map_error
  | Some column_name =>
      let generated_name :=
        if negb (empty generated_name) then (generated_name ++ "_")%string
        else generated_name in
      Ok (generated_name ++ column_name)%string
  end.

(** Lines 423-436, one iteration. *)
Definition unpivot_name (name_map : case_insensitive_map_t)
    (unpivot_names : list Value) (entry : PivotColumnEntry) : outcome (list Value) :=
  generated_name <- for_each (append_column_name name_map) (entry_values entry) "" ;;
  Ok (unpivot_names ++
      [Value_VARCHAR (if negb (empty (entry_alias entry)) then entry_alias entry
                      else generated_name)]).

(** Lines 441-443. *)
Definition unpivot_position (unpivot_entries : list PivotColumnEntry) (v_idx : nat)
    : outcome (list ParsedExpression) :=
  for_each (fun expressions entry =>
              value <- subscript "entry.values[v_idx]" (entry_values entry) v_idx ;;
              Ok (expressions ++ [make_colref (ToString value)]))
           unpivot_entries [].

(** Lines 437-445: one list of column references per value position of the
    first entry. *)
Definition unpivot_expressions_of (unpivot_entries : list PivotColumnEntry)
    : outcome (list (list ParsedExpression)) :=
  first_entry <- subscript "unpivot.entries[0]" unpivot_entries 0 ;;
  for_each (fun unpivot_expressions v_idx =>
              expressions <- unpivot_position unpivot_entries v_idx ;;
              Ok (unpivot_expressions ++ [expressions]))
           (seq 0 (List.length (entry_values first_entry))) [].

(** [OperatorExpression(OPERATOR_IS_NOT_NULL, colref(name))] *)
Definition is_not_null (column_name : string) : ParsedExpression :=
  OperatorExpression [make_colref column_name] "".

(** Lines 473-478. *)
Definition add_filter (where_clause : option ParsedExpression)
    (filter : ParsedExpression) : option ParsedExpression :=
  match where_clause with
  | Some w => Some (ConjunctionExpression [w; filter] "")
  | None => Some filter
  end.

(** Lines 461-480, iteration [i]. *)
Definition unnest_value_column (ref : PivotRef)
    (unpivot_expressions : list (list ParsedExpression))
    (st : SelectNode * option ParsedExpression) (i : nat)
    : outcome (SelectNode * option ParsedExpression) :=
  let '(select_node, where_clause) := st in
  expressions <- subscript "unpivot_expressions[i]" unpivot_expressions i ;;
  let list_expr := FunctionExpression "list_value" expressions "" in
  unnest_name <-
    (if Nat.ltb i (List.length (column_name_alias ref))
     then subscript "ref.column_name_alias[i]" (column_name_alias ref) i
     else subscript "ref.unpivot_names[i]" (unpivot_names ref) i) ;;
  let unnest_val_expr := FunctionExpression "unnest" [list_expr] unnest_name in
  let select_node := push_select select_node unnest_val_expr in
  if negb (include_nulls ref)
  then Ok (select_node, add_filter where_clause (is_not_null unnest_name))
  else Ok (select_node, where_clause).

(** Lines 363-436: the star entries are expanded, the columns of the
    source are split into those that pass through and those that are
    unpivoted, and the names of the entries are put together.  Returns the
    select node, the pivot column with its expanded entries, and the names. *)
Definition BindUnpivot_names (child_binder : StarBinder) (ref : PivotRef)
    (all_columns : list ParsedExpression)
    : outcome (SelectNode * PivotColumn * list Value) :=
  let select_node := set_from_table new_SelectNode (source ref) in
  unpivot <- subscript "ref.pivots[0]" (pivots ref) 0 ;;
  new_entries <- for_each (expand_star_entry child_binder) (entries unpivot) [] ;;
  let unpivot := set_entries unpivot new_entries in
  let handled_columns := unpivot_handled_columns (entries unpivot) in
  '(select_node, name_map, handled_columns) <-
    for_each split_column all_columns (select_node, [], handled_columns) ;;
  match handled_columns with
  | _ :: _ => Throw unmatched_column_error
  | [] =>
      unpivot_names_list <- for_each (unpivot_name name_map) (entries unpivot) [] ;;
      Ok (select_node, unpivot, unpivot_names_list)
  end.

Definition BindUnpivot (child_binder : StarBinder) (ref : PivotRef)
    (all_columns : list ParsedExpression) (where_clause : option ParsedExpression)
    : outcome (SelectNode * option ParsedExpression) :=
  '(select_node, unpivot, unpivot_names_list) <-
    BindUnpivot_names child_binder ref all_columns ;;
  unpivot_expressions <- unpivot_expressions_of (entries unpivot) ;;
  let unpivot_list := Value_LIST unpivot_names_list in
  name_alias <- subscript "unpivot.unpivot_names[0]" (column_unpivot_names unpivot) 0 ;;
  let unnest_name_expr :=
    FunctionExpression "unnest" [make_constant unpivot_list] name_alias in
  let select_node := push_select select_node unnest_name_expr in
  if negb (Nat.eqb (List.length (unpivot_names ref)) (List.length unpivot_expressions))
  then Throw name_count_error
  else for_each (unnest_value_column ref unpivot_expressions)
                (seq 0 (List.length unpivot_expressions))
                (select_node, where_clause).

(* ------------------------------------------------------------------ *)
(** ** Binder::Bind(PivotRef &)

    The state of [this] binder is threaded through the call: a step takes
    it and gives it back together with its outcome, so that what a step
    wrote stays written when a later step throws. *)

Definition ThisBinder : Type := (BindContext * CorrelatedColumns)%type.

Definition binder_step (A : Type) : Type := ThisBinder -> outcome A * ThisBinder.

Definition step_bind {A B} (c : binder_step A) (k : A -> binder_step B)
    : binder_step B :=
  fun this =>
    match c this with
    | (Ok a, this') => k a this'
    | (Throw e, this') => (Throw e, this')
    | (OutOfBounds w, this') => (OutOfBounds w, this')
    end.

(** A call that cannot reach [this] binder. *)
Definition call {A} (c : outcome A) : binder_step A :=
  fun this => (c, this).

(** Line 531: [bind_context.AddSubquery(...)] on the bind context of [this]. *)
Definition register_subquery (root_index : nat) (alias : string)
    (column_aliases : list string) (bound : BoundQueryNode) : binder_step unit :=
  fun this =>
    let '(outcome_, bind_context) :=
      AddSubquery (fst this) root_index alias column_aliases bound in
    (outcome_, (bind_context, snd this)).

Notation "x <~ c ;; k" := (step_bind c (fun x => k))
  (at level 61, c at next level, right associativity).
Notation "' pat <~ c ;; k" := (step_bind c (fun x => match x with pat => k end))
  (at level 61, pat pattern, c at next level, right associativity).

Definition no_source_error : Exception :=
  mkException InternalException "Pivot without a source!?".

(** Lines 518-530: the extra level that holds the WHERE clause.  The bind
    context that gets the subquery is the one of the new child binder. *)
Definition bind_where_query (root_index : nat) (alias : string)
    (column_aliases : list string) (bound_select_node : BoundQueryNode)
    (result : BoundTableRef BoundQueryNode) (where_clause : ParsedExpression)
    : binder_step BoundQueryNode :=
  fun this =>
    match AddSubquery new_BindContext root_index alias column_aliases
                      bound_select_node with
    | (Ok _, child_context) =>
        let where_query :=
          mkSelectNode [StarExpression ""] None (Some where_clause) [] in
        BindSelectNode this child_context where_query result
    | (Throw e, _) => (Throw e, this)
    | (OutOfBounds w, _) => (OutOfBounds w, this)
    end.

(** Lines 485-506: [Bind] needs a source, learns the columns of the source
    from [star_binder], a binder that does not know [this] binder, and
    rewrites the declaration.  Gives [select_node] and [where_clause]. *)
Definition generated_tree (ref : PivotRef)
    : outcome (SelectNode * option ParsedExpression) :=
  match source ref with
  | None => Throw no_source_error
  | Some copied_source =>
      star_binder <- bind_source copied_source ;;
      all_columns <- ExpandStarExpression star_binder (StarExpression "") ;;
      match aggregates ref with
      | _ :: _ => n <- BindPivot ref all_columns ;; Ok (n, None)
      | [] => BindUnpivot star_binder ref all_columns None
      end
  end.

(** Lines 507-532: the generated select node is bound in a child of [this]
    binder, the correlated columns of the child are moved to [this], the
    level that holds the WHERE clause is bound if there is one, and the
    result is added to the bind context of [this]. *)
Definition bind_generated_tree (ref : PivotRef) (select_node : SelectNode)
    (where_clause : option ParsedExpression)
    : binder_step (BoundTableRef BoundQueryNode) :=
  '(child_binder, bound_select_node) <~
    (fun this => BindNode this select_node) ;;
  let root_index := GetRootIndex bound_select_node in
  _ <~ (fun this => MoveCorrelatedExpressions this child_binder) ;;
  let result := BoundSubqueryRef bound_select_node in
  let alias := if empty (ref_alias ref) then "__unnamed_pivot" else ref_alias ref in
  let column_aliases := column_name_alias ref in
  '(root_index, bound_select_node, result) <~
    match where_clause with
    | Some w =>
        bound <~ bind_where_query root_index alias column_aliases
                                  bound_select_node result w ;;
        call (Ok (GetRootIndex bound, bound, BoundSubqueryRef bound))
    | None => call (Ok (root_index, bound_select_node, result))
    end ;;
  _ <~ register_subquery root_index alias column_aliases bound_select_node ;;
  call (Ok result).

Definition Bind (ref : PivotRef) : binder_step (BoundTableRef BoundQueryNode) :=
  '(select_node, where_clause) <~ call (generated_tree ref) ;;
  bind_generated_tree ref select_node where_clause.

End Binder.

(* ================================================================== *)
(** * Vocabulary of the properties

    What the properties below speak of: the cross product of the entries,
    the display names, the internal names, the columns of the stages. *)

Section Vocabulary.
Context {VO : ValueOps} {CAT : Catalog} {BO : BinderOps}.

(** The cross product of the levels, depth first: the first level varies
    slowest, every level is gone through in its own order. *)
Fixpoint combinations {A} (levels : list (list A)) : list (list A) :=
  match levels with
  | [] => [[]]
  | es :: deeper => flat_map (fun e => map (cons e) (combinations deeper)) es
  end.

Definition product (ks : list nat) : nat := fold_right Nat.mul 1 ks.

Definition underscore_join (parts : list string) : string :=
  String.concat "_" parts.

Fixpoint drop_empty_prefix (parts : list string) : list string :=
  match parts with
  | EmptyString :: rest => drop_empty_prefix rest
  | _ => parts
  end.

(** The display name as the specification words it: the underscore-join,
    over the levels, of the alias or else of the underscore-join of the
    printed values. *)
Definition level_name_spec (entry : PivotColumnEntry) : string :=
  if empty (entry_alias entry)
  then underscore_join (map ToString (entry_values entry))
  else entry_alias entry.

Definition element_spec (combo : list PivotColumnEntry) : PivotValueElement :=
  {| values := List.concat (map entry_values combo);
     name := underscore_join (map level_name_spec combo) |}.

(** The display name the code builds: a separator is only written after a
    non-empty name, so that empty parts at the front leave no trace. *)
Definition level_name (entry : PivotColumnEntry) : string :=
  if empty (entry_alias entry)
  then underscore_join (drop_empty_prefix (map ToString (entry_values entry)))
  else entry_alias entry.

Definition element_of (combo : list PivotColumnEntry) : PivotValueElement :=
  {| values := List.concat (map entry_values combo);
     name := underscore_join (drop_empty_prefix (map level_name combo)) |}.

Definition append_part (name_ part : string) : string :=
  if empty name_ then part else (name_ ++ "_" ++ part)%string.

(** The parts of a name for which the code and the plain underscore-join
    agree: a first part that is followed by another one is not empty. *)
Definition leading_part_nonempty (parts : list string) : Prop :=
  match parts with
  | p :: _ :: _ => empty p = false
  | _ => True
  end.

(** The number of combinations of a list of pivot columns, as a number. *)
Definition total_combinations (ps : list PivotColumn) : Z :=
  fold_right Z.mul 1%Z (map (fun pivot => Z.of_nat (List.length (entries pivot))) ps).

(** Two tuples that are the same in every position. *)
Fixpoint same_tuple (a b : list Value) : bool :=
  match a, b with
  | [], [] => true
  | x :: a', y :: b' => andb (ValueEquality x y) (same_tuple a' b')
  | _, _ => false
  end.

(** The key of an entry: its single value, or else the list of its
    values. *)
Definition tuple_key (entry : PivotColumnEntry) : Value :=
  match entry_values entry with
  | [value] => value
  | tuple => Value_LIST tuple
  end.

(** An entry of [es] whose key is in [seen] or is the key of an entry
    before it. *)
Definition clashes (seen : value_set_t) (es : list PivotColumnEntry) : Prop :=
  exists j ej,
    nth_error es j = Some ej /\
    (value_set_find (entry_key ej) seen = true \/
     exists i ei, i < j /\ nth_error es i = Some ei /\
                  ValueEquality (entry_key ej) (entry_key ei) = true).

(** [count] names with one prefix, numbered from [first]. *)
Definition internal_names (prefix : string) (first count : nat) : list string :=
  map (internal_name prefix) (seq first count).

(** The number of pivot expressions of a declaration. *)
Definition pivot_expression_count (ps : list PivotColumn) : nat :=
  list_sum (map (fun pivot => List.length (pivot_expressions pivot)) ps).

(** The aliases that [after] carries where [before] had none: the aliases
    the rewrite made up. *)
Definition synthesized_aliases (before after : list ParsedExpression) : list string :=
  map (fun ba => expr_alias (snd ba))
      (filter (fun ba => empty (expr_alias (fst ba))) (combine before after)).

(** All pivot expressions of a declaration, in order. *)
Definition all_pivot_expressions (ps : list PivotColumn) : list ParsedExpression :=
  List.concat (map pivot_expressions ps).

(** Every entry has as many values as its column has pivot expressions. *)
Definition consistent_rows (pivot : PivotColumn) : Prop :=
  Forall (fun entry => List.length (entry_values entry)
                       = List.length (pivot_expressions pivot))
         (entries pivot).

(** The grouping columns of stage 4: the internal names, under the names
    the columns had for the user. *)
Definition group_columns (bind_state : PivotBindState) : list ParsedExpression :=
  map (fun names => ColumnRefExpression [fst names] (snd names))
      (combine (internal_group_names bind_state) (group_names bind_state)).

(** [array_extract(map_extract(map_column, pivot_value), 1) AS display_name] *)
Definition extracted_column (map_column : string) (pivot_value : Value)
    (display_name : string) : ParsedExpression :=
  FunctionExpression "array_extract"
    [FunctionExpression "map_extract"
       [ColumnRefExpression [map_column] ""; ConstantExpression pivot_value ""] "";
     ConstantExpression (Value_INTEGER 1) ""]
    display_name.

(** The columns of one single-valued element: one per map. *)
Definition extract_columns (maps : list string) (pivot_value : PivotValueElement)
    : list ParsedExpression :=
  match values pivot_value with
  | [value] => map (fun internal_map =>
                      extracted_column internal_map value (name pivot_value)) maps
  | _ => []
  end.

(** The names of the five kinds, whatever their numbers. *)
Definition five_kinds (g p a n m : nat) : list string :=
  internal_names "__internal_pivot_group" 1 g
  ++ internal_names "__internal_pivot_ref" 1 p
  ++ internal_names "__internal_pivot_aggregate" 1 a
  ++ internal_names "__internal_pivot_name" 1 n
  ++ internal_names "__internal_pivot_map" 1 m.

(** The names one rewrite makes up: the aliases given to the grouping
    columns and to the pivot expressions that had none, and the internal
    aggregate, pivot-list and map names. *)
Definition synthesized_names (ref : PivotRef)
    (groups0 subquery_stage1 : SelectNode) (bind_state : PivotBindState)
    : list string :=
  let group_count := List.length (select_list groups0) in
  let pivot_count := pivot_expression_count (pivots ref) in
  synthesized_aliases (select_list groups0)
                      (firstn group_count (select_list subquery_stage1))
  ++ synthesized_aliases (all_pivot_expressions (pivots ref))
       (firstn pivot_count (skipn group_count (select_list subquery_stage1)))
  ++ internal_aggregate_names bind_state
  ++ internal_pivot_names bind_state
  ++ internal_map_names bind_state.

Definition arity (entry : PivotColumnEntry) : nat := List.length (entry_values entry).

(** The name of the [i]-th value column (line 466). *)
Definition unnest_name (ref : PivotRef) (i : nat) : string :=
  if Nat.ltb i (List.length (column_name_alias ref))
  then nth i (column_name_alias ref) ""
  else nth i (unpivot_names ref) "".

(** The [i]-th value column (lines 462-468). *)
Definition unnest_value (ref : PivotRef)
    (unpivot_expressions : list (list ParsedExpression)) (i : nat) : ParsedExpression :=
  FunctionExpression "unnest"
    [FunctionExpression "list_value" (nth i unpivot_expressions []) ""]
    (unnest_name ref i).

(** [column_name IS NOT NULL] *)
Definition not_null_test (column_name : string) : ParsedExpression :=
  OperatorExpression [ColumnRefExpression [column_name] ""] "".

(** The filters, conjoined from left to right onto the filter there was:
    [((w AND f1) AND f2) ...], or [f1 AND ...] when there was none. *)
Definition conjoin (where_clause : option ParsedExpression)
    (filters : list ParsedExpression) : option ParsedExpression :=
  fold_left (fun w f => Some (match w with
                              | Some w => ConjunctionExpression [w; f] ""
                              | None => f
                              end))
            filters where_clause.

(** The filter of an UNPIVOT that excludes nulls, over its value columns. *)
Definition null_filter (value_columns : list string) : option ParsedExpression :=
  conjoin None (map not_null_test value_columns).

(** The alias under which the result is registered (line 515). *)
Definition registered_alias (ref : PivotRef) : string :=
  if empty (ref_alias ref) then "__unnamed_pivot" else ref_alias ref.

(** The sub-query registry of the enclosing scope: the bind context of
    [this] binder. *)
Definition registry (this : ThisBinder) : BindContext := fst this.

(** Modelled from the spec: the binder is outside this file; by sections 2
    and 4.5 of the specification the generated tree is bound in an isolated
    scope nested in the current one.  Here: what the calls into a nested
    binder, and the move of its correlated columns, do to [this] binder
    leaves its registry as it is, whether they return or throw. *)
Definition calls_keep_registry : Prop :=
  (forall this node, registry (snd (BindNode this node)) = registry this) /\
  (forall this child_binder,
     registry (snd (MoveCorrelatedExpressions this child_binder)) = registry this) /\
  (forall this child_context node from,
     registry (snd (BindSelectNode this child_context node from)) = registry this).

(** Modelled from the spec: [AddSubquery] is outside this file (the
    [RegisterSubquery] of section 6); by section 7 of the specification an
    error attaches nothing to the scope.  Here: an [AddSubquery] that does
    not return gives back the bind context it was called on. *)
Definition failed_registration_adds_nothing : Prop :=
  forall bind_context root_index alias column_aliases bound,
    is_ok (fst (AddSubquery bind_context root_index alias column_aliases bound)) = false ->
    snd (AddSubquery bind_context root_index alias column_aliases bound) = bind_context.

(** Whether an expression contains a qualified column reference. *)
Fixpoint has_qualified_column (e : ParsedExpression) : bool :=
  match e with
  | ColumnRefExpression column_names _ => IsQualified column_names
  | FunctionExpression _ c _ | OperatorExpression c _
  | ConjunctionExpression c _ | OtherExpression _ c _ =>
      existsb has_qualified_column c
  | _ => false
  end.

(** The columns an expression refers to, from left to right. *)
Fixpoint referenced_columns (e : ParsedExpression) : list string :=
  match e with
  | ColumnRefExpression column_names _ => [GetColumnName column_names]
  | FunctionExpression _ c _ | OperatorExpression c _
  | ConjunctionExpression c _ | OtherExpression _ c _ =>
      flat_map referenced_columns c
  | _ => []
  end.

Definition insert_all (column_names : list string) (s : case_insensitive_set_t)
    : case_insensitive_set_t :=
  fold_left (fun s column_name => ci_insert column_name s) column_names s.

Definition expression_children (e : ParsedExpression) : list ParsedExpression :=
  match e with
  | FunctionExpression _ c _ | OperatorExpression c _
  | ConjunctionExpression c _ | OtherExpression _ c _ => c
  | _ => []
  end.

Definition is_colref (e : ParsedExpression) : bool :=
  match e with ColumnRefExpression _ _ => true | _ => false end.

(** The column a column reference names ([""] for another expression). *)
Definition colref_name (e : ParsedExpression) : string :=
  match e with
  | ColumnRefExpression column_names _ => GetColumnName column_names
  | _ => ""
  end.

(** The entries of a pivot column once its enum type, if it names one,
    has been looked up: the declared entries, then one per enum value. *)
Definition expanded_entries (pivot : PivotColumn) : list PivotColumnEntry :=
  entries pivot
  ++ (if empty (pivot_enum pivot) then []
      else match GetType (pivot_enum pivot) with
           | Ok (ENUM enum_values) => map enum_entry enum_values
           | _ => []
           end).

(** [GROUP BY first, first + 1, ...]: [count] positions of the select list. *)
Definition positions (first count : nat) : list ParsedExpression :=
  map (fun i => make_constant (Value_INTEGER i)) (seq first count).

(** The columns [cols], each grouped by its position, over [from]. *)
Definition grouped_columns (cols : list ParsedExpression) (from : option TableRef)
    : SelectNode :=
  mkSelectNode cols from None (positions 1 (List.length cols)).

(** [LIST(expression) AS alias] and [MAP(pivot_list, aggregate_list) AS alias] *)
Definition list_of (expression : ParsedExpression) (alias : string) : ParsedExpression :=
  FunctionExpression "list" [expression] alias.

Definition map_of (pivot_list aggregate_list alias : string) : ParsedExpression :=
  FunctionExpression "map" [make_colref pivot_list; make_colref aggregate_list] alias.

(** An expression without its alias. *)
Definition unaliased (e : ParsedExpression) : ParsedExpression := set_alias e "".

(** The grouping columns of a declaration: the listed rows, or else the
    columns of the source that the aggregates and the pivot expressions do
    not use. *)
Definition grouping_columns (ref : PivotRef) (all_columns : list ParsedExpression)
    (handled_columns : case_insensitive_set_t) : list ParsedExpression :=
  match groups ref with
  | [] => filter (fun c => negb (ci_find (colref_name c) handled_columns)) all_columns
  | rows => map make_colref rows
  end.

(** The aggregates under their internal names. *)
Definition aggregate_columns (aggrs : list ParsedExpression) (first : nat)
    : list ParsedExpression :=
  map (fun an => set_alias (fst an) (snd an))
      (combine aggrs
         (internal_names "__internal_pivot_aggregate" first (List.length aggrs))).

(** References to columns by their aliases. *)
Definition references_to (columns : list ParsedExpression) : list ParsedExpression :=
  map (fun c => make_colref (expr_alias c)) columns.

(** The select list of stage 2: the grouping columns, a list per
    aggregate, a list per pivot expression. *)
Definition pivot_lists (pivot_exprs : list ParsedExpression) (first : nat)
    : list ParsedExpression :=
  map (fun en => list_of (fst en) (snd en))
      (combine pivot_exprs
         (internal_names "__internal_pivot_name" first (List.length pivot_exprs))).

Definition stage2_columns (bind_state : PivotBindState)
    (pivot_exprs : list ParsedExpression) : list ParsedExpression :=
  map (fun g => group_reference g g) (internal_group_names bind_state)
  ++ map (fun a => list_of (make_colref a) a) (internal_aggregate_names bind_state)
  ++ pivot_lists pivot_exprs 1.

(** The maps of stage 3: the [i]-th pivot list with the [i]-th aggregate
    list. *)
Definition stage3_maps (bind_state : PivotBindState) (first count : nat)
    : list ParsedExpression :=
  map (fun i => map_of (nth i (internal_pivot_names bind_state) "")
                       (nth i (internal_aggregate_names bind_state) "")
                       (internal_name "__internal_pivot_map" (i + 1)))
      (seq first count).

Definition stage3_columns (bind_state : PivotBindState) : list ParsedExpression :=
  map (fun g => group_reference g g) (internal_group_names bind_state)
  ++ stage3_maps bind_state 0 (List.length (internal_pivot_names bind_state)).

(** What is wrong with an aggregate, if anything: the checks of lines
    253-264 in their order, then the qualified column of the extractor. *)
Definition aggregate_error (aggr : ParsedExpression) : option Exception :=
  match expr_type aggr with
  | FUNCTION =>
      if HasSubquery aggr then Some subquery_error
      else if IsWindow aggr then Some window_error
      else if has_qualified_column aggr then Some qualified_column_error
      else None
  | _ => Some not_aggregate_error
  end.

Fixpoint first_aggregate_error (aggrs : list ParsedExpression) : option Exception :=
  match aggrs with
  | [] => None
  | aggr :: rest =>
      match aggregate_error aggr with
      | Some e => Some e
      | None => first_aggregate_error rest
      end
  end.

(** The columns a declaration uses: those its aggregates refer to, then
    those its pivot expressions refer to. *)
Definition used_columns (ref : PivotRef) : list string :=
  flat_map referenced_columns (aggregates ref ++ all_pivot_expressions (pivots ref)).

(** The entry a column of a star stands for (lines 381-384). *)
Definition star_entry (column_name : string) : PivotColumnEntry :=
  {| entry_values := [Value_VARCHAR column_name]; star_expr := None;
     entry_alias := column_name |}.

(** The entries a declared entry stands for: itself, or one entry per
    column of its star. *)
Definition star_columns_of (child_binder : StarBinder) (entry : PivotColumnEntry)
    : list PivotColumnEntry :=
  match star_expr entry with
  | None => [entry]
  | Some star =>
      match ExpandStarExpression child_binder star with
      | Ok star_columns => map (fun c => star_entry (colref_name c)) star_columns
      | _ => []
      end
  end.

(** The printed values of the entries, in order. *)
Definition unpivoted_values (es : list PivotColumnEntry) : list string :=
  flat_map (fun entry => map ToString (entry_values entry)) es.

(** Whether one of [cols] is called [key], up to case. *)
Definition column_matches (cols : list ParsedExpression) (key : string) : bool :=
  existsb (fun c => ci_equal (colref_name c) key) cols.

(** A column of the source passes through an UNPIVOT when it is not named
    by a value, or when a column before it has its name. *)
Definition passes_through (unpivoted : list string) (earlier : list ParsedExpression)
    (c : ParsedExpression) : bool :=
  negb (existsb (ci_equal (colref_name c)) unpivoted)
  || column_matches earlier (colref_name c).

Fixpoint passing_columns (unpivoted : list string)
    (earlier cols : list ParsedExpression) : list ParsedExpression :=
  match cols with
  | [] => []
  | c :: rest =>
      (if passes_through unpivoted earlier c then [c] else [])
      ++ passing_columns unpivoted (earlier ++ [c]) rest
  end.

Fixpoint unpivoted_columns (unpivoted : list string)
    (earlier cols : list ParsedExpression) : list ParsedExpression :=
  match cols with
  | [] => []
  | c :: rest =>
      (if passes_through unpivoted earlier c then [] else [c])
      ++ unpivoted_columns unpivoted (earlier ++ [c]) rest
  end.

(** The name map of line 412: one pair per unpivoted column. *)
Definition name_pairs (cols : list ParsedExpression) : case_insensitive_map_t :=
  map (fun c => (colref_name c, colref_name c)) cols.

(** The name of the first column of the source that a value names, as the
    source spells it. *)
Definition source_spelling (cols : list ParsedExpression) (value : string) : string :=
  match find (fun c => ci_equal value (colref_name c)) cols with
  | Some c => colref_name c
  | None => ""
  end.

(** The name that stands for an entry in the name column of an UNPIVOT. *)
Definition unpivot_column_name (cols : list ParsedExpression)
    (entry : PivotColumnEntry) : Value :=
  Value_VARCHAR
    (if negb (empty (entry_alias entry)) then entry_alias entry
     else underscore_join
            (drop_empty_prefix
               (map (fun v => source_spelling cols (ToString v))
                    (entry_values entry)))).

(** The value columns of an UNPIVOT: one list per value position of the
    first entry, holding that value of every entry. *)
Definition value_lists (es : list PivotColumnEntry) : list (list ParsedExpression) :=
  match es with
  | [] => []
  | first_entry :: _ =>
      map (fun v_idx =>
             map (fun entry =>
                    ColumnRefExpression
                      [ToString (nth v_idx (entry_values entry) (Value_VARCHAR ""))] "")
                 es)
          (seq 0 (arity first_entry))
  end.

End Vocabulary.

(* ================================================================== *)
(** * A concrete value domain

    Strings, integers and lists of them, compared structurally; used to
    run the functions above on sample declarations. *)

Module Sql.

Inductive SqlValue :=
| Varchar (s : string)
| Integer (n : nat)
| List (l : list SqlValue).

Fixpoint sql_to_string (v : SqlValue) : string :=
  match v with
  | Varchar s => s
  | Integer n => to_string n
  | List l => ("[" ++ String.concat ", " (map sql_to_string l) ++ "]")%string
  end.

Fixpoint sql_eqb (a b : SqlValue) : bool :=
  match a, b with
  | Varchar s, Varchar t => String.eqb s t
  | Integer n, Integer m => Nat.eqb n m
  | List l, List k =>
      (fix all2 (l k : list SqlValue) : bool :=
         match l, k with
         | [], [] => true
         | x :: l', y :: k' => andb (sql_eqb x y) (all2 l' k')
         | _, _ => false
         end) l k
  | _, _ => false
  end.

(** A moved-from string value holds the empty string. *)
Definition sql_moved_from (v : SqlValue) : SqlValue :=
  match v with
  | Varchar _ => Varchar ""
  | _ => v
  end.

#[export] Instance sql_values : ValueOps := {
  Value := SqlValue;
  ToString := sql_to_string;
  Value_VARCHAR := Varchar;
  Value_INTEGER := Integer;
  Value_LIST := List;
  ValueEquality := sql_eqb;
  Value_moved_from := sql_moved_from
}.

(** A catalog with one enum type, [quarter]. *)
#[export] Instance sql_catalog : Catalog := {
  GetType name :=
    if String.eqb name "quarter" then Ok (ENUM ["Q1"; "Q2"; "Q3"; "Q4"])
    else Ok (NOT_ENUM "INTEGER")
}.

(** An entry of an IN list. *)
Definition in_entry (vs : list SqlValue) (alias : string) : PivotColumnEntry :=
  {| entry_values := vs; star_expr := None; entry_alias := alias |}.

(** [ON column IN (entries)] *)
Definition on_column (column : string) (es : list PivotColumnEntry) : PivotColumn :=
  {| pivot_expressions := [make_colref column]; column_unpivot_names := [];
     entries := es; pivot_enum := "" |}.

(** [PIVOT sales ON pivots USING aggregates] *)
Definition pivot_sales (ps : list PivotColumn) (aggrs : list ParsedExpression)
    : PivotRef :=
  {| source := Some (BaseTableRef "sales"); aggregates := aggrs;
     unpivot_names := []; pivots := ps; groups := []; column_name_alias := [];
     include_nulls := false; ref_alias := "" |}.

Definition sum_amount : ParsedExpression :=
  FunctionExpression "sum" [make_colref "amount"] "".

(** A binder that knows three tables, keeps what it bound as a term and
    refuses an alias that is already registered. *)
Inductive Bound :=
| BoundSelect (root_index : nat) (node : SelectNode) (from : option Bound).

Definition table_columns (t : TableRef) : outcome (list string) :=
  match t with
  | BaseTableRef "sales" => Ok ["region"; "quarter"; "amount"]
  | BaseTableRef "t" => Ok ["id"; "q1"; "q2"]
  | BaseTableRef "wide" => Ok ["id"; "q1"; "q2"; "q3"]
  | _ => Throw (mkException CatalogException "Table does not exist")
  end.

Definition Registration : Type := nat * string * list string * Bound.

Definition add_registration (context : list Registration) (root_index : nat)
    (alias : string) (column_aliases : list string) (bound : Bound)
    : outcome unit * list Registration :=
  if existsb (fun r => String.eqb (snd (fst (fst r))) alias) context
  then (Throw (mkException BinderException "Duplicate alias in query"), context)
  else (Ok tt, context ++ [(root_index, alias, column_aliases, bound)]).

(** A child binder holds the correlated columns it met: here the column
    [outer.id], whatever it binds. *)
#[export] Instance sql_binder : BinderOps := {
  StarBinder := list string;
  ChildBinder := list string;
  BoundQueryNode := Bound;
  BindContext := list Registration;
  CorrelatedColumns := list string;
  bind_source := table_columns;
  ExpandStarExpression columns star := Ok (map make_colref columns);
  BindNode this node := (Ok (["outer.id"], BoundSelect 0 node None), this);
  MoveCorrelatedExpressions this child_binder :=
    (Ok tt, (fst this, snd this ++ child_binder));
  GetRootIndex bound := match bound with BoundSelect i _ _ => i end;
  new_BindContext := [];
  AddSubquery := add_registration;
  BindSelectNode this context node from :=
    match from with
    | BoundSubqueryRef b => (Ok (BoundSelect 1 node (Some b)), this)
    end
}.

(** [UNPIVOT table ON entries INTO NAME name VALUE value_names] *)
Definition unpivot_table (table : string) (es : list PivotColumnEntry)
    (name_column : string) (value_names : list string) (with_nulls : bool) : PivotRef :=
  {| source := Some (BaseTableRef table); aggregates := [];
     unpivot_names := value_names;
     pivots := [{| pivot_expressions := []; column_unpivot_names := [name_column];
                   entries := es; pivot_enum := "" |}];
     groups := []; column_name_alias := [];
     include_nulls := with_nulls; ref_alias := "" |}.

End Sql.
Import Sql.

(* ================================================================== *)
(** * Sample declarations *)

(** [PIVOT sales ON quarter IN ('Q1', 'Q2') region IN ('A' AS north, 'B')] *)
Definition quarters_by_region : PivotRef :=
  pivot_sales
    [on_column "quarter" [in_entry [Varchar "Q1"] ""; in_entry [Varchar "Q2"] ""];
     on_column "region" [in_entry [Varchar "A"] "north"; in_entry [Varchar "B"] ""]]
    [sum_amount].

(** [PIVOT sales ON c1 IN ('') c2 IN ('b')]: the first level is the empty
    string. *)
Definition empty_first_level : PivotRef :=
  pivot_sales
    [on_column "c1" [in_entry [Varchar ""] ""];
     on_column "c2" [in_entry [Varchar "b"] ""]]
    [sum_amount].

(** [ON column IN (0, 1, ..., n-1)] *)
Definition numbered_column (column : string) (n : nat) : PivotColumn :=
  on_column column (map (fun i => in_entry [Integer i] "") (seq 0 n)).

(** 64 pivot columns with two entries each: 2^64 combinations. *)
Definition sixty_four_columns : PivotRef :=
  pivot_sales (repeat (numbered_column "c" 2) 64) [sum_amount].

(** [ON quarter IN ('Q1', 'Q2', 'Q1')] *)
Definition quarter_twice : PivotColumn :=
  on_column "quarter"
    [in_entry [Varchar "Q1"] ""; in_entry [Varchar "Q2"] ""; in_entry [Varchar "Q1"] ""].

(** [ON quarter IN (('a', 'b'), ('a', 'b'))]: one pivot expression, twice
    the same pair. *)
Definition pair_twice : PivotColumn :=
  on_column "quarter"
    [in_entry [Varchar "a"; Varchar "b"] ""; in_entry [Varchar "a"; Varchar "b"] ""].

(** [ON quarter IN (['a', 'b'], ('a', 'b'))]: a list constant, then a pair
    of the same values. *)
Definition list_and_pair : PivotColumn :=
  on_column "quarter"
    [in_entry [List [Varchar "a"; Varchar "b"]] "";
     in_entry [Varchar "a"; Varchar "b"] ""].

Definition max_amount : ParsedExpression :=
  FunctionExpression "max" [make_colref "amount"] "".

Definition sales_columns : list ParsedExpression :=
  [make_colref "region"; make_colref "quarter"; make_colref "amount"].

(** [PIVOT sales ON quarter IN ('Q1', 'Q2') USING sum(amount), max(amount)] *)
Definition two_aggregates : PivotRef :=
  pivot_sales
    [on_column "quarter" [in_entry [Varchar "Q1"] ""; in_entry [Varchar "Q2"] ""]]
    [sum_amount; max_amount].

(** [PIVOT sales ON (quarter, region) IN (('Q1', 'A')) USING sum(amount)] *)
Definition two_pivot_expressions : PivotRef :=
  pivot_sales
    [{| pivot_expressions := [make_colref "quarter"; make_colref "region"];
        column_unpivot_names := [];
        entries := [in_entry [Varchar "Q1"; Varchar "A"] ""];
        pivot_enum := "" |}]
    [sum_amount].

(** [PIVOT sales ON quarter IN ('Q1', 'Q2') USING sum(amount)] *)
Definition sales_by_quarter : PivotRef :=
  pivot_sales
    [on_column "quarter" [in_entry [Varchar "Q1"] ""; in_entry [Varchar "Q2"] ""]]
    [sum_amount].

(** The source table has a column called [__internal_pivot_aggregate1]. *)
Definition reserved_column : list ParsedExpression :=
  [make_colref "__internal_pivot_aggregate1"; make_colref "quarter";
   make_colref "amount"].

Definition wide_columns : list string := ["id"; "q1"; "q2"; "q3"].

(** [UNPIVOT wide ON (q2, q3), q1 INTO NAME quarter VALUE amount, more]:
    the second entry is shorter than the first. *)
Definition shorter_second_entry : PivotRef :=
  unpivot_table "wide"
    [in_entry [Varchar "q2"; Varchar "q3"] ""; in_entry [Varchar "q1"] ""]
    "quarter" ["amount"; "more"] false.

(** [UNPIVOT wide ON q1, (q2, q3) INTO NAME quarter VALUE amount]: the
    second entry is longer than the first. *)
Definition longer_second_entry : PivotRef :=
  unpivot_table "wide"
    [in_entry [Varchar "q1"] ""; in_entry [Varchar "q2"; Varchar "q3"] ""]
    "quarter" ["amount"] false.

(** [UNPIVOT t ON q1, q2 INTO NAME quarter VALUE amount], nulls excluded. *)
Definition unpivot_quarters : PivotRef :=
  unpivot_table "t" [in_entry [Varchar "q1"] ""; in_entry [Varchar "q2"] ""]
                "quarter" ["amount"] false.

(** An enclosing binder in which the alias [__unnamed_pivot] is taken. *)
Definition alias_taken : list Registration * list string :=
  ([(7, "__unnamed_pivot", [], BoundSelect 7 new_SelectNode None)], []).

(** A binder that does not keep to its scope: binding a node in a child
    registers the node in the parent as well. *)
Definition leaking_binder : BinderOps :=
  {| StarBinder := list string;
     ChildBinder := list string;
     BoundQueryNode := Bound;
     BindContext := list Registration;
     CorrelatedColumns := list string;
     bind_source := table_columns;
     ExpandStarExpression := fun columns star => Ok (map make_colref columns);
     BindNode := fun this node =>
       (Ok ([], BoundSelect 0 node None),
        (fst this ++ [(0, "leaked", [], BoundSelect 0 node None)], snd this));
     MoveCorrelatedExpressions := fun this child_binder =>
       (Ok tt, (fst this, snd this ++ child_binder));
     GetRootIndex := fun bound => match bound with BoundSelect i _ _ => i end;
     new_BindContext := [];
     AddSubquery := add_registration;
     BindSelectNode := fun this context node from =>
       match from with
       | BoundSubqueryRef b => (Ok (BoundSelect 1 node (Some b)), this)
       end |}.

(** [PIVOT sales ON quarter IN quarter USING sum(amount)], over the enum
    type [quarter] of the sample catalog. *)
Definition sales_by_enum : PivotRef :=
  pivot_sales
    [{| pivot_expressions := [make_colref "quarter"]; column_unpivot_names := [];
        entries := []; pivot_enum := "quarter" |}]
    [sum_amount].

(** [UNPIVOT wide ON Q1, (q2, Q3), q3 AS last INTO NAME quarter VALUE amount]:
    the values are not spelled as the columns of the table are. *)
Definition mixed_case_entries : PivotRef :=
  unpivot_table "wide"
    [in_entry [Varchar "Q1"] ""; in_entry [Varchar "q2"; Varchar "Q3"] "";
     in_entry [Varchar "q3"] "last"]
    "quarter" ["amount"] false.

(** [UNPIVOT t ON q1, q9 INTO NAME quarter VALUE amount]: the table has no
    column [q9]. *)
Definition unknown_column : PivotRef :=
  unpivot_table "t" [in_entry [Varchar "q1"] ""; in_entry [Varchar "q9"] ""]
                "quarter" ["amount"] false.

(* ================================================================== *)
(** * Generic facts on loops and strings *)

Lemma string_append_assoc (a b c : string) :
  ((a ++ b) ++ c = a ++ (b ++ c))%string.
Proof.
  induction a as [|ch a IH]; simpl; [reflexivity | now rewrite IH].
Qed.

Lemma empty_true (s : string) : empty s = true <-> s = "".
Proof. destruct s; simpl; split; congruence. Qed.

Lemma empty_append (a b : string) :
  empty (a ++ b) = andb (empty a) (empty b).
Proof. destruct a; simpl; [reflexivity | reflexivity]. Qed.

(** A loop whose body always appends to its state. *)
Lemma for_each_appends {A B} (body : list B -> A -> outcome (list B))
    (g : A -> list B) (xs : list A) :
  (forall s x, In x xs -> body s x = Ok (s ++ g x)) ->
  forall s, for_each body xs s = Ok (s ++ flat_map g xs).
Proof.
  induction xs as [|x xs IH]; intros Hbody s; simpl.
  - now rewrite app_nil_r.
  - rewrite Hbody by now left. simpl.
    rewrite IH by (intros; apply Hbody; now right).
    now rewrite app_assoc.
Qed.

Lemma for_each_app {A S} (body : S -> A -> outcome S) (xs ys : list A) (s : S) :
  for_each body (xs ++ ys) s = (s' <- for_each body xs s ;; for_each body ys s').
Proof.
  revert s; induction xs as [|x xs IH]; intros s; simpl; [reflexivity|].
  destruct (body s x); simpl; auto.
Qed.

Lemma map_flat_map {A B C} (f : B -> C) (g : A -> list B) (l : list A) :
  map f (flat_map g l) = flat_map (fun x => map f (g x)) l.
Proof.
  induction l as [|x l IH]; simpl; [reflexivity|].
  now rewrite map_app, IH.
Qed.

Lemma combine_append {A B} (l1 : list A) (k1 : list B) (l2 : list A) (k2 : list B) :
  List.length l1 = List.length k1 ->
  combine (l1 ++ l2) (k1 ++ k2) = combine l1 k1 ++ combine l2 k2.
Proof.
  revert k1; induction l1 as [|x l1 IH]; intros [|y k1] Hlen;
    try discriminate; simpl; [reflexivity|].
  now rewrite IH by (simpl in Hlen; lia).
Qed.

Lemma flat_map_length_const {A B} (g : A -> list B) (c : nat) (l : list A) :
  (forall x, List.length (g x) = c) ->
  List.length (flat_map g l) = List.length l * c.
Proof.
  intros Hc; induction l as [|x l IH]; simpl; [reflexivity|].
  now rewrite length_app, Hc, IH.
Qed.

(* ================================================================== *)
(** * The pivot-value enumerator *)

Section Enumerator.
Context {VO : ValueOps}.

Lemma append_parts_nonempty (parts : list string) : forall acc,
  empty acc = false ->
  fold_left append_part parts acc = underscore_join (acc :: parts).
Proof.
  induction parts as [|p ps IH]; intros acc Hacc; simpl.
  - reflexivity.
  - unfold append_part at 2. rewrite Hacc.
    rewrite IH by (rewrite empty_append, Hacc; reflexivity).
    unfold underscore_join; simpl.
    destruct ps as [|q qs]; [reflexivity|].
    now rewrite !string_append_assoc.
Qed.

Lemma append_parts_empty (parts : list string) :
  fold_left append_part parts "" = underscore_join (drop_empty_prefix parts).
Proof.
  induction parts as [|p ps IH]; simpl; [reflexivity|].
  destruct p as [|c p]; [exact IH|].
  now rewrite append_parts_nonempty.
Qed.

Lemma join_without_empty_prefix (parts : list string) :
  match parts with
  | p :: _ :: _ => empty p = false
  | _ => True
  end ->
  underscore_join (drop_empty_prefix parts) = underscore_join parts.
Proof.
  destruct parts as [|p [|q qs]]; simpl; intros H.
  - reflexivity.
  - now destruct p.
  - destruct p; [discriminate | reflexivity].
Qed.

Lemma add_values_fold (entry : PivotColumnEntry) (vs : list Value) :
  forall new_values name_,
  fold_left (add_value entry) vs (new_values, name_) =
  (new_values ++ vs,
   if empty (entry_alias entry)
   then fold_left append_part (map ToString vs) name_
   else name_).
Proof.
  induction vs as [|v vs IH]; intros new_values name_; simpl.
  - rewrite app_nil_r. now destruct (empty (entry_alias entry)).
  - rewrite IH, <- app_assoc. simpl. f_equal.
    unfold append_part. now destruct (empty (entry_alias entry)).
Qed.

Lemma extend_element_eq (current_value : PivotValueElement)
    (entry : PivotColumnEntry) :
  extend_element current_value entry =
  {| values := values current_value ++ entry_values entry;
     name := append_part (name current_value) (level_name entry) |}.
Proof.
  unfold extend_element. rewrite add_values_fold. f_equal.
  unfold append_part, level_name.
  destruct (empty (entry_alias entry)) eqn:Halias.
  - apply empty_true in Halias. rewrite Halias, append_parts_empty.
    now destruct (empty (name current_value)).
  - now destruct (empty (name current_value)).
Qed.

Lemma extend_along (combo : list PivotColumnEntry) : forall current_value,
  fold_left extend_element combo current_value =
  {| values := values current_value ++ List.concat (map entry_values combo);
     name := fold_left append_part (map level_name combo) (name current_value) |}.
Proof.
  induction combo as [|e combo IH]; intros cur; simpl.
  - rewrite app_nil_r. now destruct cur.
  - rewrite IH, extend_element_eq. simpl. now rewrite app_assoc.
Qed.

Lemma extend_from_empty (combo : list PivotColumnEntry) :
  fold_left extend_element combo empty_element = element_of combo.
Proof.
  rewrite extend_along. simpl. now rewrite append_parts_empty.
Qed.

Lemma combinations_length {A} (levels : list (list A)) :
  List.length (combinations levels) = product (map (@List.length A) levels).
Proof.
  induction levels as [|es deeper IH]; simpl; [reflexivity|].
  rewrite flat_map_length_const with (c := List.length (combinations deeper))
    by (intros; apply length_map).
  now rewrite IH.
Qed.

(** What one call of [ConstructPivots] appends, at any level in range. *)
Lemma ConstructPivots_from_eq (levels : list PivotColumn) :
  levels <> [] ->
  forall pivot_values current_value,
  ConstructPivots_from levels pivot_values current_value =
  Ok (pivot_values ++
      map (fun combo => fold_left extend_element combo current_value)
          (combinations (map entries levels))).
Proof.
  induction levels as [|pivot deeper IH]; intros Hne pv cur; [congruence|].
  destruct deeper as [|next rest].
  - simpl. rewrite for_each_appends
      with (g := fun e => [extend_element cur e]) by reflexivity.
    do 2 f_equal. rewrite map_flat_map. reflexivity.
  - cbn [ConstructPivots_from map combinations].
    rewrite for_each_appends
      with (g := fun e => map (fun combo => fold_left extend_element combo
                                              (extend_element cur e))
                              (combinations (map entries (next :: rest)))).
    + do 2 f_equal. rewrite map_flat_map. apply flat_map_ext. intros e.
      now rewrite map_map.
    + intros s e _. apply IH. discriminate.
Qed.

(** The recursion of the source, by index: the subscript is out of range
    from [size()] on, the last level appends, the others recurse. *)
Lemma ConstructPivots_unfold (ref : PivotRef) (pivot_values : list PivotValueElement)
    (pivot_idx : nat) (current_value : PivotValueElement) :
  ConstructPivots ref pivot_values pivot_idx current_value =
  match nth_error (pivots ref) pivot_idx with
  | None => OutOfBounds "ref.pivots[pivot_idx]"
  | Some pivot =>
      let last_pivot := Nat.eqb (pivot_idx + 1) (List.length (pivots ref)) in
      for_each (fun pivot_values entry =>
                  let new_value := extend_element current_value entry in
                  if last_pivot then Ok (pivot_values ++ [new_value])
                  else ConstructPivots ref pivot_values (pivot_idx + 1) new_value)
               (entries pivot) pivot_values
  end.
Proof.
  unfold ConstructPivots. generalize (pivots ref) as ps.
  induction pivot_idx as [|i IH]; intros ps.
  - destruct ps as [|p ps]; simpl; [reflexivity|].
    destruct ps; reflexivity.
  - destruct ps as [|p ps]; [reflexivity|].
    cbn [skipn nth_error List.length]. rewrite IH.
    destruct (nth_error ps i); reflexivity.
Qed.

(** The elements enumerated for a declaration with a pivot column. *)
Lemma ConstructPivots_elements (ref : PivotRef) :
  pivots ref <> [] ->
  ConstructPivots ref [] 0 empty_element
  = Ok (map element_of (combinations (map entries (pivots ref)))).
Proof.
  intros Hne. unfold ConstructPivots. cbn [skipn].
  rewrite ConstructPivots_from_eq by assumption. cbn [app]. f_equal.
  apply map_ext. intros combo. apply extend_from_empty.
Qed.

End Enumerator.

Lemma element_of_plain {VO : ValueOps} (combo : list PivotColumnEntry) :
  (forall entry, In entry combo ->
     leading_part_nonempty (map ToString (entry_values entry))) ->
  leading_part_nonempty (map level_name_spec combo) ->
  element_of combo = element_spec combo.
Proof.
  intros Hentries Hlevels. unfold element_of, element_spec. f_equal.
  assert (Hmap : map level_name combo = map level_name_spec combo).
  { apply map_ext_in. intros e He. unfold level_name, level_name_spec.
    destruct (empty (entry_alias e)); [|reflexivity].
    apply join_without_empty_prefix, Hentries, He. }
  rewrite Hmap. now apply join_without_empty_prefix.
Qed.

(** C1 (amended).  For a declaration with at least one pivot column,
    [ConstructPivots] returns one element per combination of entries, that
    is as many as the product of the entry counts, in depth-first order:
    pivot columns in declaration order, entries of a column in declared
    order.  An element holds the values of its entries in order.  Its name
    joins the level names with underscores, where a level name is the
    entry's alias or else the join of the printed values, and where in both
    joins empty parts at the front are dropped without a separator.  When no
    first part that is followed by another is empty, this is the plain
    underscore-join. *)
Theorem ConstructPivots_cross_product {VO : ValueOps} (ref : PivotRef) :
  pivots ref <> [] ->
  exists pivot_values,
    ConstructPivots ref [] 0 empty_element = Ok pivot_values /\
    pivot_values = map element_of (combinations (map entries (pivots ref))) /\
    List.length pivot_values =
      product (map (fun pivot => List.length (entries pivot)) (pivots ref)) /\
    (forall combo, In combo (combinations (map entries (pivots ref))) ->
       (forall entry, In entry combo ->
          leading_part_nonempty (map ToString (entry_values entry))) ->
       leading_part_nonempty (map level_name_spec combo) ->
       element_of combo = element_spec combo).
Proof.
  intros Hne. eexists. split; [|split; [reflexivity|split]].
  - now apply ConstructPivots_elements.
  - now rewrite length_map, combinations_length, map_map.
  - intros combo _. apply element_of_plain.
Qed.

Lemma ConstructPivots_cross_product_witness :
  exists pivot_values,
    ConstructPivots quarters_by_region [] 0 empty_element = Ok pivot_values /\
    pivot_values =
      map element_of (combinations (map entries (pivots quarters_by_region))) /\
    List.length pivot_values =
      product (map (fun pivot => List.length (entries pivot))
                   (pivots quarters_by_region)) /\
    (forall combo,
       In combo (combinations (map entries (pivots quarters_by_region))) ->
       (forall entry, In entry combo ->
          leading_part_nonempty (map ToString (entry_values entry))) ->
       leading_part_nonempty (map level_name_spec combo) ->
       element_of combo = element_spec combo).
Proof.
  apply (ConstructPivots_cross_product quarters_by_region). discriminate.
Defined.

Example quarters_by_region_names :
  option_map (map name)
    (match ConstructPivots quarters_by_region [] 0 empty_element with
     | Ok l => Some l | _ => None end)
  = Some ["Q1_north"; "Q1_B"; "Q2_north"; "Q2_B"].
Proof. reflexivity. Qed.

(** C1 as stated fails: with an empty first level the code names the
    element [b], the plain underscore-join is [_b]. *)
Lemma ConstructPivots_plain_join_counterexample :
  pivots empty_first_level <> [] /\
  Forall (fun pivot => entries pivot <> []) (pivots empty_first_level) /\
  ConstructPivots empty_first_level [] 0 empty_element
    = Ok [{| values := [Varchar ""; Varchar "b"]; name := "b" |}] /\
  map element_spec (combinations (map entries (pivots empty_first_level)))
    = [{| values := [Varchar ""; Varchar "b"]; name := "_b" |}] /\
  ConstructPivots empty_first_level [] 0 empty_element
    <> Ok (map element_spec
             (combinations (map entries (pivots empty_first_level)))).
Proof.
  split; [discriminate|]. split.
  - repeat constructor; discriminate.
  - repeat split; try reflexivity. vm_compute. discriminate.
Qed.

(** C9.  [ConstructPivots] subscripts [ref.pivots] unchecked: the call is
    out of bounds exactly when [pivot_idx] is not below the number of pivot
    columns.  [BindPivot] calls it at index 0 whenever validation passes, so
    a declaration with valid aggregates and no pivot column (whose total is
    1, below the limit) ends in that out-of-bounds access and not in an
    error of the binder. *)
Theorem BindPivot_needs_a_pivot_column {VO : ValueOps} {CAT : Catalog}
    (ref : PivotRef) :
  (forall pivot_values pivot_idx current_value,
     ConstructPivots ref pivot_values pivot_idx current_value
       = OutOfBounds "ref.pivots[pivot_idx]"
     <-> List.length (pivots ref) <= pivot_idx) /\
  (forall all_columns,
     pivots ref = [] ->
     is_ok (for_each check_aggregate (aggregates ref) []) = true ->
     BindPivot ref all_columns = OutOfBounds "ref.pivots[pivot_idx]").
Proof.
  split.
  - intros pv idx cur. unfold ConstructPivots. split.
    + intros H. destruct (Nat.le_gt_cases (List.length (pivots ref)) idx) as [|Hlt];
        [assumption|].
      rewrite ConstructPivots_from_eq in H; [discriminate|].
      intros Hnil. apply (f_equal (@List.length _)) in Hnil.
      rewrite length_skipn in Hnil. simpl in Hnil. lia.
    + intros Hle. now rewrite skipn_all2.
  - intros all_columns Hnil Hagg.
    unfold BindPivot, BindPivot_stage3, BindPivot_validate.
    destruct (for_each check_aggregate (aggregates ref) []) as [handled| |];
      try discriminate.
    rewrite Hnil. reflexivity.
Qed.

(** [PIVOT sales USING sum(amount)], without pivot column. *)
Lemma BindPivot_needs_a_pivot_column_witness :
  BindPivot (pivot_sales [] [sum_amount]) [make_colref "amount"]
    = OutOfBounds "ref.pivots[pivot_idx]".
Proof.
  apply (proj2 (BindPivot_needs_a_pivot_column (pivot_sales [] [sum_amount])));
    reflexivity.
Defined.

(* ================================================================== *)
(** * The limit on the number of pivot combinations *)

Lemma total_combinations_app {VO : ValueOps} (ps qs : list PivotColumn) :
  total_combinations (ps ++ qs) = (total_combinations ps * total_combinations qs)%Z.
Proof.
  unfold total_combinations. induction ps as [|p ps IH]; simpl.
  - now destruct (fold_right _ _ _).
  - rewrite IH. lia.
Qed.

(** The loop over the pivot columns keeps in [total_pivots] the number of
    combinations of the columns it has checked, modulo 2^64. *)
Lemma check_pivots_total {VO : ValueOps} {CAT : Catalog} (ps : list PivotColumn) :
  forall total handled checked total' handled' checked',
  for_each check_pivot ps (total, handled, checked) = Ok (total', handled', checked') ->
  exists added,
    checked' = checked ++ added /\
    total' = ((total * total_combinations added) mod 2 ^ 64)%Z \/
    (ps = [] /\ checked' = checked /\ total' = total /\ added = []).
Proof.
  induction ps as [|p ps IH]; intros total handled checked total' handled' checked' H.
  - simpl in H. injection H as <- <- <-. exists []. right. auto.
  - simpl in H. unfold check_pivot at 1 in H.
    destruct (expand_pivot_enum p) as [p'| |]; try discriminate. simpl in H.
    destruct (for_each _ (pivot_expressions p') handled) as [h1| |];
      try discriminate. simpl in H.
    destruct (for_each (check_entry p') (entries p') []) as [seen| |];
      try discriminate. simpl in H.
    apply IH in H. destruct H as [added [[Hc Ht] | [Hps [Hc [Ht Ha]]]]].
    + exists (p' :: added). left. split.
      * rewrite Hc, <- app_assoc. reflexivity.
      * rewrite Ht. unfold idx_mul.
        change (p' :: added) with ([p'] ++ added).
        rewrite total_combinations_app.
        rewrite Z.mul_mod_idemp_l by lia. f_equal.
        unfold total_combinations at 2. simpl. lia.
    + exists [p']. left. split; [now rewrite Hc|].
      rewrite Ht. unfold idx_mul, total_combinations. simpl. f_equal. lia.
Qed.

(** For a non-empty list of pivot columns, [BindPivot_validate] compares
    the limit with the number of combinations modulo 2^64. *)
Lemma BindPivot_validate_limit {VO : ValueOps} {CAT : Catalog} (ref : PivotRef)
    handled0 total handled checked :
  pivots ref <> [] ->
  for_each check_aggregate (aggregates ref) [] = Ok handled0 ->
  for_each check_pivot (pivots ref) (1%Z, handled0, []) = Ok (total, handled, checked) ->
  total = (total_combinations checked mod 2 ^ 64)%Z /\
  BindPivot_validate ref =
    if (PIVOT_EXPRESSION_LIMIT <=? total_combinations checked mod 2 ^ 64)%Z
    then Throw pivot_limit_error
    else Ok (set_pivots ref checked, handled).
Proof.
  intros Hne Hagg Hpiv.
  assert (Ht : total = (total_combinations checked mod 2 ^ 64)%Z).
  { destruct (check_pivots_total _ _ _ _ Hpiv)
      as [added [[Hc Ht] | [Hps _]]]; [|contradiction].
    simpl in Hc. subst checked. rewrite Ht. f_equal. lia. }
  split; [exact Ht|].
  unfold BindPivot_validate. rewrite Hagg. simpl. rewrite Hpiv. simpl.
  now rewrite Ht.
Qed.

(** 100 * 100 combinations are refused, 99 * 101 are let through. *)
Example limit_rejects_10000 :
  BindPivot_validate
    (pivot_sales [numbered_column "a" 100; numbered_column "b" 100] [sum_amount])
  = Throw pivot_limit_error.
Proof. vm_compute. reflexivity. Qed.

Example limit_passes_9999 :
  is_ok (BindPivot_validate
           (pivot_sales [numbered_column "a" 99; numbered_column "b" 101] [sum_amount]))
  = true.
Proof. vm_compute. reflexivity. Qed.

(** C2 (evaluation at the failing declaration).  With 64 pivot columns of
    two entries each the number of combinations is 2^64, far over the
    limit of 10000, but [total_pivots] has wrapped around to 0 and
    validation lets the declaration through to the enumeration. *)
Theorem pivot_limit_wraps_around :
  total_combinations (pivots sixty_four_columns) = (2 ^ 64)%Z /\
  (PIVOT_EXPRESSION_LIMIT <= total_combinations (pivots sixty_four_columns))%Z /\
  for_each check_pivot (pivots sixty_four_columns) (1%Z, ["amount"], [])
    = Ok (0%Z, ["amount"; "c"], pivots sixty_four_columns) /\
  BindPivot_validate sixty_four_columns = Ok (sixty_four_columns, ["amount"; "c"]).
Proof.
  repeat split; vm_compute; try reflexivity. discriminate.
Qed.

(* ================================================================== *)
(** * Duplicate entries of an IN list *)

Section Duplicates.
Context {VO : ValueOps}.

Lemma value_set_find_app (v : Value) (s t : value_set_t) :
  value_set_find v (s ++ t) = orb (value_set_find v s) (value_set_find v t).
Proof. unfold value_set_find. apply existsb_app. Qed.

Lemma clashes_cons (seen : value_set_t) (e : PivotColumnEntry)
    (es : list PivotColumnEntry) :
  value_set_find (entry_key e) seen = false ->
  (clashes seen (e :: es) <-> clashes (seen ++ [entry_key e]) es).
Proof.
  intros Hfresh. split.
  - intros [j [ej [Hj H]]]. destruct j as [|j].
    + simpl in Hj. injection Hj as <-. destruct H as [H | [i [ei [Hi _]]]].
      * congruence.
      * lia.
    + simpl in Hj. exists j, ej. split; [assumption|].
      destruct H as [H | [i [ei [Hi [Hei Heq]]]]].
      * left. rewrite value_set_find_app, H. reflexivity.
      * destruct i as [|i].
        -- simpl in Hei. injection Hei as <-. left.
           rewrite value_set_find_app. simpl. rewrite Heq.
           now rewrite orb_true_r.
        -- right. exists i, ei. simpl in Hei. repeat split; [lia|assumption..].
  - intros [j [ej [Hj H]]]. exists (S j), ej. split; [assumption|].
    destruct H as [H | [i [ei [Hi [Hei Heq]]]]].
    + rewrite value_set_find_app in H. apply orb_true_iff in H.
      destruct H as [H | H]; [now left|].
      right. exists 0, e. simpl in H. rewrite orb_false_r in H.
      repeat split; [lia | assumption].
    + right. exists (S i), ei. repeat split; [lia | assumption..].
Qed.

(** The loop over the entries of a pivot column whose entries all have
    the declared number of values. *)
Lemma check_entries_result (pivot : PivotColumn) (es : list PivotColumnEntry) :
  Forall (fun entry => List.length (entry_values entry)
                       = List.length (pivot_expressions pivot)) es ->
  forall seen,
  (clashes seen es ->
   for_each (check_entry pivot) es seen = Throw duplicate_value_error) /\
  (~ clashes seen es ->
   for_each (check_entry pivot) es seen = Ok (seen ++ map entry_key es)).
Proof.
  induction 1 as [|e es He Hes IH]; intros seen.
  - split.
    + intros [j [ej [Hj _]]]. destruct j; discriminate.
    + intros _. simpl. now rewrite app_nil_r.
  - cbn [for_each]. unfold check_entry at 1 3.
    destruct (value_set_find (entry_key e) seen) eqn:Hfind.
    + split; [reflexivity|]. intros Hno. exfalso. apply Hno.
      exists 0, e. split; [reflexivity | now left].
    + rewrite He, Nat.eqb_refl. cbn [negb bind].
      unfold value_set_insert. rewrite Hfind.
      destruct (IH (seen ++ [entry_key e])) as [IHc IHn]. split.
      * intros Hc. apply IHc. now apply clashes_cons.
      * intros Hn. rewrite IHn.
        -- now rewrite <- app_assoc.
        -- intros Hc. apply Hn. now apply clashes_cons.
Qed.

Lemma entry_key_same_tuple (a b : PivotColumnEntry) :
  (forall l1 l2, ValueEquality (Value_LIST l1) (Value_LIST l2) = same_tuple l1 l2) ->
  List.length (entry_values a) = List.length (entry_values b) ->
  ValueEquality (entry_key a) (entry_key b)
  = same_tuple (entry_values a) (entry_values b).
Proof.
  intros Hlist Hlen. unfold entry_key.
  destruct (entry_values a) as [|x [|x' l]], (entry_values b) as [|y [|y' k]];
    try discriminate; try apply Hlist.
  simpl. now rewrite andb_true_r.
Qed.

(** What the loop over the entries can end in. *)
Lemma check_entries_outcome (pivot : PivotColumn) (es : list PivotColumnEntry) :
  forall seen,
  match for_each (check_entry pivot) es seen with
  | Ok seen' => seen' = seen ++ map entry_key es
  | Throw e => e = duplicate_value_error \/ e = inconsistent_rows_error
  | OutOfBounds _ => False
  end.
Proof.
  induction es as [|e es IH]; intros seen.
  - simpl. now rewrite app_nil_r.
  - cbn [for_each]. unfold check_entry at 1.
    destruct (value_set_find (entry_key e) seen) eqn:Hfind; [now left|].
    destruct (negb _); [now right|]. cbn [bind].
    unfold value_set_insert. rewrite Hfind.
    specialize (IH (seen ++ [entry_key e])).
    destruct (for_each (check_entry pivot) es (seen ++ [entry_key e]));
      [|assumption..].
    rewrite IH, <- app_assoc. reflexivity.
Qed.

Lemma existsb_map {A B} (f : B -> bool) (g : A -> B) (l : list A) :
  existsb f (map g l) = existsb (fun x => f (g x)) l.
Proof. induction l as [|x l IH]; simpl; [reflexivity | now rewrite IH]. Qed.

(** The entry the loop stops at, after entries it has accepted. *)
Lemma check_entries_first_rejected (pivot : PivotColumn)
    (done rest : list PivotColumnEntry) (entry : PivotColumnEntry) :
  is_ok (for_each (check_entry pivot) done []) = true ->
  for_each (check_entry pivot) (done ++ entry :: rest) []
  = if existsb (fun earlier => ValueEquality (tuple_key entry) (tuple_key earlier)) done
    then Throw duplicate_value_error
    else if negb (Nat.eqb (List.length (entry_values entry))
                          (List.length (pivot_expressions pivot)))
    then Throw inconsistent_rows_error
    else for_each (check_entry pivot) rest (map tuple_key (done ++ [entry])).
Proof.
  intros Hdone. rewrite for_each_app.
  pose proof (check_entries_outcome pivot done []) as Hout.
  destruct (for_each (check_entry pivot) done []) as [seen| |]; try discriminate.
  change ([] ++ map entry_key done) with (map entry_key done) in Hout.
  subst seen. cbn [bind for_each].
  unfold check_entry at 1. unfold value_set_find at 1. rewrite existsb_map.
  change (fun x => ValueEquality (entry_key entry) (entry_key x))
    with (fun earlier => ValueEquality (tuple_key entry) (tuple_key earlier)).
  destruct (existsb _ done) eqn:Hrepeats; [reflexivity|].
  destruct (negb _); [reflexivity|]. cbn [bind].
  unfold value_set_insert, value_set_find. rewrite existsb_map.
  change (fun x => ValueEquality (entry_key entry) (entry_key x))
    with (fun earlier => ValueEquality (tuple_key entry) (tuple_key earlier)).
  rewrite Hrepeats, map_app. reflexivity.
Qed.

End Duplicates.

(** C5 (amended).  In a pivot column whose entries all have as many values
    as the column has pivot expressions, the check of the IN list ends in
    the duplicate-value error when some entry is, position by position, the
    same tuple as an entry before it; when no two entries are the same tuple
    the check raises nothing and every entry is accepted.  In any IN list,
    the first entry that is not accepted decides the error: the
    duplicate-value error when its key (its single value, or else the list
    of its values) is the key of an entry before it, and otherwise, when it
    has another number of values than the column has pivot expressions, the
    inconsistent-rows error.  Lists of values are taken to be equal exactly
    when they are equal position by position. *)
Theorem duplicate_tuples_rejected {VO : ValueOps} (pivot : PivotColumn) :
  (forall l1 l2, ValueEquality (Value_LIST l1) (Value_LIST l2) = same_tuple l1 l2) ->
  (Forall (fun entry => List.length (entry_values entry)
                        = List.length (pivot_expressions pivot)) (entries pivot) ->
   ((exists i j ei ej,
       i < j /\ nth_error (entries pivot) i = Some ei /\
       nth_error (entries pivot) j = Some ej /\
       same_tuple (entry_values ej) (entry_values ei) = true) ->
    for_each (check_entry pivot) (entries pivot) [] = Throw duplicate_value_error) /\
   ((forall i j ei ej,
       i < j -> nth_error (entries pivot) i = Some ei ->
       nth_error (entries pivot) j = Some ej ->
       same_tuple (entry_values ej) (entry_values ei) = false) ->
    for_each (check_entry pivot) (entries pivot) []
    = Ok (map entry_key (entries pivot)))) /\
  (forall done entry rest,
     entries pivot = done ++ entry :: rest ->
     is_ok (for_each (check_entry pivot) done []) = true ->
     (existsb (fun earlier => ValueEquality (tuple_key entry) (tuple_key earlier)) done
      = true ->
      for_each (check_entry pivot) (entries pivot) [] = Throw duplicate_value_error) /\
     (existsb (fun earlier => ValueEquality (tuple_key entry) (tuple_key earlier)) done
      = false ->
      List.length (entry_values entry) <> List.length (pivot_expressions pivot) ->
      for_each (check_entry pivot) (entries pivot) [] = Throw inconsistent_rows_error)).
Proof.
  intros Hlist. split.
  - intros Harity.
    assert (Hlen : forall i ei, nth_error (entries pivot) i = Some ei ->
              List.length (entry_values ei) = List.length (pivot_expressions pivot)).
    { intros i ei Hi. rewrite Forall_forall in Harity.
      apply Harity. eapply nth_error_In, Hi. }
    destruct (check_entries_result pivot Harity []) as [Hc Hn]. split.
    + intros [i [j [ei [ej [Hij [Hi [Hj Hsame]]]]]]]. apply Hc.
      exists j, ej. split; [assumption|]. right. exists i, ei.
      repeat split; try assumption.
      rewrite entry_key_same_tuple; try assumption.
      now rewrite (Hlen _ _ Hi), (Hlen _ _ Hj).
    + intros Hdiff. apply Hn. intros [j [ej [Hj [H | [i [ei [Hij [Hi Heq]]]]]]]].
      * discriminate.
      * rewrite entry_key_same_tuple in Heq; try assumption.
        -- rewrite (Hdiff _ _ _ _ Hij Hi Hj) in Heq. discriminate.
        -- now rewrite (Hlen _ _ Hi), (Hlen _ _ Hj).
  - intros done entry rest Hentries Hdone.
    rewrite Hentries, (check_entries_first_rejected pivot done rest entry Hdone).
    split.
    + now intros ->.
    + intros -> Hsize. now rewrite (proj2 (Nat.eqb_neq _ _) Hsize).
Qed.

Lemma sql_list_equality (l1 l2 : list SqlValue) :
  ValueEquality (Value_LIST l1) (Value_LIST l2) = same_tuple l1 l2.
Proof.
  reflexivity.
Qed.

Lemma duplicate_tuples_rejected_witness :
  for_each (check_entry quarter_twice) (entries quarter_twice) []
  = Throw duplicate_value_error.
Proof.
  apply (proj1 (duplicate_tuples_rejected quarter_twice sql_list_equality)).
  - repeat constructor.
  - exists 0, 2, (in_entry [Varchar "Q1"] ""), (in_entry [Varchar "Q1"] "").
    repeat split. lia.
Defined.

(** C5 as stated fails.  Two identical tuples that do not have the declared
    number of values end in the inconsistent-rows error, raised at the
    first of them, and not in the duplicate-value error.  And two entries
    whose tuples differ, a list constant and a pair of the same values, end
    in the duplicate-value error. *)
Lemma duplicate_error_counterexample :
  ((exists i j ei ej,
      i < j /\ nth_error (entries pair_twice) i = Some ei /\
      nth_error (entries pair_twice) j = Some ej /\
      same_tuple (entry_values ej) (entry_values ei) = true) /\
   for_each (check_entry pair_twice) (entries pair_twice) []
     = Throw inconsistent_rows_error /\
   BindPivot (pivot_sales [pair_twice] [sum_amount]) [make_colref "amount"]
     = Throw inconsistent_rows_error /\
   for_each (check_entry pair_twice) (entries pair_twice) []
     <> Throw duplicate_value_error) /\
  ((forall i j ei ej,
      i < j -> nth_error (entries list_and_pair) i = Some ei ->
      nth_error (entries list_and_pair) j = Some ej ->
      same_tuple (entry_values ej) (entry_values ei) = false) /\
   for_each (check_entry list_and_pair) (entries list_and_pair) []
     = Throw duplicate_value_error).
Proof.
  split.
  - split; [|repeat split; try reflexivity; discriminate].
    exists 0, 1, (in_entry [Varchar "a"; Varchar "b"] ""),
           (in_entry [Varchar "a"; Varchar "b"] "").
    repeat split. lia.
  - split; [|reflexivity].
    intros [|[|i]] [|[|[|j]]] ei ej Hij Hi Hj; try lia;
      cbn in Hi, Hj; try discriminate.
    injection Hi as <-. injection Hj as <-. reflexivity.
Qed.

(* ================================================================== *)
(** * The names and columns the stages build *)

(** Peel the first call off a chain of calls that is known to return. *)
Ltac first_call H :=
  match type of H with
  | bind ?c _ = _ =>
      let E := fresh "Hcall" in
      destruct c eqn:E; cbn [bind] in H; try discriminate H
  end.

(** Read the fields of a bind state or of a tree after a [push]. *)
Ltac read_fields :=
  unfold push_internal_group_name, push_group_name, push_aggregate_name,
    push_internal_aggregate_name, push_internal_pivot_name,
    push_internal_map_name, push_grouped, push_select, push_group,
    set_from_table, new_SelectNode, new_PivotBindState in *;
  cbn [internal_group_names group_names aggregate_names
       internal_aggregate_names internal_pivot_names internal_map_names
       select_list from_table where_clause group_expressions fst snd] in *.

Lemma internal_names_app (prefix : string) (first n m : nat) :
  internal_names prefix first (n + m)
  = internal_names prefix first n ++ internal_names prefix (first + n) m.
Proof. unfold internal_names. now rewrite seq_app, map_app. Qed.

Lemma internal_names_length (prefix : string) (first n : nat) :
  List.length (internal_names prefix first n) = n.
Proof. unfold internal_names. now rewrite length_map, length_seq. Qed.

Section Stages.
Context {VO : ValueOps}.

Lemma pivot_expression_count_cons (pivot : PivotColumn) (ps : list PivotColumn) :
  pivot_expression_count (pivot :: ps)
  = List.length (pivot_expressions pivot) + pivot_expression_count ps.
Proof. reflexivity. Qed.

(** *** Stage 3 *)

Lemma stage3_maps_loop (count : nat) :
  forall first bind_state n bind_state' n',
  for_each stage3_map (seq first count) (bind_state, n) = Ok (bind_state', n') ->
  internal_group_names bind_state' = internal_group_names bind_state /\
  group_names bind_state' = group_names bind_state /\
  aggregate_names bind_state' = aggregate_names bind_state /\
  internal_aggregate_names bind_state' = internal_aggregate_names bind_state /\
  internal_pivot_names bind_state' = internal_pivot_names bind_state /\
  internal_map_names bind_state'
    = internal_map_names bind_state ++ internal_names "__internal_pivot_map" (first + 1) count /\
  List.length (select_list n') = List.length (select_list n) + count.
Proof.
  induction count as [|count IH]; intros first bs n bs' n' H.
  - simpl in H. injection H as <- <-. unfold internal_names. simpl.
    rewrite app_nil_r. repeat split; lia.
  - cbn [seq for_each] in H. first_call H. destruct a as [bs1 n1].
    unfold stage3_map in Hcall. first_call Hcall. first_call Hcall.
    injection Hcall as <- <-.
    apply IH in H. read_fields.
    destruct H as (Hg & Hgn & Han & Hia & Hip & Him & Hlen).
    repeat split; try assumption.
    + rewrite Him, <- app_assoc. reflexivity.
    + rewrite Hlen, length_app. simpl. lia.
Qed.

(** Stage 3 builds one map per internal pivot-list name, that is per
    pivot expression, whatever the number of aggregates. *)
Lemma PivotStageThree_maps (bind_state : PivotBindState) (ref : PivotRef)
    (subquery_stage2 : SelectNode) bind_state' subquery_stage3 :
  PivotStageThree bind_state ref subquery_stage2 = Ok (bind_state', subquery_stage3) ->
  internal_group_names bind_state' = internal_group_names bind_state /\
  group_names bind_state' = group_names bind_state /\
  internal_aggregate_names bind_state' = internal_aggregate_names bind_state /\
  internal_pivot_names bind_state' = internal_pivot_names bind_state /\
  internal_map_names bind_state'
    = internal_map_names bind_state
      ++ internal_names "__internal_pivot_map" 1 (List.length (internal_pivot_names bind_state)).
Proof.
  unfold PivotStageThree. intros H. first_call H. destruct a as [bs1 n1].
  injection H as <- _. apply stage3_maps_loop in Hcall.
  destruct Hcall as (Hg & Hgn & Han & Hia & Hip & Him & Hlen).
  repeat split; assumption.
Qed.

(** *** Stage 1 *)

Lemma synthesized_aliases_app (b1 a1 b2 a2 : list ParsedExpression) :
  List.length b1 = List.length a1 ->
  synthesized_aliases (b1 ++ b2) (a1 ++ a2)
  = synthesized_aliases b1 a1 ++ synthesized_aliases b2 a2.
Proof.
  intros Hlen. unfold synthesized_aliases.
  now rewrite combine_append, filter_app, map_app by assumption.
Qed.

Lemma internal_names_cons (prefix : string) (first count last : nat) :
  first <= last ->
  internal_name prefix first :: internal_names prefix (S first) (last - first)
  = internal_names prefix first (S last - first).
Proof.
  intros Hle. replace (S last - first) with (S (last - first)) by lia. reflexivity.
Qed.

Lemma expr_alias_set_alias (e : ParsedExpression) (a : string) :
  expr_alias (set_alias e a) = a.
Proof. now destruct e. Qed.

(** The loop that names the grouping columns. *)
Lemma stage1_name_groups (l : list ParsedExpression) :
  forall group_count renamed bind_state group_count' renamed' bind_state',
  fold_left stage1_name_group l (group_count, renamed, bind_state)
    = (group_count', renamed', bind_state') ->
  exists new,
    renamed' = renamed ++ new /\
    List.length new = List.length l /\
    group_count <= group_count' /\
    synthesized_aliases l new
      = internal_names "__internal_pivot_group" (S group_count)
                       (group_count' - group_count) /\
    internal_group_names bind_state'
      = internal_group_names bind_state ++ map expr_alias new /\
    group_names bind_state' = group_names bind_state ++ map GetName l /\
    aggregate_names bind_state' = aggregate_names bind_state /\
    internal_aggregate_names bind_state' = internal_aggregate_names bind_state /\
    internal_pivot_names bind_state' = internal_pivot_names bind_state /\
    internal_map_names bind_state' = internal_map_names bind_state.
Proof.
  induction l as [|e l IH]; intros gc renamed bs gc' renamed' bs' H.
  - simpl in H. injection H as <- <- <-. exists [].
    rewrite !app_nil_r, Nat.sub_diag. repeat split; auto.
  - cbn [fold_left] in H. unfold stage1_name_group at 2 in H.
    destruct (empty (expr_alias e)) eqn:Halias.
    + apply IH in H.
      destruct H as (new & Hr & Hlen & Hle & Hsyn & Hig & Hgn & Han & Hia & Hip & Him).
      read_fields. rewrite expr_alias_set_alias in Hig.
      exists (set_alias e (internal_name "__internal_pivot_group" (S gc)) :: new).
      repeat split; try assumption.
      * now rewrite Hr, <- app_assoc.
      * simpl. now rewrite Hlen.
      * lia.
      * unfold synthesized_aliases. cbn [combine filter fst].
        rewrite Halias. cbn [map snd]. rewrite expr_alias_set_alias.
        fold (synthesized_aliases l new). rewrite Hsyn.
        replace (gc' - gc) with (S (gc' - S gc)) by lia. reflexivity.
      * rewrite Hig, <- app_assoc. cbn [map app].
        now rewrite expr_alias_set_alias.
      * now rewrite Hgn, <- app_assoc.
    + apply IH in H.
      destruct H as (new & Hr & Hlen & Hle & Hsyn & Hig & Hgn & Han & Hia & Hip & Him).
      read_fields. exists (e :: new).
      repeat split; try assumption.
      * now rewrite Hr, <- app_assoc.
      * simpl. now rewrite Hlen.
      * unfold synthesized_aliases. cbn [combine filter fst].
        rewrite Halias. exact Hsyn.
      * now rewrite Hig, <- app_assoc.
      * now rewrite Hgn, <- app_assoc.
Qed.

(** The loop over the pivot expressions of one column. *)
Lemma stage1_pivot_exprs (exprs : list ParsedExpression) :
  forall pivot_count n pivot_count' n' exprs',
  map_accum stage1_pivot_expr exprs (pivot_count, n) = ((pivot_count', n'), exprs') ->
  exists new,
    select_list n' = select_list n ++ new /\
    List.length new = List.length exprs /\
    List.length exprs' = List.length exprs /\
    pivot_count <= pivot_count' /\
    synthesized_aliases exprs new
      = internal_names "__internal_pivot_ref" (S pivot_count)
                       (pivot_count' - pivot_count).
Proof.
  induction exprs as [|e exprs IH]; intros pc n pc' n' exprs' H.
  - simpl in H. injection H as <- <- <-. exists [].
    rewrite app_nil_r, Nat.sub_diag. repeat split; auto.
  - cbn [map_accum] in H. unfold stage1_pivot_expr at 1 in H.
    destruct (empty (expr_alias e)) eqn:Halias;
      match type of H with
      | context [map_accum stage1_pivot_expr exprs ?st] =>
          destruct (map_accum stage1_pivot_expr exprs st) as [[pc1 n1] rest] eqn:E
      end;
      injection H as <- <- <-; apply IH in E;
      destruct E as (new & Hsel & Hlen & Hlen' & Hle & Hsyn); read_fields.
    + exists (set_alias e (internal_name "__internal_pivot_ref" (S pc)) :: new).
      repeat split.
      * now rewrite Hsel, <- app_assoc.
      * simpl. now rewrite Hlen.
      * simpl. now rewrite Hlen'.
      * lia.
      * unfold synthesized_aliases. cbn [combine filter fst].
        rewrite Halias. cbn [map snd]. rewrite expr_alias_set_alias.
        fold (synthesized_aliases exprs new). rewrite Hsyn.
        replace (pc1 - pc) with (S (pc1 - S pc)) by lia. reflexivity.
    + exists (e :: new). repeat split.
      * now rewrite Hsel, <- app_assoc.
      * simpl. now rewrite Hlen.
      * simpl. now rewrite Hlen'.
      * assumption.
      * unfold synthesized_aliases. cbn [combine filter fst].
        rewrite Halias. exact Hsyn.
Qed.

Lemma all_pivot_expressions_length (ps : list PivotColumn) :
  List.length (all_pivot_expressions ps) = pivot_expression_count ps.
Proof.
  unfold all_pivot_expressions, pivot_expression_count.
  induction ps as [|p ps IH]; simpl; [reflexivity|].
  now rewrite length_app, IH.
Qed.

(** The loop over the pivot columns. *)
Lemma stage1_pivot_columns (ps : list PivotColumn) :
  forall pivot_count n pivot_count' n' ps',
  map_accum stage1_pivot_column ps (pivot_count, n) = ((pivot_count', n'), ps') ->
  exists new,
    select_list n' = select_list n ++ new /\
    List.length new = pivot_expression_count ps /\
    pivot_expression_count ps' = pivot_expression_count ps /\
    map entries ps' = map entries ps /\
    pivot_count <= pivot_count' /\
    synthesized_aliases (all_pivot_expressions ps) new
      = internal_names "__internal_pivot_ref" (S pivot_count)
                       (pivot_count' - pivot_count).
Proof.
  induction ps as [|p ps IH]; intros pc n pc' n' ps' H.
  - simpl in H. injection H as <- <- <-. exists [].
    rewrite app_nil_r, Nat.sub_diag. repeat split; auto.
  - cbn [map_accum] in H. unfold stage1_pivot_column at 1 in H.
    destruct (map_accum stage1_pivot_expr (pivot_expressions p) (pc, n))
      as [[pc1 n1] exprs'] eqn:E1.
    destruct (map_accum stage1_pivot_column ps (pc1, n1)) as [[pc2 n2] rest] eqn:E2.
    injection H as <- <- <-.
    apply stage1_pivot_exprs in E1.
    destruct E1 as (new1 & Hsel1 & Hlen1 & Hlen1' & Hle1 & Hsyn1).
    apply IH in E2.
    destruct E2 as (new2 & Hsel2 & Hlen2 & Hcount & Hentries & Hle2 & Hsyn2).
    exists (new1 ++ new2). repeat split.
    + now rewrite Hsel2, Hsel1, <- app_assoc.
    + now rewrite length_app, Hlen1, Hlen2, pivot_expression_count_cons.
    + rewrite !pivot_expression_count_cons, Hcount.
      unfold set_pivot_expressions. cbn [pivot_expressions].
      now rewrite Hlen1'.
    + cbn [map]. now rewrite Hentries.
    + lia.
    + unfold all_pivot_expressions. cbn [map List.concat].
      rewrite synthesized_aliases_app by (now rewrite Hlen1).
      fold (all_pivot_expressions ps). rewrite Hsyn1, Hsyn2.
      replace (pc2 - pc) with ((pc1 - pc) + (pc2 - pc1)) by lia.
      rewrite internal_names_app. do 2 f_equal. lia.
Qed.

(** The loop over the aggregates. *)
Lemma stage1_aggregates (aggrs : list ParsedExpression) :
  forall aggregate_count bind_state n aggregate_count' bind_state' n',
  fold_left stage1_aggregate aggrs (aggregate_count, bind_state, n)
    = (aggregate_count', bind_state', n') ->
  internal_group_names bind_state' = internal_group_names bind_state /\
  group_names bind_state' = group_names bind_state /\
  internal_aggregate_names bind_state'
    = internal_aggregate_names bind_state
      ++ internal_names "__internal_pivot_aggregate" (S aggregate_count)
                        (List.length aggrs) /\
  internal_pivot_names bind_state' = internal_pivot_names bind_state /\
  internal_map_names bind_state' = internal_map_names bind_state /\
  exists new,
    select_list n' = select_list n ++ new /\ List.length new = List.length aggrs.
Proof.
  induction aggrs as [|a aggrs IH]; intros c bs n c' bs' n' H.
  - simpl in H. injection H as <- <- <-. unfold internal_names. simpl.
    rewrite app_nil_r. repeat split; auto. exists []. now rewrite app_nil_r.
  - cbn [fold_left] in H. unfold stage1_aggregate at 2 in H.
    apply IH in H. read_fields.
    destruct H as (Hig & Hgn & Hia & Hip & Him & new & Hsel & Hlen).
    repeat split; try assumption.
    + rewrite Hia, <- app_assoc. reflexivity.
    + eexists. split; [rewrite Hsel, <- app_assoc; reflexivity|].
      simpl. now rewrite Hlen.
Qed.

Lemma PivotStageOne_names (ref : PivotRef) (all_columns : list ParsedExpression)
    (handled_columns : case_insensitive_set_t) bind_state ref' subquery_stage1 :
  PivotStageOne new_PivotBindState ref all_columns handled_columns
    = Ok (bind_state, ref', subquery_stage1) ->
  exists groups0 group_columns pivot_columns aggregate_columns group_count pivot_count,
    stage1_groups ref all_columns handled_columns = Ok groups0 /\
    select_list subquery_stage1 = group_columns ++ pivot_columns ++ aggregate_columns /\
    List.length group_columns = List.length (select_list groups0) /\
    List.length pivot_columns = pivot_expression_count (pivots ref) /\
    List.length aggregate_columns = List.length (aggregates ref) /\
    internal_group_names bind_state = map expr_alias group_columns /\
    group_names bind_state = map GetName (select_list groups0) /\
    internal_aggregate_names bind_state
      = internal_names "__internal_pivot_aggregate" 1 (List.length (aggregates ref)) /\
    internal_pivot_names bind_state = [] /\
    internal_map_names bind_state = [] /\
    synthesized_aliases (select_list groups0) group_columns
      = internal_names "__internal_pivot_group" 1 group_count /\
    synthesized_aliases (all_pivot_expressions (pivots ref)) pivot_columns
      = internal_names "__internal_pivot_ref" 1 pivot_count /\
    pivot_expression_count (pivots ref') = pivot_expression_count (pivots ref) /\
    map entries (pivots ref') = map entries (pivots ref).
Proof.
  unfold PivotStageOne. intros H. first_call H. rename a into groups0.
  destruct (fold_left stage1_name_group (select_list groups0)
              (0, [], new_PivotBindState)) as [[gc renamed] bs1] eqn:E1.
  match type of H with
  | context [map_accum stage1_pivot_column (pivots ref) ?st] =>
      destruct (map_accum stage1_pivot_column (pivots ref) st)
        as [[pc n1] new_pivots] eqn:E2
  end.
  destruct (fold_left stage1_aggregate (aggregates ref) (0, bs1, n1))
    as [[ac bs2] n2] eqn:E3.
  injection H as <- <- <-.
  apply stage1_name_groups in E1.
  destruct E1 as (new & Hr & Hlen & _ & Hsyn & Hig & Hgn & _ & Hia & Hip & Him).
  apply stage1_pivot_columns in E2.
  destruct E2 as (newp & Hselp & Hlenp & Hcount & Hentries & _ & Hsynp).
  apply stage1_aggregates in E3.
  destruct E3 as (Hig3 & Hgn3 & Hia3 & Hip3 & Him3 & newa & Hsela & Hlena).
  read_fields. simpl in Hr. subst renamed.
  exists groups0, new, newp, newa, (gc - 0), (pc - 0).
  repeat split; try assumption.
  - now rewrite Hsela, Hselp, <- app_assoc.
  - now rewrite Hig3, Hig.
  - now rewrite Hgn3, Hgn.
  - now rewrite Hia3, Hia.
  - now rewrite Hip3, Hip.
  - now rewrite Him3, Him.
Qed.

(** *** Stage 2 *)

Lemma stage2_pivot_exprs (exprs : list ParsedExpression) :
  forall pivot_count bind_state n pivot_count' bind_state' n',
  fold_left stage2_pivot_expr exprs (pivot_count, bind_state, n)
    = (pivot_count', bind_state', n') ->
  pivot_count' = pivot_count + List.length exprs /\
  internal_group_names bind_state' = internal_group_names bind_state /\
  group_names bind_state' = group_names bind_state /\
  internal_aggregate_names bind_state' = internal_aggregate_names bind_state /\
  internal_map_names bind_state' = internal_map_names bind_state /\
  internal_pivot_names bind_state'
    = internal_pivot_names bind_state
      ++ internal_names "__internal_pivot_name" (S pivot_count) (List.length exprs).
Proof.
  induction exprs as [|e exprs IH]; intros c bs n c' bs' n' H.
  - simpl in H. injection H as <- <- <-. unfold internal_names. simpl.
    rewrite app_nil_r. repeat split; auto.
  - cbn [fold_left] in H. unfold stage2_pivot_expr at 2 in H.
    apply IH in H. read_fields.
    destruct H as (Hc & Hig & Hgn & Hia & Him & Hip).
    repeat split; try assumption.
    + simpl. lia.
    + rewrite Hip, <- app_assoc. reflexivity.
Qed.

Lemma stage2_pivot_columns (ps : list PivotColumn) :
  forall pivot_count bind_state n pivot_count' bind_state' n',
  fold_left (fun st pivot => fold_left stage2_pivot_expr (pivot_expressions pivot) st)
            ps (pivot_count, bind_state, n)
    = (pivot_count', bind_state', n') ->
  pivot_count' = pivot_count + pivot_expression_count ps /\
  internal_group_names bind_state' = internal_group_names bind_state /\
  group_names bind_state' = group_names bind_state /\
  internal_aggregate_names bind_state' = internal_aggregate_names bind_state /\
  internal_map_names bind_state' = internal_map_names bind_state /\
  internal_pivot_names bind_state'
    = internal_pivot_names bind_state
      ++ internal_names "__internal_pivot_name" (S pivot_count)
                        (pivot_expression_count ps).
Proof.
  induction ps as [|p ps IH]; intros c bs n c' bs' n' H.
  - simpl in H. injection H as <- <- <-. unfold internal_names. simpl.
    rewrite app_nil_r. repeat split; auto.
  - cbn [fold_left] in H.
    destruct (fold_left stage2_pivot_expr (pivot_expressions p) (c, bs, n))
      as [[c1 bs1] n1] eqn:E.
    apply stage2_pivot_exprs in E.
    destruct E as (Hc1 & Hig1 & Hgn1 & Hia1 & Him1 & Hip1).
    apply IH in H. destruct H as (Hc & Hig & Hgn & Hia & Him & Hip).
    rewrite pivot_expression_count_cons.
    repeat split; try congruence.
    + lia.
    + rewrite Hip, Hip1, <- app_assoc, internal_names_app. subst c1.
      reflexivity.
Qed.

Lemma PivotStageTwo_names (bind_state : PivotBindState) (ref : PivotRef)
    (subquery_stage1 : SelectNode) bind_state' subquery_stage2 :
  PivotStageTwo bind_state ref subquery_stage1 = (bind_state', subquery_stage2) ->
  internal_group_names bind_state' = internal_group_names bind_state /\
  group_names bind_state' = group_names bind_state /\
  internal_aggregate_names bind_state' = internal_aggregate_names bind_state /\
  internal_map_names bind_state' = internal_map_names bind_state /\
  internal_pivot_names bind_state'
    = internal_pivot_names bind_state
      ++ internal_names "__internal_pivot_name" 1 (pivot_expression_count (pivots ref)).
Proof.
  unfold PivotStageTwo. intros H.
  match type of H with
  | context [fold_left ?f (pivots ref) ?st] =>
      destruct (fold_left f (pivots ref) st) as [[c bs1] n1] eqn:E
  end.
  injection H as <- _. apply stage2_pivot_columns in E.
  destruct E as (_ & Hig & Hgn & Hia & Him & Hip). repeat split; assumption.
Qed.

(** *** Validation and the size of the enumerated elements *)

Lemma check_entries_consistent (pivot : PivotColumn) (es : list PivotColumnEntry) :
  forall seen seen',
  for_each (check_entry pivot) es seen = Ok seen' ->
  Forall (fun entry => List.length (entry_values entry)
                       = List.length (pivot_expressions pivot)) es.
Proof.
  induction es as [|e es IH]; intros seen seen' H; [constructor|].
  cbn [for_each] in H. first_call H. unfold check_entry in Hcall.
  destruct (value_set_find _ _); [discriminate|].
  destruct (Nat.eqb _ _) eqn:Harity; [|discriminate].
  constructor; [now apply Nat.eqb_eq | eapply IH, H].
Qed.

End Stages.

Lemma check_pivots_consistent {VO : ValueOps} {CAT : Catalog} (ps : list PivotColumn) :
  forall total handled checked total' handled' checked',
  for_each check_pivot ps (total, handled, checked) = Ok (total', handled', checked') ->
  Forall consistent_rows checked ->
  Forall consistent_rows checked'.
Proof.
  induction ps as [|p ps IH]; intros total handled checked total' handled' checked' H Hc.
  - simpl in H. now injection H as <- <- <-.
  - cbn [for_each] in H. first_call H. destruct a as [[t1 h1] c1].
    unfold check_pivot in Hcall. first_call Hcall. first_call Hcall.
    first_call Hcall. injection Hcall as <- <- <-.
    eapply IH; [exact H|]. apply Forall_app. split; [assumption|].
    constructor; [|constructor]. eapply check_entries_consistent; eassumption.
Qed.

Lemma BindPivot_validate_consistent {VO : ValueOps} {CAT : Catalog}
    (ref ref' : PivotRef) handled :
  BindPivot_validate ref = Ok (ref', handled) ->
  Forall consistent_rows (pivots ref').
Proof.
  unfold BindPivot_validate. intros H. first_call H. first_call H.
  destruct a0 as [[total h] checked].
  destruct (PIVOT_EXPRESSION_LIMIT <=? total)%Z; [discriminate|].
  injection H as <- _. simpl.
  eapply check_pivots_consistent; [eassumption | constructor].
Qed.

Section Stages2.
Context {VO : ValueOps}.

(** Every combination of consistent columns holds one value per pivot
    expression of the declaration. *)
Lemma combination_values_length (ps : list PivotColumn) :
  Forall consistent_rows ps ->
  forall combo, In combo (combinations (map entries ps)) ->
  List.length (List.concat (map entry_values combo)) = pivot_expression_count ps.
Proof.
  induction 1 as [|p ps Hp Hps IH]; intros combo Hin.
  - simpl in Hin. destruct Hin as [<- | []]. reflexivity.
  - cbn [map combinations] in Hin. apply in_flat_map in Hin.
    destruct Hin as (e & He & Hin). apply in_map_iff in Hin.
    destruct Hin as (rest & <- & Hrest).
    cbn [map List.concat]. rewrite length_app, (IH _ Hrest).
    rewrite pivot_expression_count_cons. f_equal.
    unfold consistent_rows in Hp. rewrite Forall_forall in Hp. now apply Hp.
Qed.

End Stages2.

(** C4 (evaluation at the failing declarations).  A declaration with one
    pivot expression and two aggregates passes validation; stage 3 then
    builds a single map, over the first aggregate, and the condition of its
    own assertion is false.  With two pivot expressions and one aggregate
    the loop of stage 3 subscripts the aggregate names out of bounds. *)
Theorem stage3_one_map_per_pivot_expression :
  (exists bind_state ref subquery_stage3 pivot_values,
     BindPivot_stage3 two_aggregates sales_columns
       = Ok (bind_state, ref, subquery_stage3, pivot_values) /\
     List.length (aggregates two_aggregates) = 2 /\
     internal_aggregate_names bind_state
       = ["__internal_pivot_aggregate1"; "__internal_pivot_aggregate2"] /\
     internal_pivot_names bind_state = ["__internal_pivot_name1"] /\
     internal_map_names bind_state = ["__internal_pivot_map1"] /\
     stage3_assertion bind_state = false /\
     select_list subquery_stage3
       = [ColumnRefExpression ["__internal_pivot_group1"] "__internal_pivot_group1";
          FunctionExpression "map"
            [make_colref "__internal_pivot_name1";
             make_colref "__internal_pivot_aggregate1"]
            "__internal_pivot_map1"]) /\
  BindPivot_stage3 two_pivot_expressions sales_columns
    = OutOfBounds "bind_state.internal_aggregate_names[i]".
Proof.
  split; [|reflexivity].
  do 4 eexists. split; [reflexivity|]. repeat split.
Qed.

(* ================================================================== *)
(** * Stage 4: the extracted columns *)

Section StageFour.
Context {VO : ValueOps}.

Lemma subscript_middle {A} (what : string) (done rest : list A) (x : A) (i : nat) :
  i = List.length done ->
  subscript what (done ++ x :: rest) i = Ok x.
Proof.
  intros ->. unfold subscript. rewrite nth_error_app2 by lia.
  now rewrite Nat.sub_diag.
Qed.

Lemma stage4_groups_loop (bind_state : PivotBindState) (rest : list string) :
  forall done names_done names_rest n,
  internal_group_names bind_state = done ++ rest ->
  group_names bind_state = names_done ++ names_rest ->
  List.length names_done = List.length done ->
  List.length names_rest = List.length rest ->
  for_each (stage4_group bind_state) (seq (List.length done) (List.length rest)) n
  = Ok (mkSelectNode
          (select_list n
           ++ map (fun names => group_reference (fst names) (snd names))
                  (combine rest names_rest))
          (from_table n) (where_clause n) (group_expressions n)).
Proof.
  induction rest as [|g rest IH]; intros done nd nr n Hi Hn Hld Hlr.
  - simpl. rewrite app_nil_r. now destruct n.
  - destruct nr as [|gn nr]; [discriminate|].
    cbn [List.length seq for_each]. unfold stage4_group at 1.
    rewrite Hi, subscript_middle by reflexivity. cbn [bind].
    rewrite Hn, subscript_middle by (now symmetry). cbn [bind].
    replace (S (List.length done)) with (List.length (done ++ [g]))
      by (rewrite length_app; simpl; lia).
    rewrite (IH (done ++ [g]) (nd ++ [gn]) nr).
    + read_fields. cbn [combine map]. now rewrite <- app_assoc.
    + now rewrite Hi, <- app_assoc.
    + now rewrite Hn, <- app_assoc.
    + rewrite !length_app. simpl. lia.
    + simpl in Hlr. lia.
Qed.

Lemma stage4_pivot_values_loop (bind_state : PivotBindState)
    (pivot_values : list PivotValueElement) :
  (forall pv, In pv pivot_values ->
     List.length (values pv) = List.length (internal_map_names bind_state)) ->
  forall n,
  (Forall (fun pv => List.length (values pv) = 1) pivot_values ->
   for_each (stage4_pivot_value bind_state) pivot_values n
   = Ok (mkSelectNode
           (select_list n
            ++ flat_map (extract_columns (internal_map_names bind_state)) pivot_values)
           (from_table n) (where_clause n) (group_expressions n))) /\
  (Exists (fun pv => List.length (values pv) <> 1) pivot_values ->
   for_each (stage4_pivot_value bind_state) pivot_values n
   = Throw multiple_pivots_error).
Proof.
  induction pivot_values as [|pv pvs IH]; intros Hsize n.
  - split.
    + intros _. simpl. rewrite app_nil_r. now destruct n.
    + intros H. inversion H.
  - assert (Hpv := Hsize pv (or_introl eq_refl)).
    assert (Hrest : forall pv', In pv' pvs ->
              List.length (values pv') = List.length (internal_map_names bind_state))
      by (intros; apply Hsize; now right).
    cbn [for_each]. unfold stage4_pivot_value at 1 3.
    destruct (Nat.eqb (List.length (values pv)) 1) eqn:Hone; cbn [negb].
    + apply Nat.eqb_eq in Hone. rewrite Hone in Hpv.
      destruct (values pv) as [|v [|v' vs]] eqn:Hvalues; try discriminate.
      destruct (internal_map_names bind_state) as [|m [|m' ms]] eqn:Hmaps;
        try discriminate.
      cbn [for_each]. unfold stage4_extract. rewrite Hvalues.
      cbn [subscript nth_error bind].
      destruct (IH Hrest (push_select n (map_extract_call m v (name pv))))
        as [IHok IHbad].
      split.
      * intros Hall. inversion Hall; subst. rewrite IHok by assumption.
        read_fields. cbn [flat_map]. unfold extract_columns at 2.
        rewrite Hvalues. cbn [map app]. now rewrite <- app_assoc.
      * intros Hex. inversion Hex; subst.
        -- rewrite Hvalues in *. simpl in *. congruence.
        -- now apply IHbad.
    + apply Nat.eqb_neq in Hone. split.
      * intros Hall. inversion Hall; subst. contradiction.
      * reflexivity.
Qed.

Lemma PivotStageFour_result (bind_state : PivotBindState) (ref : PivotRef)
    (subquery_stage3 : SelectNode) (pivot_values : list PivotValueElement) :
  List.length (group_names bind_state) = List.length (internal_group_names bind_state) ->
  (forall pv, In pv pivot_values ->
     List.length (values pv) = List.length (internal_map_names bind_state)) ->
  (Forall (fun pv => List.length (values pv) = 1) pivot_values ->
   PivotStageFour bind_state ref subquery_stage3 pivot_values
   = Ok (mkSelectNode
           (group_columns bind_state
            ++ flat_map (extract_columns (internal_map_names bind_state)) pivot_values)
           (Some (SubqueryRef subquery_stage3)) None [])) /\
  (Exists (fun pv => List.length (values pv) <> 1) pivot_values ->
   PivotStageFour bind_state ref subquery_stage3 pivot_values
   = Throw multiple_pivots_error).
Proof.
  intros Hgroups Hsize. unfold PivotStageFour.
  assert (Hloop := stage4_groups_loop bind_state (internal_group_names bind_state)
                      [] [] (group_names bind_state) new_SelectNode
                      eq_refl eq_refl eq_refl Hgroups).
  change (List.length (@nil string)) with 0 in Hloop. rewrite Hloop.
  cbn [bind].
  match goal with
  | |- context [for_each (stage4_pivot_value bind_state) pivot_values ?n] =>
      destruct (stage4_pivot_values_loop bind_state pivot_values Hsize n)
        as [Hok Hbad]
  end.
  split.
  - intros Hall. rewrite (Hok Hall). reflexivity.
  - intros Hex. now rewrite (Hbad Hex).
Qed.

End StageFour.

(** What holds of the bind state and of the enumerated elements when
    the first three stages have gone through. *)
Lemma BindPivot_stage3_sizes {VO : ValueOps} {CAT : Catalog} (ref : PivotRef)
    (all_columns : list ParsedExpression) bind_state ref' subquery_stage3 pivot_values :
  BindPivot_stage3 ref all_columns
    = Ok (bind_state, ref', subquery_stage3, pivot_values) ->
  List.length (group_names bind_state) = List.length (internal_group_names bind_state) /\
  (forall pv, In pv pivot_values ->
     List.length (values pv) = List.length (internal_map_names bind_state)).
Proof.
  unfold BindPivot_stage3. intros H.
  first_call H. destruct a as [ref1 handled].
  first_call H. rename a into pvs.
  first_call H. destruct a as [[bs1 ref2] n1].
  destruct (PivotStageTwo bs1 ref2 n1) as [bs2 n2] eqn:Htwo.
  first_call H. destruct a as [bs3 n3].
  injection H as <- <- <- <-.
  pose proof (BindPivot_validate_consistent _ Hcall) as Hrows.
  apply PivotStageOne_names in Hcall1.
  destruct Hcall1 as (groups0 & gcols & pcols & acols & gc & pc & _ & _ & Hlg & _ & _
                      & Hig1 & Hgn1 & _ & Hip1 & Him1 & _ & _ & Hcount & _).
  apply PivotStageTwo_names in Htwo.
  destruct Htwo as (Hig2 & Hgn2 & _ & Him2 & Hip2).
  apply PivotStageThree_maps in Hcall2.
  destruct Hcall2 as (Hig3 & Hgn3 & _ & _ & Him3).
  split.
  - rewrite Hgn3, Hgn2, Hgn1, Hig3, Hig2, Hig1, !length_map. now symmetry.
  - intros pv Hin.
    rewrite Him3, Him2, Him1, Hip2, Hip1, !app_nil_l.
    rewrite !internal_names_length, Hcount.
    destruct (pivots ref1) as [|p ps] eqn:Hps.
    + unfold ConstructPivots in Hcall0. rewrite Hps in Hcall0. discriminate.
    + assert (Heq := ConstructPivots_elements ref1).
      rewrite Hcall0 in Heq. injection Heq as ->; [|rewrite Hps; discriminate].
      apply in_map_iff in Hin. destruct Hin as (combo & <- & Hcombo).
      unfold element_of. cbn [values]. rewrite <- Hps in *.
      apply combination_values_length; assumption.
Qed.

Lemma extract_columns_single {VO : ValueOps} (maps : list string)
    (pivot_values : list PivotValueElement) :
  Forall (fun pv => List.length (values pv) = 1) pivot_values ->
  flat_map (extract_columns maps) pivot_values
  = flat_map (fun pv =>
                map (fun internal_map =>
                       extracted_column internal_map
                                        (nth 0 (values pv) (Value_VARCHAR ""))
                                        (name pv))
                    maps)
             pivot_values.
Proof.
  induction 1 as [|pv pvs Hpv Hpvs IH]; [reflexivity|].
  cbn [flat_map]. rewrite IH. f_equal. unfold extract_columns.
  destruct (values pv) as [|v [|v' vs]]; try discriminate. reflexivity.
Qed.

(** C3.  When the first three stages of a pivot rewrite have gone through
    and every enumerated element holds one value, the tree of stage 4
    selects from the tree of stage 3, without filter or grouping, and its
    select list is the grouping columns followed, for every element in
    order and for every internal map column, by
    [array_extract(map_extract(map, value), 1)] over the value of the
    element and under the element's display name; if there is an element,
    there is one map column.  When some element holds more than one value,
    [BindPivot] ends in the internal error of stage 4 and returns no
    tree. *)
Theorem BindPivot_extract_columns {VO : ValueOps} {CAT : Catalog} (ref : PivotRef)
    (all_columns : list ParsedExpression) bind_state ref' subquery_stage3 pivot_values :
  BindPivot_stage3 ref all_columns
    = Ok (bind_state, ref', subquery_stage3, pivot_values) ->
  (Forall (fun pv => List.length (values pv) = 1) pivot_values ->
   BindPivot ref all_columns
   = Ok (mkSelectNode
           (map (fun names => ColumnRefExpression [fst names] (snd names))
                (combine (internal_group_names bind_state) (group_names bind_state))
            ++ flat_map
                 (fun pv =>
                    map (fun internal_map =>
                           FunctionExpression "array_extract"
                             [FunctionExpression "map_extract"
                                [ColumnRefExpression [internal_map] "";
                                 ConstantExpression
                                   (nth 0 (values pv) (Value_VARCHAR "")) ""]
                                "";
                              ConstantExpression (Value_INTEGER 1) ""]
                             (name pv))
                        (internal_map_names bind_state))
                 pivot_values)
           (Some (SubqueryRef subquery_stage3)) None []) /\
   (pivot_values <> [] -> List.length (internal_map_names bind_state) = 1)) /\
  (Exists (fun pv => 1 < List.length (values pv)) pivot_values ->
   BindPivot ref all_columns = Throw multiple_pivots_error /\
   exc_kind multiple_pivots_error = InternalException).
Proof.
  intros Hstages. destruct (BindPivot_stage3_sizes _ _ Hstages) as [Hgroups Hsize].
  destruct (PivotStageFour_result bind_state ref' subquery_stage3 pivot_values
              Hgroups Hsize) as [Hok Hbad].
  unfold BindPivot. rewrite Hstages. cbn [bind]. split.
  - intros Hall. split.
    + rewrite (Hok Hall), (extract_columns_single _ Hall). reflexivity.
    + intros Hne. destruct pivot_values as [|pv pvs]; [contradiction|].
      rewrite <- (Hsize pv (or_introl eq_refl)). now inversion Hall.
  - intros Hex. split; [|reflexivity]. apply Hbad.
    eapply Exists_impl; [|exact Hex].
    intros pv Hpv. simpl in Hpv. lia.
Qed.

Lemma BindPivot_extract_columns_witness :
  exists bind_state ref' subquery_stage3 pivot_values,
    BindPivot_stage3 sales_by_quarter sales_columns
      = Ok (bind_state, ref', subquery_stage3, pivot_values) /\
    Forall (fun pv => List.length (values pv) = 1) pivot_values /\
    BindPivot sales_by_quarter sales_columns
    = Ok (mkSelectNode
            [ColumnRefExpression ["__internal_pivot_group1"] "region";
             FunctionExpression "array_extract"
               [FunctionExpression "map_extract"
                  [ColumnRefExpression ["__internal_pivot_map1"] "";
                   ConstantExpression (Varchar "Q1") ""] "";
                ConstantExpression (Integer 1) ""]
               "Q1";
             FunctionExpression "array_extract"
               [FunctionExpression "map_extract"
                  [ColumnRefExpression ["__internal_pivot_map1"] "";
                   ConstantExpression (Varchar "Q2") ""] "";
                ConstantExpression (Integer 1) ""]
               "Q2"]
            (Some (SubqueryRef subquery_stage3)) None []).
Proof.
  do 4 eexists. split; [vm_compute; reflexivity|].
  split; [repeat constructor|].
  eapply eq_trans.
  - apply (proj1 (proj1 (BindPivot_extract_columns sales_by_quarter sales_columns
                           eq_refl)
                        ltac:(repeat constructor))).
  - reflexivity.
Defined.

Example sales_by_quarter_columns :
  BindPivot sales_by_quarter sales_columns
  = Ok (mkSelectNode
          [ColumnRefExpression ["__internal_pivot_group1"] "region";
           extracted_column "__internal_pivot_map1" (Varchar "Q1") "Q1";
           extracted_column "__internal_pivot_map1" (Varchar "Q2") "Q2"]
          (from_table
             (match BindPivot sales_by_quarter sales_columns with
              | Ok n => n
              | _ => new_SelectNode
              end))
          None []).
Proof. reflexivity. Qed.

(** [PIVOT sales ON (quarter, region) IN (('Q1', 'A'))
     USING sum(amount), max(amount)] *)
Example composite_pivot_is_internal_error :
  BindPivot
    (pivot_sales
       [{| pivot_expressions := [make_colref "quarter"; make_colref "region"];
           column_unpivot_names := [];
           entries := [in_entry [Varchar "Q1"; Varchar "A"] ""];
           pivot_enum := "" |}]
       [sum_amount; max_amount])
    sales_columns
  = Throw multiple_pivots_error.
Proof. reflexivity. Qed.

(* ================================================================== *)
(** * The internal names *)

Lemma to_uint_not_Nil (n : nat) : Nat.to_uint n <> Nil.
Proof.
  rewrite <- (DecimalNat.Unsigned.of_to n) at 1.
  rewrite DecimalNat.Unsigned.to_of. apply DecimalFacts.unorm_nonnil.
Qed.

Lemma to_string_inj (n m : nat) : to_string n = to_string m -> n = m.
Proof.
  unfold to_string. intros H.
  apply (f_equal NilZero.uint_of_string) in H.
  rewrite !NilZero.usu in H by apply to_uint_not_Nil.
  injection H as H. now apply DecimalNat.Unsigned.to_uint_inj.
Qed.

Lemma string_append_inj_l (p a b : string) : (p ++ a = p ++ b)%string -> a = b.
Proof.
  induction p as [|c p IH]; simpl; intros H; [assumption|].
  injection H as H. now apply IH.
Qed.

Lemma internal_name_inj (prefix : string) (n m : nat) :
  internal_name prefix n = internal_name prefix m -> n = m.
Proof.
  unfold internal_name. intros H.
  now apply to_string_inj, string_append_inj_l with (p := prefix).
Qed.

Lemma internal_names_NoDup (prefix : string) (first count : nat) :
  NoDup (internal_names prefix first count).
Proof.
  unfold internal_names. generalize (seq_NoDup count first).
  generalize (seq first count) as l.
  induction l as [|i l IH]; intros Hl; simpl; [constructor|].
  inversion Hl as [|? ? Hnotin Hrest]; subst. constructor; [|now apply IH].
  intros Hin. apply in_map_iff in Hin. destruct Hin as (j & Heq & Hj).
  apply internal_name_inj in Heq. now subst.
Qed.

(** The character after [__internal_pivot_] tells the kinds of names apart. *)
Lemma internal_names_kind (prefix : string) (c : ascii) (first count : nat) (s : string) :
  (forall rest, String.get 17 (prefix ++ rest) = Some c) ->
  In s (internal_names prefix first count) ->
  String.get 17 s = Some c.
Proof.
  intros Hprefix Hin. apply in_map_iff in Hin. destruct Hin as (i & <- & _).
  apply Hprefix.
Qed.

Lemma internal_names_reserved (prefix : string) (first count : nat) (s : string) :
  (forall rest, String.prefix "__internal_pivot_" (prefix ++ rest) = true) ->
  In s (internal_names prefix first count) ->
  String.prefix "__internal_pivot_" s = true.
Proof.
  intros Hprefix Hin. apply in_map_iff in Hin. destruct Hin as (i & <- & _).
  apply Hprefix.
Qed.

Ltac other_kind :=
  intros s Hin Hin';
  repeat (apply in_app_or in Hin'; destruct Hin' as [Hin' | Hin']);
  (eapply internal_names_kind in Hin; [|intros rest; reflexivity]);
  (eapply internal_names_kind in Hin'; [|intros rest; reflexivity]);
  congruence.

Lemma five_kinds_NoDup (g p a n m : nat) : NoDup (five_kinds g p a n m).
Proof.
  unfold five_kinds.
  repeat (apply NoDup_app; [apply internal_names_NoDup | | other_kind]).
  apply internal_names_NoDup.
Qed.

Lemma five_kinds_reserved (g p a n m : nat) (s : string) :
  In s (five_kinds g p a n m) -> String.prefix "__internal_pivot_" s = true.
Proof.
  unfold five_kinds. intros Hin.
  repeat (apply in_app_or in Hin; destruct Hin as [Hin | Hin]);
    (eapply internal_names_reserved; [|exact Hin]); intros rest; reflexivity.
Qed.

Lemma firstn_exact {A} (l1 l2 : list A) (n : nat) :
  List.length l1 = n -> firstn n (l1 ++ l2) = l1.
Proof.
  intros <-. rewrite firstn_app, firstn_all, Nat.sub_diag. simpl.
  apply app_nil_r.
Qed.

Lemma skipn_exact {A} (l1 l2 : list A) (n : nat) :
  List.length l1 = n -> skipn n (l1 ++ l2) = l2.
Proof.
  intros <-. rewrite skipn_app, skipn_all, Nat.sub_diag. reflexivity.
Qed.

Lemma synthesized_names_five_kinds {VO : ValueOps} (ref : PivotRef)
    (all_columns : list ParsedExpression) (handled_columns : case_insensitive_set_t)
    groups0 bind_state1 ref1 subquery_stage1 bind_state2 subquery_stage2
    bind_state3 subquery_stage3 :
  stage1_groups ref all_columns handled_columns = Ok groups0 ->
  PivotStageOne new_PivotBindState ref all_columns handled_columns
    = Ok (bind_state1, ref1, subquery_stage1) ->
  PivotStageTwo bind_state1 ref1 subquery_stage1 = (bind_state2, subquery_stage2) ->
  PivotStageThree bind_state2 ref1 subquery_stage2 = Ok (bind_state3, subquery_stage3) ->
  exists g p a n m,
    synthesized_names ref groups0 subquery_stage1 bind_state3 = five_kinds g p a n m.
Proof.
  intros Hgroups Hone Htwo Hthree.
  apply PivotStageOne_names in Hone.
  destruct Hone as (groups0' & gcols & pcols & acols & gc & pc & Hg' & Hsel & Hlg & Hlp
                    & _ & _ & _ & Hia1 & Hip1 & Him1 & Hsg & Hsp & _ & _).
  rewrite Hgroups in Hg'. injection Hg' as <-.
  apply PivotStageTwo_names in Htwo. destruct Htwo as (_ & _ & Hia2 & Him2 & Hip2).
  apply PivotStageThree_maps in Hthree.
  destruct Hthree as (_ & _ & Hia3 & Hip3 & Him3).
  unfold synthesized_names, five_kinds.
  rewrite Hsel, (firstn_exact _ _ Hlg), (skipn_exact _ _ Hlg), (firstn_exact _ _ Hlp).
  rewrite Hsg, Hsp, Hia3, Hia2, Hia1, Hip3, Hip2, Hip1, Him3, Him2, Him1, !app_nil_l.
  now do 5 eexists.
Qed.

(** C6 (amended).  The names synthesized in one pivot rewrite are pairwise
    distinct, and an identifier that does not begin with
    [__internal_pivot_] is none of them. *)
Theorem synthesized_names_distinct {VO : ValueOps} (ref : PivotRef)
    (all_columns : list ParsedExpression) (handled_columns : case_insensitive_set_t)
    groups0 bind_state1 ref1 subquery_stage1 bind_state2 subquery_stage2
    bind_state3 subquery_stage3 :
  stage1_groups ref all_columns handled_columns = Ok groups0 ->
  PivotStageOne new_PivotBindState ref all_columns handled_columns
    = Ok (bind_state1, ref1, subquery_stage1) ->
  PivotStageTwo bind_state1 ref1 subquery_stage1 = (bind_state2, subquery_stage2) ->
  PivotStageThree bind_state2 ref1 subquery_stage2 = Ok (bind_state3, subquery_stage3) ->
  NoDup (synthesized_names ref groups0 subquery_stage1 bind_state3) /\
  (forall identifier,
     String.prefix "__internal_pivot_" identifier = false ->
     ~ In identifier (synthesized_names ref groups0 subquery_stage1 bind_state3)).
Proof.
  intros Hgroups Hone Htwo Hthree.
  destruct (synthesized_names_five_kinds _ _ _ Hgroups Hone Htwo Hthree)
    as (g & p & a & n & m & ->).
  split.
  - apply five_kinds_NoDup.
  - intros identifier Hfree Hin. apply five_kinds_reserved in Hin. congruence.
Qed.

Lemma synthesized_names_distinct_witness :
  exists groups0 bind_state1 ref1 subquery_stage1 bind_state3,
    PivotStageOne new_PivotBindState sales_by_quarter sales_columns ["amount"; "quarter"]
      = Ok (bind_state1, ref1, subquery_stage1) /\
    synthesized_names sales_by_quarter groups0 subquery_stage1 bind_state3
      = ["__internal_pivot_group1"; "__internal_pivot_ref1";
         "__internal_pivot_aggregate1"; "__internal_pivot_name1";
         "__internal_pivot_map1"] /\
    NoDup (synthesized_names sales_by_quarter groups0 subquery_stage1 bind_state3) /\
    ~ In "region" (synthesized_names sales_by_quarter groups0 subquery_stage1 bind_state3).
Proof.
  do 5 eexists.
  pose proof (synthesized_names_distinct sales_by_quarter sales_columns
                ["amount"; "quarter"] eq_refl eq_refl eq_refl eq_refl) as [Hnodup Hfree].
  refine (conj _ (conj _ (conj Hnodup (Hfree "region" eq_refl)))); reflexivity.
Defined.

(** C6 as stated fails: nothing keeps the names of the user out of the
    internal names.  Here a column of the source that is grouped by has
    the very name stage 1 makes up for the aggregate. *)
Lemma synthesized_name_collision_counterexample :
  exists bind_state ref' subquery_stage3 pivot_values,
    BindPivot_stage3 sales_by_quarter reserved_column
      = Ok (bind_state, ref', subquery_stage3, pivot_values) /\
    In (make_colref "__internal_pivot_aggregate1") reserved_column /\
    In "__internal_pivot_aggregate1" (group_names bind_state) /\
    In "__internal_pivot_aggregate1" (internal_aggregate_names bind_state).
Proof.
  do 4 eexists. split; [vm_compute; reflexivity|].
  repeat split; simpl; auto.
Qed.

(* ================================================================== *)
(** * UNPIVOT: the subscripts of the value positions *)

Section UnpivotPositions.
Context {VO : ValueOps}.

(** Lines 441-443 at one value position: in bounds when every entry
    reaches that position, out of bounds otherwise; nothing is thrown. *)
Lemma unpivot_position_loop (v_idx : nat) (es : list PivotColumnEntry) :
  forall expressions,
  (Forall (fun entry => v_idx < arity entry) es ->
   exists added,
     List.length added = List.length es /\
     for_each (fun expressions entry =>
                 value <- subscript "entry.values[v_idx]" (entry_values entry) v_idx ;;
                 Ok (expressions ++ [make_colref (ToString value)]))
              es expressions
     = Ok (expressions ++ added)) /\
  (Exists (fun entry => arity entry <= v_idx) es ->
   for_each (fun expressions entry =>
               value <- subscript "entry.values[v_idx]" (entry_values entry) v_idx ;;
               Ok (expressions ++ [make_colref (ToString value)]))
            es expressions
   = OutOfBounds "entry.values[v_idx]").
Proof.
  induction es as [|e es IH]; intros expressions.
  - split.
    + intros _. exists []. simpl. now rewrite app_nil_r.
    + intros H. inversion H.
  - cbn [for_each]. unfold subscript at 1 3.
    destruct (nth_error (entry_values e) v_idx) as [value|] eqn:Hnth.
    + cbn [bind].
      destruct (IH (expressions ++ [make_colref (ToString value)])) as [IHok IHbad].
      split.
      * intros Hall. inversion Hall; subst.
        destruct (IHok H2) as (added & Hlen & Heq).
        exists (make_colref (ToString value) :: added). split.
        -- simpl. now rewrite Hlen.
        -- rewrite Heq, <- app_assoc. reflexivity.
      * intros Hex. inversion Hex; subst.
        -- assert (v_idx < arity e)
             by (apply nth_error_Some; unfold arity; congruence).
           lia.
        -- now apply IHbad.
    + split.
      * intros Hall. inversion Hall; subst.
        apply nth_error_None in Hnth. unfold arity in *. lia.
      * reflexivity.
Qed.

Lemma unpivot_position_ok (v_idx : nat) (es : list PivotColumnEntry) :
  Forall (fun entry => v_idx < arity entry) es ->
  exists expressions,
    List.length expressions = List.length es /\
    unpivot_position es v_idx = Ok expressions.
Proof.
  intros Hall. destruct (unpivot_position_loop v_idx es []) as [Hok _].
  destruct (Hok Hall) as (added & Hlen & Heq). exists added. now split.
Qed.

Lemma unpivot_position_out_of_bounds (v_idx : nat) (es : list PivotColumnEntry) :
  Exists (fun entry => arity entry <= v_idx) es ->
  unpivot_position es v_idx = OutOfBounds "entry.values[v_idx]".
Proof.
  intros Hex. now destruct (unpivot_position_loop v_idx es []) as [_ Hbad]; apply Hbad.
Qed.

Lemma reaches_or_not (v_idx : nat) (es : list PivotColumnEntry) :
  Forall (fun entry => v_idx < arity entry) es \/
  Exists (fun entry => arity entry <= v_idx) es.
Proof.
  induction es as [|e es [IH | IH]].
  - left. constructor.
  - destruct (Nat.lt_ge_cases v_idx (arity e)).
    + left. now constructor.
    + right. now constructor.
  - right. now constructor 2.
Qed.

(** The loop over the value positions [first, first + count). *)
Lemma unpivot_positions_loop (es : list PivotColumnEntry) (count : nat) :
  forall first unpivot_expressions,
  (Forall (fun entry => first + count <= arity entry) es ->
   exists added,
     List.length added = count /\
     for_each (fun unpivot_expressions v_idx =>
                 expressions <- unpivot_position es v_idx ;;
                 Ok (unpivot_expressions ++ [expressions]))
              (seq first count) unpivot_expressions
     = Ok (unpivot_expressions ++ added)) /\
  (Exists (fun entry => arity entry < first + count) es ->
   Forall (fun entry => first <= arity entry) es ->
   for_each (fun unpivot_expressions v_idx =>
               expressions <- unpivot_position es v_idx ;;
               Ok (unpivot_expressions ++ [expressions]))
            (seq first count) unpivot_expressions
   = OutOfBounds "entry.values[v_idx]").
Proof.
  induction count as [|count IH]; intros first acc.
  - split.
    + intros _. exists []. simpl. now rewrite app_nil_r.
    + intros Hex Hall. exfalso. rewrite Exists_exists in Hex.
      destruct Hex as (e & He & Hlt). rewrite Forall_forall in Hall.
      specialize (Hall e He). lia.
  - cbn [seq for_each]. split.
    + intros Hall.
      destruct (@unpivot_position_ok first es) as (expressions & _ & ->).
      { eapply Forall_impl; [|exact Hall]. simpl. intros; lia. }
      cbn [bind]. destruct (IH (S first) (acc ++ [expressions])) as [IHok _].
      destruct IHok as (added & Hlen & ->).
      { eapply Forall_impl; [|exact Hall]. simpl. intros; lia. }
      exists (expressions :: added). split; [simpl; now rewrite Hlen|].
      now rewrite <- app_assoc.
    + intros Hex Hall. destruct (reaches_or_not first es) as [Hreach | Hshort].
      * destruct (unpivot_position_ok Hreach) as (expressions & _ & ->).
        cbn [bind]. destruct (IH (S first) (acc ++ [expressions])) as [_ IHbad].
        apply IHbad.
        -- eapply Exists_impl; [|exact Hex]. simpl. intros; lia.
        -- eapply Forall_impl; [|exact Hreach]. simpl. intros; lia.
      * now rewrite unpivot_position_out_of_bounds.
Qed.

(** Lines 437-445 as a whole. *)
Lemma unpivot_expressions_of_result (es : list PivotColumnEntry) :
  (es = [] -> unpivot_expressions_of es = OutOfBounds "unpivot.entries[0]") /\
  (forall first_entry rest, es = first_entry :: rest ->
     (Forall (fun entry => arity first_entry <= arity entry) rest ->
      exists unpivot_expressions,
        List.length unpivot_expressions = arity first_entry /\
        unpivot_expressions_of es = Ok unpivot_expressions) /\
     (Exists (fun entry => arity entry < arity first_entry) rest ->
      unpivot_expressions_of es = OutOfBounds "entry.values[v_idx]")).
Proof.
  split; [intros ->; reflexivity|].
  intros first_entry rest ->. unfold unpivot_expressions_of.
  cbn [subscript nth_error bind]. fold (arity first_entry).
  destruct (unpivot_positions_loop (first_entry :: rest) (arity first_entry) 0 [])
    as [Hok Hbad].
  split.
  - intros Hall. destruct Hok as (added & Hlen & Heq).
    + constructor; [simpl; lia | exact Hall].
    + exists added. split; [assumption|]. exact Heq.
  - intros Hex. apply Hbad.
    + now constructor 2.
    + apply Forall_forall. intros; lia.
Qed.

End UnpivotPositions.

(** C10 (amended).  When the earlier steps of [BindUnpivot] have gone
    through, nothing has compared the sizes of the entries.  The loop over
    the value positions then subscripts [unpivot.entries[0]], which is out
    of bounds for an empty entry list, and [entry.values[v_idx]] for every
    position of the first entry: all subscripts are in bounds when no entry
    has fewer values than the first one (in particular when all have as
    many), and an entry with fewer values than the first one makes
    [BindUnpivot] end in an out-of-bounds access and not in an error. *)
Theorem BindUnpivot_entry_sizes {VO : ValueOps} {CAT : Catalog} {BO : BinderOps}
    (child_binder : StarBinder) (ref : PivotRef)
    (all_columns : list ParsedExpression) (where_clause : option ParsedExpression)
    select_node unpivot unpivot_names_list :
  BindUnpivot_names child_binder ref all_columns
    = Ok (select_node, unpivot, unpivot_names_list) ->
  (entries unpivot = [] ->
   BindUnpivot child_binder ref all_columns where_clause
   = OutOfBounds "unpivot.entries[0]") /\
  (forall first_entry rest, entries unpivot = first_entry :: rest ->
     (Forall (fun entry => arity first_entry <= arity entry) rest ->
      exists unpivot_expressions,
        List.length unpivot_expressions = arity first_entry /\
        unpivot_expressions_of (entries unpivot) = Ok unpivot_expressions) /\
     (Exists (fun entry => arity entry < arity first_entry) rest ->
      BindUnpivot child_binder ref all_columns where_clause
      = OutOfBounds "entry.values[v_idx]")).
Proof.
  intros Hnames.
  destruct (unpivot_expressions_of_result (entries unpivot)) as [Hempty Hcons].
  unfold BindUnpivot. rewrite Hnames. cbn [bind]. split.
  - intros Hnil. now rewrite (Hempty Hnil).
  - intros first_entry rest Hes. destruct (Hcons _ _ Hes) as [Hok Hbad]. split.
    + exact Hok.
    + intros Hex. now rewrite (Hbad Hex).
Qed.

Lemma BindUnpivot_entry_sizes_witness :
  BindUnpivot wide_columns shorter_second_entry (map make_colref wide_columns) None
  = OutOfBounds "entry.values[v_idx]".
Proof.
  refine (proj2 (proj2 (BindUnpivot_entry_sizes wide_columns shorter_second_entry
                          (map make_colref wide_columns) None eq_refl)
                   _ _ eq_refl) _).
  constructor. unfold arity. simpl. lia.
Defined.

(** C10 as stated fails: entries of different sizes do not always lead
    out of bounds.  A second entry that is longer than the first is bound
    without error; its second column is left out of the value list. *)
Lemma differing_sizes_counterexample :
  map arity (entries (hd (on_column "" []) (pivots longer_second_entry))) = [1; 2] /\
  BindUnpivot wide_columns longer_second_entry (map make_colref wide_columns) None
  = Ok (mkSelectNode
          [make_colref "id";
           FunctionExpression "unnest"
             [make_constant (List [Varchar "q1"; Varchar "q2_q3"])] "quarter";
           FunctionExpression "unnest"
             [FunctionExpression "list_value" [make_colref "q1"; make_colref "q2"] ""]
             "amount"]
          (Some (BaseTableRef "wide")) None [],
        Some (is_not_null "amount")).
Proof. split; reflexivity. Qed.

(* ================================================================== *)
(** * UNPIVOT: the null filter *)

Section NullFilter.
Context {VO : ValueOps} {CAT : Catalog} {BO : BinderOps}.

Lemma conjoin_none (filters : list ParsedExpression) :
  conjoin None filters = None <-> filters = [].
Proof.
  unfold conjoin. destruct filters as [|f fs]; simpl; [tauto|].
  split; [|discriminate]. intros H. exfalso. revert H.
  generalize f. induction fs as [|g fs IH]; intros f0; simpl; [discriminate|].
  apply IH.
Qed.

Lemma subscript_nth {A} (what : string) (l : list A) (i : nat) (d : A) :
  i < List.length l -> subscript what l i = Ok (nth i l d).
Proof.
  intros Hlt. unfold subscript.
  destruct (nth_error l i) as [a|] eqn:Hnth.
  - now rewrite (nth_error_nth _ _ d Hnth).
  - apply nth_error_None in Hnth. lia.
Qed.

(** Lines 461-480. *)
Lemma unnest_value_columns (ref : PivotRef)
    (unpivot_expressions : list (list ParsedExpression)) (count : nat) :
  List.length (unpivot_names ref) = List.length unpivot_expressions ->
  forall first select_node filter,
  first + count <= List.length unpivot_expressions ->
  for_each (unnest_value_column ref unpivot_expressions) (seq first count)
           (select_node, filter)
  = Ok (mkSelectNode
          (select_list select_node
           ++ map (unnest_value ref unpivot_expressions) (seq first count))
          (from_table select_node) (where_clause select_node)
          (group_expressions select_node),
        if include_nulls ref then filter
        else conjoin filter
               (map (fun i => not_null_test (unnest_name ref i)) (seq first count))).
Proof.
  intros Hnames. induction count as [|count IH]; intros first n w Hle.
  - simpl. rewrite app_nil_r. destruct n. now destruct (include_nulls ref).
  - cbn [seq for_each]. unfold unnest_value_column at 1.
    rewrite (@subscript_nth _ "unpivot_expressions[i]" unpivot_expressions first [])
      by lia.
    cbn [bind].
    assert (Hname :
      (if Nat.ltb first (List.length (column_name_alias ref))
       then subscript "ref.column_name_alias[i]" (column_name_alias ref) first
       else subscript "ref.unpivot_names[i]" (unpivot_names ref) first)
      = Ok (unnest_name ref first)).
    { unfold unnest_name.
      destruct (Nat.ltb first (List.length (column_name_alias ref))) eqn:Hlt.
      - apply Nat.ltb_lt in Hlt. now apply subscript_nth.
      - apply subscript_nth. lia. }
    rewrite Hname. cbn [bind].
    destruct (include_nulls ref) eqn:Hnulls; cbn [negb bind];
      rewrite IH by lia; read_fields; cbn [map];
      unfold unnest_value at 2; rewrite <- app_assoc; [reflexivity|].
    unfold conjoin. cbn [fold_left]. now destruct w.
Qed.

End NullFilter.

Section BindProperties.
Context {VO : ValueOps} {CAT : Catalog} {BO : BinderOps}.

Lemma split_columns_where (all_columns : list ParsedExpression) :
  forall select_node name_map handled select_node' name_map' handled',
  for_each split_column all_columns (select_node, name_map, handled)
    = Ok (select_node', name_map', handled') ->
  where_clause select_node' = where_clause select_node.
Proof.
  induction all_columns as [|c cs IH]; intros n m h n' m' h' H.
  - simpl in H. now injection H as <- <- <-.
  - cbn [for_each] in H. first_call H. destruct a as [[n1 m1] h1].
    apply IH in H. rewrite H. unfold split_column in Hcall.
    destruct c; try discriminate.
    destruct (negb _); injection Hcall as <- <- <-; reflexivity.
Qed.

Lemma BindUnpivot_names_where (child_binder : StarBinder) (ref : PivotRef)
    (all_columns : list ParsedExpression) select_node unpivot unpivot_names_list :
  BindUnpivot_names child_binder ref all_columns
    = Ok (select_node, unpivot, unpivot_names_list) ->
  where_clause select_node = None.
Proof.
  unfold BindUnpivot_names. intros H. first_call H. first_call H. first_call H.
  destruct a1 as [[n m] h]. destruct h; [|discriminate].
  first_call H. injection H as <- _ _.
  now apply split_columns_where in Hcall1.
Qed.

(** What [BindUnpivot] returns: a select node without WHERE clause that
    ends in the value columns, and the filter it was given, with one
    IS NOT NULL per value column conjoined onto it unless nulls are kept. *)
Lemma BindUnpivot_result (child_binder : StarBinder) (ref : PivotRef)
    (all_columns : list ParsedExpression) (filter : option ParsedExpression)
    select_node filter' :
  BindUnpivot child_binder ref all_columns filter = Ok (select_node, filter') ->
  where_clause select_node = None /\
  exists front unpivot_expressions,
    List.length unpivot_expressions = List.length (unpivot_names ref) /\
    select_list select_node
      = front ++ map (unnest_value ref unpivot_expressions)
                     (seq 0 (List.length unpivot_expressions)) /\
    filter' = if include_nulls ref then filter
              else conjoin filter
                     (map (fun i => not_null_test (unnest_name ref i))
                          (seq 0 (List.length unpivot_expressions))).
Proof.
  unfold BindUnpivot. intros H. first_call H. destruct a as [[n unpivot] names].
  first_call H. rename a into ues. first_call H.
  destruct (Nat.eqb _ _) eqn:Hsize; [|discriminate]. cbn [negb] in H.
  apply Nat.eqb_eq in Hsize.
  rewrite unnest_value_columns in H by (auto; lia).
  injection H as <- <-. read_fields.
  split; [eapply BindUnpivot_names_where; eassumption|].
  eexists _, ues. repeat split. now symmetry.
Qed.

End BindProperties.

(* ================================================================== *)
(** * Further properties: the column-usage extractor *)

Section Extractor.
Context {VO : ValueOps}.

(** Induction over an expression and, with it, over its children. *)
Lemma ParsedExpression_children_ind (P : ParsedExpression -> Prop) :
  (forall e, Forall P (expression_children e) -> P e) ->
  forall e, P e.
Proof.
  intros step. fix IH 1. intros e. apply step.
  destruct e as [| |f c a| |c a|c a|k c a]; simpl; try constructor;
    induction c as [|x c IHc]; constructor; auto.
Qed.

Lemma insert_all_app (l1 l2 : list string) (s : case_insensitive_set_t) :
  insert_all (l1 ++ l2) s = insert_all l2 (insert_all l1 s).
Proof. unfold insert_all. apply fold_left_app. Qed.

Lemma extract_children (cs : list ParsedExpression) :
  Forall (fun c => forall handled,
            ExtractPivotExpressions c handled
            = if has_qualified_column c then Throw qualified_column_error
              else Ok (insert_all (referenced_columns c) handled)) cs ->
  forall handled,
  for_each (fun handled child => ExtractPivotExpressions child handled) cs handled
  = if existsb has_qualified_column cs then Throw qualified_column_error
    else Ok (insert_all (flat_map referenced_columns cs) handled).
Proof.
  induction 1 as [|c cs Hc Hcs IH]; intros handled; [reflexivity|].
  cbn [for_each existsb flat_map]. rewrite Hc.
  destruct (has_qualified_column c); [reflexivity|].
  cbn [bind orb]. rewrite IH, insert_all_app. reflexivity.
Qed.

End Extractor.

Lemma extract_result {VO : ValueOps} (expr : ParsedExpression) :
  forall handled_columns,
  ExtractPivotExpressions expr handled_columns
  = if has_qualified_column expr then Throw qualified_column_error
    else Ok (insert_all (referenced_columns expr) handled_columns).
Proof.
  induction expr as [e IH] using ParsedExpression_children_ind.
  intros handled.
  destruct e as [names a|v a|f c a|a|c a|c a|k c a];
    cbn [ExtractPivotExpressions has_qualified_column referenced_columns
         expression_children bind] in *;
    try reflexivity;
    try (now apply extract_children).
  destruct (IsQualified names); reflexivity.
Qed.

Lemma extract_all_result {VO : ValueOps} (exprs : list ParsedExpression) :
  forall handled,
  for_each (fun handled child => ExtractPivotExpressions child handled) exprs handled
  = if existsb has_qualified_column exprs then Throw qualified_column_error
    else Ok (insert_all (flat_map referenced_columns exprs) handled).
Proof.
  apply extract_children. apply Forall_forall. intros e _. apply extract_result.
Qed.

(** Comparison of names without regard to case. *)
Lemma ci_equal_Lower (a b : string) : ci_equal a b = true <-> Lower a = Lower b.
Proof. unfold ci_equal. apply String.eqb_eq. Qed.

Lemma ci_equal_refl (a : string) : ci_equal a a = true.
Proof. now apply ci_equal_Lower. Qed.

Lemma ci_equal_sym (a b : string) : ci_equal a b = ci_equal b a.
Proof. unfold ci_equal. apply String.eqb_sym. Qed.

Lemma ci_equal_same (a b c : string) :
  ci_equal a b = true -> ci_equal c a = ci_equal c b.
Proof. intros H. apply ci_equal_Lower in H. unfold ci_equal. now rewrite H. Qed.

Lemma ci_find_same (a b : string) (s : case_insensitive_set_t) :
  ci_equal a b = true -> ci_find a s = ci_find b s.
Proof.
  intros H. unfold ci_find. induction s as [|k s IH]; simpl; [reflexivity|].
  rewrite IH. f_equal. rewrite !(ci_equal_sym _ k). now apply ci_equal_same.
Qed.

(** Looking up after an insertion. *)
Lemma ci_find_insert (x key : string) (s : case_insensitive_set_t) :
  ci_find x (ci_insert key s) = orb (ci_find x s) (ci_equal x key).
Proof.
  unfold ci_insert. destruct (ci_find key s) eqn:Hfound.
  - destruct (ci_equal x key) eqn:Heq; [|now rewrite orb_false_r].
    rewrite (@ci_find_same x key s Heq), Hfound. reflexivity.
  - unfold ci_find. rewrite existsb_app. simpl. now rewrite orb_false_r.
Qed.

Lemma ci_find_insert_all (x : string) (names : list string) :
  forall s,
  ci_find x (insert_all names s) = orb (ci_find x s) (existsb (ci_equal x) names).
Proof.
  induction names as [|n names IH]; intros s; simpl.
  - now rewrite orb_false_r.
  - rewrite IH, ci_find_insert, orb_assoc. reflexivity.
Qed.

(** X1.  [ExtractPivotExpressions] fails exactly when the expression
    contains a qualified column reference, whatever set it is given, and
    then with the qualified-column error: it throws nothing else and reads
    nothing out of bounds. *)
Theorem ExtractPivotExpressions_fails_on_qualified {VO : ValueOps}
    (expr : ParsedExpression) (handled_columns : case_insensitive_set_t) :
  (ExtractPivotExpressions expr handled_columns = Throw qualified_column_error
   <-> has_qualified_column expr = true) /\
  is_ok (ExtractPivotExpressions expr handled_columns)
  = negb (has_qualified_column expr).
Proof.
  rewrite extract_result. destruct (has_qualified_column expr); simpl.
  - split; [tauto | reflexivity].
  - split; [|reflexivity]. split; discriminate.
Qed.

(** X2.  When [ExtractPivotExpressions] returns, a name is found in the
    returned set exactly if it was found before or is, up to case, the name
    of a column the expression refers to. *)
Theorem ExtractPivotExpressions_lookup {VO : ValueOps}
    (expr : ParsedExpression) (handled_columns handled : case_insensitive_set_t) :
  ExtractPivotExpressions expr handled_columns = Ok handled ->
  forall column_name,
  ci_find column_name handled
  = orb (ci_find column_name handled_columns)
        (existsb (ci_equal column_name) (referenced_columns expr)).
Proof.
  rewrite extract_result. destruct (has_qualified_column expr); [discriminate|].
  intros H column_name. injection H as <-. apply ci_find_insert_all.
Qed.

Lemma ExtractPivotExpressions_lookup_witness :
  ci_find "AMOUNT" ["amount"]
  = orb (ci_find "AMOUNT" []) (existsb (ci_equal "AMOUNT") (referenced_columns sum_amount)).
Proof.
  apply (ExtractPivotExpressions_lookup sum_amount [] eq_refl "AMOUNT").
Defined.

(** Whether a pivot column passes its checks does not depend on what was
    checked before it. *)
Lemma check_pivot_independent {VO : ValueOps} {CAT : Catalog} (pivot : PivotColumn)
    (st st' : Z * case_insensitive_set_t * list PivotColumn) :
  is_ok (check_pivot st pivot) = is_ok (check_pivot st' pivot).
Proof.
  destruct st as [[t h] c], st' as [[t' h'] c']. unfold check_pivot.
  destruct (expand_pivot_enum pivot) as [p| |]; try reflexivity. cbn [bind].
  rewrite !extract_all_result.
  destruct (existsb has_qualified_column (pivot_expressions p)); [reflexivity|].
  cbn [bind]. destruct (for_each (check_entry p) (entries p) []); reflexivity.
Qed.

(** X3.  The pivot columns are validated one by one and independently: the
    loop over the pivot columns goes through exactly when every column
    passes on its own.  In particular a value is only a duplicate within
    its own column. *)
Theorem pivot_columns_checked_independently {VO : ValueOps} {CAT : Catalog}
    (ps : list PivotColumn) :
  forall st,
  is_ok (for_each check_pivot ps st)
  = forallb (fun pivot => is_ok (check_pivot (1%Z, [], []) pivot)) ps.
Proof.
  induction ps as [|p ps IH]; intros st; [reflexivity|].
  cbn [for_each forallb]. rewrite (check_pivot_independent p (1%Z, [], []) st).
  destruct (check_pivot st p) as [st1| |]; cbn [bind is_ok andb];
    [apply IH | reflexivity | reflexivity].
Qed.

(* ================================================================== *)
(** * Further properties: validation of the pivot columns *)

Lemma set_entries_same {VO : ValueOps} (pivot : PivotColumn) :
  set_entries pivot (entries pivot) = pivot.
Proof. now destruct pivot. Qed.

Lemma expand_pivot_enum_result {VO : ValueOps} {CAT : Catalog}
    (pivot pivot' : PivotColumn) :
  expand_pivot_enum pivot = Ok pivot' ->
  pivot' = set_entries pivot (expanded_entries pivot).
Proof.
  unfold expand_pivot_enum, expanded_entries.
  destruct (empty (pivot_enum pivot)); cbn [negb].
  - intros H. injection H as <-. now rewrite app_nil_r, set_entries_same.
  - destruct (GetType (pivot_enum pivot)) as [[vs|other]| |]; cbn [bind];
      intros H; try discriminate. now injection H as <-.
Qed.

Lemma check_pivots_expanded {VO : ValueOps} {CAT : Catalog} (ps : list PivotColumn) :
  forall total handled checked total' handled' checked',
  for_each check_pivot ps (total, handled, checked) = Ok (total', handled', checked') ->
  checked' = checked
             ++ map (fun pivot => set_entries pivot (expanded_entries pivot)) ps.
Proof.
  induction ps as [|p ps IH]; intros t h c t' h' c' H.
  - simpl in H. injection H as <- <- <-. now rewrite app_nil_r.
  - cbn [for_each] in H. first_call H. destruct a as [[t1 h1] c1].
    apply IH in H. unfold check_pivot in Hcall.
    first_call Hcall. first_call Hcall. first_call Hcall.
    injection Hcall as <- <- <-.
    apply expand_pivot_enum_result in Hcall0. subst a.
    rewrite H, <- app_assoc. reflexivity.
Qed.

Lemma validated_pivots {VO : ValueOps} {CAT : Catalog} (ref ref' : PivotRef) handled :
  BindPivot_validate ref = Ok (ref', handled) ->
  ref' = set_pivots ref
           (map (fun pivot => set_entries pivot (expanded_entries pivot)) (pivots ref)).
Proof.
  unfold BindPivot_validate. intros H. first_call H. first_call H.
  destruct a0 as [[total h] checked].
  destruct (PIVOT_EXPRESSION_LIMIT <=? total)%Z; [discriminate|].
  injection H as <- _. apply check_pivots_expanded in Hcall0.
  now rewrite Hcall0.
Qed.

(** X4.  A declaration that passes validation is changed in one way only:
    each pivot column that names an enum type has one entry per value of
    the enum appended to its declared entries, in the order of the enum,
    each holding the value as its only value and as its alias.  A column
    that names no type keeps its entries. *)
Theorem validation_expands_enums {VO : ValueOps} {CAT : Catalog}
    (ref ref' : PivotRef) handled :
  BindPivot_validate ref = Ok (ref', handled) ->
  source ref' = source ref /\ aggregates ref' = aggregates ref /\
  groups ref' = groups ref /\
  map pivot_expressions (pivots ref') = map pivot_expressions (pivots ref) /\
  map entries (pivots ref') = map expanded_entries (pivots ref) /\
  (forall pivot enum_values,
     In pivot (pivots ref) -> empty (pivot_enum pivot) = false ->
     GetType (pivot_enum pivot) = Ok (ENUM enum_values) ->
     expanded_entries pivot
     = entries pivot
       ++ map (fun v => {| entry_values := [Value_VARCHAR v]; star_expr := None;
                           entry_alias := v |}) enum_values) /\
  (forall pivot, In pivot (pivots ref) -> empty (pivot_enum pivot) = true ->
     expanded_entries pivot = entries pivot).
Proof.
  intros H. apply validated_pivots in H. subst ref'. cbn.
  repeat split.
  - rewrite map_map. now apply map_ext.
  - rewrite map_map. now apply map_ext.
  - intros pivot vs _ Hname Htype. unfold expanded_entries.
    now rewrite Hname, Htype.
  - intros pivot _ Hname. unfold expanded_entries. rewrite Hname.
    apply app_nil_r.
Qed.

Lemma validation_expands_enums_witness :
  exists ref' handled,
    BindPivot_validate sales_by_enum = Ok (ref', handled) /\
    map entries (pivots ref') = map expanded_entries (pivots sales_by_enum) /\
    map (map entry_alias) (map entries (pivots ref')) = [["Q1"; "Q2"; "Q3"; "Q4"]].
Proof.
  do 2 eexists. split; [vm_compute; reflexivity|].
  split; [|reflexivity].
  eapply (fun H => proj1 (proj2 (proj2 (proj2 (proj2
                     (validation_expands_enums sales_by_enum H)))))).
  vm_compute. reflexivity.
Defined.

Lemma combinations_single {A} (es : list A) :
  combinations [es] = map (fun e => [e]) es.
Proof.
  simpl. induction es as [|e es IH]; simpl; [reflexivity|]. now rewrite IH.
Qed.

(** X5.  For a declaration with one pivot column that names an enum type
    and declares no entries, the enumerated elements are the values of the
    enum in the order of the enum, named after them (no value of the enum
    being empty). *)
Theorem enum_pivot_elements {VO : ValueOps} {CAT : Catalog} (ref : PivotRef)
    (all_columns : list ParsedExpression) (pivot : PivotColumn)
    (enum_values : list string) bind_state ref' subquery_stage3 pivot_values :
  pivots ref = [pivot] ->
  entries pivot = [] ->
  empty (pivot_enum pivot) = false ->
  GetType (pivot_enum pivot) = Ok (ENUM enum_values) ->
  Forall (fun v => empty v = false) enum_values ->
  BindPivot_stage3 ref all_columns
    = Ok (bind_state, ref', subquery_stage3, pivot_values) ->
  pivot_values
  = map (fun v => {| values := [Value_VARCHAR v]; name := v |}) enum_values.
Proof.
  intros Hpivots Hentries Hname Htype Hnonempty H.
  unfold BindPivot_stage3 in H. first_call H. destruct a as [ref1 handled].
  first_call H. rename a into pvs. first_call H. destruct a as [[bs1 ref2] n1].
  destruct (PivotStageTwo bs1 ref2 n1) as [bs2 n2]. first_call H.
  destruct a as [bs3 n3]. injection H as _ _ _ <-.
  apply validated_pivots in Hcall. subst ref1.
  rewrite ConstructPivots_elements in Hcall0
    by (cbn; rewrite Hpivots; discriminate).
  injection Hcall0 as <-. cbn [set_pivots pivots]. rewrite Hpivots. cbn [map].
  unfold set_entries at 1. cbn [entries]. unfold expanded_entries.
  rewrite Hentries, Hname, Htype, app_nil_l.
  rewrite combinations_single, !map_map.
  apply map_ext_in. intros v Hv.
  rewrite Forall_forall in Hnonempty. specialize (Hnonempty v Hv).
  unfold element_of, level_name. cbn.
  rewrite Hnonempty. destruct v; [discriminate | reflexivity].
Qed.

Lemma enum_pivot_elements_witness :
  exists bind_state ref' subquery_stage3 pivot_values,
    BindPivot_stage3 sales_by_enum sales_columns
      = Ok (bind_state, ref', subquery_stage3, pivot_values) /\
    pivot_values
    = map (fun v => {| values := [Value_VARCHAR v]; name := v |})
          ["Q1"; "Q2"; "Q3"; "Q4"].
Proof.
  do 4 eexists. split; [vm_compute; reflexivity|].
  eapply (enum_pivot_elements sales_by_enum sales_columns);
    try reflexivity.
  repeat constructor.
Defined.

(* ================================================================== *)
(** * Further properties: the trees of the four stages *)

Section Trees.
Context {VO : ValueOps}.

Lemma positions_app (first n m : nat) :
  positions first (n + m) = positions first n ++ positions (first + n) m.
Proof. unfold positions. now rewrite seq_app, map_app. Qed.

Lemma SelectNode_eta (n : SelectNode) :
  mkSelectNode (select_list n) (from_table n) (where_clause n) (group_expressions n) = n.
Proof. now destruct n. Qed.

(** A loop that pushes one grouped column per element. *)
Lemma push_grouped_loop {A} (f : A -> ParsedExpression) (l : list A) :
  forall n,
  fold_left (fun n x => push_grouped n (f x)) l n
  = mkSelectNode (select_list n ++ map f l) (from_table n) (where_clause n)
      (group_expressions n
       ++ positions (List.length (select_list n) + 1) (List.length l)).
Proof.
  induction l as [|x l IH]; intros n.
  - simpl. unfold positions. simpl. rewrite !app_nil_r. now destruct n.
  - cbn [fold_left]. rewrite IH. read_fields. cbn [map List.length].
    rewrite <- !app_assoc. f_equal. f_equal.
    rewrite length_app. cbn [List.length].
    change (S (List.length l)) with (1 + List.length l).
    rewrite positions_app. reflexivity.
Qed.

(** A loop that pushes one column per element. *)
Lemma push_select_loop {A} (f : A -> ParsedExpression) (l : list A) :
  forall n,
  fold_left (fun n x => push_select n (f x)) l n
  = mkSelectNode (select_list n ++ map f l) (from_table n) (where_clause n)
      (group_expressions n).
Proof.
  induction l as [|x l IH]; intros n.
  - simpl. rewrite app_nil_r. now destruct n.
  - cbn [fold_left]. rewrite IH. read_fields. cbn [map].
    now rewrite <- app_assoc.
Qed.

(** Lines 84-95: the loop over the columns of the source. *)
Lemma stage1_implicit_groups (handled : case_insensitive_set_t)
    (cols : list ParsedExpression) :
  forall done from,
  for_each (stage1_implicit_group handled) cols (grouped_columns done from)
  = if forallb is_colref cols
    then Ok (grouped_columns
               (done ++ filter (fun c => negb (ci_find (colref_name c) handled)) cols)
               from)
    else Throw not_colref_error.
Proof.
  induction cols as [|c cols IH]; intros done from.
  - simpl. now rewrite app_nil_r.
  - cbn [for_each forallb filter].
    destruct c as [names a| | | | | |]; cbn [stage1_implicit_group is_colref andb bind];
      try reflexivity.
    cbn [colref_name].
    destruct (ci_find (GetColumnName names) handled); cbn [negb bind].
    + apply IH.
    + replace (push_grouped (grouped_columns done from) (ColumnRefExpression names a))
        with (grouped_columns (done ++ [ColumnRefExpression names a]) from).
      * rewrite IH, <- app_assoc. reflexivity.
      * unfold grouped_columns. read_fields. f_equal.
        rewrite length_app. cbn [List.length]. rewrite positions_app.
        rewrite (Nat.add_comm 1 (List.length done)). reflexivity.
Qed.

End Trees.

(** X6.  The grouping columns of stage 1.  Without an explicit list of rows
    they are the columns of the source whose name is not, up to case, among
    the handled columns, in the order of the source; a column of the source
    that is not a column reference is the internal error, wherever it
    stands.  With an explicit list they are references to the listed rows,
    in order, and the columns of the source are not looked at.  Each
    grouping column is grouped by its position. *)
Theorem stage1_grouping_columns {VO : ValueOps} (ref : PivotRef)
    (all_columns : list ParsedExpression) (handled_columns : case_insensitive_set_t) :
  stage1_groups ref all_columns handled_columns
  = match groups ref with
    | [] =>
        if forallb is_colref all_columns
        then Ok (grouped_columns
                   (filter (fun c => negb (ci_find (colref_name c) handled_columns))
                           all_columns)
                   (source ref))
        else Throw not_colref_error
    | rows => Ok (grouped_columns (map make_colref rows) (source ref))
    end.
Proof.
  unfold stage1_groups. destruct (groups ref) as [|row rows].
  - apply (stage1_implicit_groups handled_columns all_columns [] (source ref)).
  - rewrite (push_grouped_loop make_colref). read_fields.
    unfold grouped_columns. now rewrite length_map.
Qed.

Section StageOneTree.
Context {VO : ValueOps}.

Lemma unaliased_set_alias (e : ParsedExpression) (a : string) :
  unaliased (set_alias e a) = unaliased e.
Proof. now destruct e. Qed.

Lemma stage1_groups_ok (ref : PivotRef) (all_columns : list ParsedExpression)
    (handled_columns : case_insensitive_set_t) (groups0 : SelectNode) :
  stage1_groups ref all_columns handled_columns = Ok groups0 ->
  groups0 = grouped_columns (grouping_columns ref all_columns handled_columns)
                            (source ref).
Proof.
  unfold stage1_groups, grouping_columns. destruct (groups ref) as [|row rows].
  - pose proof (stage1_implicit_groups handled_columns all_columns [] (source ref))
      as Hloop.
    change (grouped_columns [] (source ref))
      with (set_from_table new_SelectNode (source ref)) in Hloop.
    rewrite Hloop.
    destruct (forallb is_colref all_columns); [|discriminate].
    now intros [= <-].
  - rewrite (push_grouped_loop make_colref). read_fields.
    intros [= <-]. unfold grouped_columns. now rewrite length_map.
Qed.

(** Naming the grouping columns changes their aliases only. *)
Lemma stage1_name_groups_unaliased (l : list ParsedExpression) :
  forall group_count renamed bind_state group_count' renamed' bind_state',
  fold_left stage1_name_group l (group_count, renamed, bind_state)
    = (group_count', renamed', bind_state') ->
  exists new,
    renamed' = renamed ++ new /\ map unaliased new = map unaliased l.
Proof.
  induction l as [|e l IH]; intros gc renamed bs gc' renamed' bs' H.
  - simpl in H. injection H as <- <- <-. exists []. now rewrite app_nil_r.
  - cbn [fold_left] in H. unfold stage1_name_group at 2 in H.
    destruct (empty (expr_alias e)); apply IH in H;
      destruct H as (new & -> & Hnew); eexists (_ :: new);
      rewrite <- app_assoc; (split; [reflexivity|]);
      cbn [map]; rewrite Hnew, ?unaliased_set_alias; reflexivity.
Qed.

(** The loop over the pivot expressions of one column. *)
Lemma stage1_pivot_exprs_tree (exprs : list ParsedExpression) :
  forall pivot_count n pivot_count' n' exprs',
  map_accum stage1_pivot_expr exprs (pivot_count, n) = ((pivot_count', n'), exprs') ->
  exists new,
    n' = mkSelectNode (select_list n ++ new) (from_table n) (where_clause n)
           (group_expressions n
            ++ positions (List.length (select_list n) + 1) (List.length exprs)) /\
    map unaliased new = map unaliased exprs /\
    exprs' = references_to new.
Proof.
  induction exprs as [|e exprs IH]; intros pc n pc' n' exprs' H.
  - simpl in H. injection H as <- <- <-. exists [].
    unfold positions. simpl. rewrite !app_nil_r. now rewrite SelectNode_eta.
  - cbn [map_accum] in H. unfold stage1_pivot_expr at 1 in H.
    assert (Hpos : forall (l : list ParsedExpression) (x : ParsedExpression),
              positions (List.length l + 1) (S (List.length exprs))
              = make_constant (Value_INTEGER (List.length l + 1))
                :: positions (List.length (l ++ [x]) + 1) (List.length exprs)).
    { intros l x. rewrite length_app. cbn [List.length].
      change (S (List.length exprs)) with (1 + List.length exprs).
      rewrite positions_app. reflexivity. }
    destruct (empty (expr_alias e));
      match type of H with
      | context [map_accum stage1_pivot_expr exprs ?st] =>
          destruct (map_accum stage1_pivot_expr exprs st) as [[pc1 n1] rest] eqn:E
      end;
      injection H as <- <- <-; apply IH in E;
      destruct E as (new & -> & Hnew & ->); read_fields.
    + exists (set_alias e (internal_name "__internal_pivot_ref" (S pc)) :: new).
      cbn [List.length]. rewrite (Hpos (select_list n) (set_alias e (internal_name "__internal_pivot_ref" (S pc)))).
      rewrite <- !app_assoc. cbn [map]. rewrite Hnew, unaliased_set_alias.
      repeat split.
    + exists (e :: new).
      cbn [List.length]. rewrite (Hpos (select_list n) e).
      rewrite <- !app_assoc. cbn [map]. rewrite Hnew.
      repeat split.
Qed.

(** The loop over the pivot columns. *)
Lemma stage1_pivot_columns_tree (ps : list PivotColumn) :
  forall pivot_count n pivot_count' n' ps',
  map_accum stage1_pivot_column ps (pivot_count, n) = ((pivot_count', n'), ps') ->
  exists new,
    n' = mkSelectNode (select_list n ++ new) (from_table n) (where_clause n)
           (group_expressions n
            ++ positions (List.length (select_list n) + 1)
                         (pivot_expression_count ps)) /\
    map unaliased new = map unaliased (all_pivot_expressions ps) /\
    all_pivot_expressions ps' = references_to new.
Proof.
  induction ps as [|p ps IH]; intros pc n pc' n' ps' H.
  - simpl in H. injection H as <- <- <-. exists [].
    unfold positions. simpl. rewrite !app_nil_r. now rewrite SelectNode_eta.
  - cbn [map_accum] in H. unfold stage1_pivot_column at 1 in H.
    destruct (map_accum stage1_pivot_expr (pivot_expressions p) (pc, n))
      as [[pc1 n1] exprs'] eqn:E1.
    destruct (map_accum stage1_pivot_column ps (pc1, n1)) as [[pc2 n2] rest] eqn:E2.
    injection H as <- <- <-.
    apply stage1_pivot_exprs_tree in E1. destruct E1 as (new1 & -> & Hnew1 & ->).
    apply IH in E2. destruct E2 as (new2 & -> & Hnew2 & Hrest).
    read_fields. exists (new1 ++ new2). repeat split.
    + rewrite <- !app_assoc. f_equal. f_equal.
      rewrite pivot_expression_count_cons, positions_app. f_equal.
      rewrite length_app. f_equal.
      apply (f_equal (@List.length _)) in Hnew1. rewrite !length_map in Hnew1.
      lia.
    + unfold all_pivot_expressions. cbn [map List.concat].
      fold (all_pivot_expressions ps). now rewrite !map_app, Hnew1, Hnew2.
    + unfold all_pivot_expressions. cbn [map List.concat].
      fold (all_pivot_expressions rest). rewrite Hrest.
      unfold set_pivot_expressions. cbn [pivot_expressions].
      unfold references_to. now rewrite map_app.
Qed.

(** The loop over the aggregates. *)
Lemma stage1_aggregates_tree (aggrs : list ParsedExpression) :
  forall aggregate_count bind_state n aggregate_count' bind_state' n',
  fold_left stage1_aggregate aggrs (aggregate_count, bind_state, n)
    = (aggregate_count', bind_state', n') ->
  n' = mkSelectNode (select_list n ++ aggregate_columns aggrs (S aggregate_count))
         (from_table n) (where_clause n) (group_expressions n) /\
  aggregate_names bind_state' = aggregate_names bind_state ++ map expr_alias aggrs.
Proof.
  induction aggrs as [|a aggrs IH]; intros c bs n c' bs' n' H.
  - simpl in H. injection H as <- <- <-. unfold aggregate_columns. simpl.
    rewrite !app_nil_r. now rewrite SelectNode_eta.
  - cbn [fold_left] in H. unfold stage1_aggregate at 2 in H.
    apply IH in H. read_fields. destruct H as [-> ->].
    rewrite <- !app_assoc. split; reflexivity.
Qed.

(** The tree of stage 1 and what stage 1 leaves in the declaration. *)
Lemma PivotStageOne_shape (ref : PivotRef) (all_columns : list ParsedExpression)
    (handled_columns : case_insensitive_set_t) bind_state ref' subquery_stage1 :
  PivotStageOne new_PivotBindState ref all_columns handled_columns
    = Ok (bind_state, ref', subquery_stage1) ->
  exists group_columns pivot_columns,
    subquery_stage1
    = mkSelectNode
        (group_columns ++ pivot_columns ++ aggregate_columns (aggregates ref) 1)
        (source ref) None
        (positions 1 (List.length group_columns + List.length pivot_columns)) /\
    map unaliased group_columns
      = map unaliased (grouping_columns ref all_columns handled_columns) /\
    map unaliased pivot_columns = map unaliased (all_pivot_expressions (pivots ref)) /\
    all_pivot_expressions (pivots ref') = references_to pivot_columns /\
    aggregate_names bind_state = map expr_alias (aggregates ref).
Proof.
  unfold PivotStageOne. intros H. first_call H. rename a into groups0.
  apply stage1_groups_ok in Hcall. subst groups0.
  unfold grouped_columns in H. cbn [select_list from_table where_clause
                                     group_expressions] in H.
  destruct (fold_left stage1_name_group _ (0, [], new_PivotBindState))
    as [[gc renamed] bs1] eqn:E1.
  match type of H with
  | context [map_accum stage1_pivot_column (pivots ref) ?st] =>
      destruct (map_accum stage1_pivot_column (pivots ref) st)
        as [[pc n1] new_pivots] eqn:E2
  end.
  destruct (fold_left stage1_aggregate (aggregates ref) (0, bs1, n1))
    as [[ac bs2] n2] eqn:E3.
  injection H as <- <- <-.
  pose proof (stage1_name_groups _ _ _ _ E1)
    as (new0 & _ & _ & _ & _ & _ & _ & Han & _).
  apply stage1_name_groups_unaliased in E1. destruct E1 as (new & Hr & Hnew).
  simpl in Hr. subst renamed.
  apply stage1_pivot_columns_tree in E2. destruct E2 as (newp & -> & Hnewp & Hrefs).
  apply stage1_aggregates_tree in E3. destruct E3 as [-> Hnames].
  read_fields. exists new, newp. repeat split; try assumption.
  - rewrite <- app_assoc. f_equal.
    assert (Hlen : List.length new
                   = List.length (grouping_columns ref all_columns handled_columns))
      by (apply (f_equal (@List.length _)) in Hnew; now rewrite !length_map in Hnew).
    assert (Hlenp : List.length newp = pivot_expression_count (pivots ref))
      by (apply (f_equal (@List.length _)) in Hnewp;
          now rewrite !length_map, all_pivot_expressions_length in Hnewp).
    rewrite positions_app, <- Hlen, <- Hlenp, (Nat.add_comm 1 (List.length new)).
    reflexivity.
  - rewrite Hnames, Han. reflexivity.
Qed.

End StageOneTree.

(** X7.  The tree of stage 1.  It selects from the source of the
    declaration and has no filter.  Its select list is the grouping columns,
    then the pivot expressions of all pivot columns in order, then the
    aggregates; the first two keep their expressions and may only get an
    alias, the aggregates get the internal aggregate names, numbered from 1.
    The tree is grouped by the positions of the grouping columns and of the
    pivot expressions, and of no aggregate.  What the declaration holds as
    pivot expressions afterwards are references to the aliases of the pivot
    columns of this tree. *)
Theorem PivotStageOne_tree {VO : ValueOps} (ref : PivotRef)
    (all_columns : list ParsedExpression) (handled_columns : case_insensitive_set_t)
    bind_state ref' subquery_stage1 :
  PivotStageOne new_PivotBindState ref all_columns handled_columns
    = Ok (bind_state, ref', subquery_stage1) ->
  let group_count :=
    List.length (grouping_columns ref all_columns handled_columns) in
  let pivot_count := pivot_expression_count (pivots ref) in
  from_table subquery_stage1 = source ref /\
  where_clause subquery_stage1 = None /\
  group_expressions subquery_stage1 = positions 1 (group_count + pivot_count) /\
  map unaliased (firstn (group_count + pivot_count) (select_list subquery_stage1))
    = map unaliased (grouping_columns ref all_columns handled_columns
                     ++ all_pivot_expressions (pivots ref)) /\
  skipn (group_count + pivot_count) (select_list subquery_stage1)
    = aggregate_columns (aggregates ref) 1 /\
  all_pivot_expressions (pivots ref')
    = references_to (firstn pivot_count
                            (skipn group_count (select_list subquery_stage1))).
Proof.
  intros H. apply PivotStageOne_shape in H.
  destruct H as (gcols & pcols & -> & Hg & Hp & Hrefs & _).
  assert (Hlen : List.length gcols
                 = List.length (grouping_columns ref all_columns handled_columns))
    by (apply (f_equal (@List.length _)) in Hg; now rewrite !length_map in Hg).
  assert (Hlenp : List.length pcols = pivot_expression_count (pivots ref))
    by (apply (f_equal (@List.length _)) in Hp;
        now rewrite !length_map, all_pivot_expressions_length in Hp).
  cbn zeta. cbn [from_table where_clause group_expressions select_list].
  rewrite <- Hlen, <- Hlenp.
  assert (Hsplit : gcols ++ pcols ++ aggregate_columns (aggregates ref) 1
                   = (gcols ++ pcols) ++ aggregate_columns (aggregates ref) 1)
    by apply app_assoc.
  repeat split.
  - rewrite Hsplit, <- (length_app gcols pcols), firstn_exact by reflexivity.
    now rewrite !map_app, Hg, Hp.
  - rewrite Hsplit, <- (length_app gcols pcols). now apply skipn_exact.
  - rewrite skipn_exact, firstn_exact by reflexivity. exact Hrefs.
Qed.

Section StageTwoTree.
Context {VO : ValueOps}.

Lemma fold_left_concat {A B S} (f : S -> B -> S) (g : A -> list B) (l : list A) :
  forall s,
  fold_left (fun st x => fold_left f (g x) st) l s
  = fold_left f (List.concat (map g l)) s.
Proof.
  induction l as [|x l IH]; intros s; [reflexivity|].
  cbn [fold_left map List.concat]. now rewrite fold_left_app, IH.
Qed.

(** Lines 166-174: the loop over the pivot expressions. *)
Lemma stage2_pivot_exprs_tree (exprs : list ParsedExpression) :
  forall pivot_count bind_state n,
  fold_left stage2_pivot_expr exprs (pivot_count, bind_state, n)
  = (pivot_count + List.length exprs,
     mkBindState (internal_group_names bind_state) (group_names bind_state)
       (aggregate_names bind_state) (internal_aggregate_names bind_state)
       (internal_pivot_names bind_state
        ++ internal_names "__internal_pivot_name" (S pivot_count) (List.length exprs))
       (internal_map_names bind_state),
     mkSelectNode (select_list n ++ pivot_lists exprs (S pivot_count))
       (from_table n) (where_clause n) (group_expressions n)).
Proof.
  induction exprs as [|e exprs IH]; intros c bs n.
  - unfold pivot_lists, internal_names. simpl.
    rewrite !app_nil_r, Nat.add_0_r, SelectNode_eta. now destruct bs.
  - cbn [fold_left]. unfold stage2_pivot_expr at 2. rewrite IH. read_fields.
    rewrite <- !app_assoc. cbn [List.length]. rewrite Nat.add_succ_r.
    reflexivity.
Qed.

Lemma PivotStageTwo_eq (bind_state : PivotBindState) (ref : PivotRef)
    (subquery_stage1 : SelectNode) :
  PivotStageTwo bind_state ref subquery_stage1
  = (mkBindState (internal_group_names bind_state) (group_names bind_state)
       (aggregate_names bind_state) (internal_aggregate_names bind_state)
       (internal_pivot_names bind_state
        ++ internal_names "__internal_pivot_name" 1
             (pivot_expression_count (pivots ref)))
       (internal_map_names bind_state),
     mkSelectNode (stage2_columns bind_state (all_pivot_expressions (pivots ref)))
       (Some (SubqueryRef subquery_stage1)) None
       (positions 1 (List.length (internal_group_names bind_state)))).
Proof.
  unfold PivotStageTwo.
  rewrite (fold_left_concat stage2_pivot_expr pivot_expressions).
  fold (all_pivot_expressions (pivots ref)).
  rewrite stage2_pivot_exprs_tree, all_pivot_expressions_length.
  change stage2_aggregate
    with (fun n a => push_select n (list_of (make_colref a) a)).
  rewrite (push_select_loop (fun a => list_of (make_colref a) a)).
  change stage2_group
    with (fun n g => push_grouped n (group_reference g g)).
  rewrite (push_grouped_loop (fun g => group_reference g g)).
  read_fields. unfold stage2_columns. now rewrite <- app_assoc.
Qed.

End StageTwoTree.

(** X8.  The tree of stage 2.  It selects from the tree of stage 1 and has
    no filter.  Its select list is a reference to every grouping column
    under its internal name, then [LIST(aggregate)] for every internal
    aggregate name under that name, then [LIST(pivot expression)] for every
    pivot expression of the declaration under the internal pivot-list names
    numbered from 1; it is grouped by the positions of the grouping columns
    only.  The bind state gains the pivot-list names and nothing else: its
    five other vectors of names are as they were. *)
Theorem PivotStageTwo_tree {VO : ValueOps} (bind_state : PivotBindState)
    (ref : PivotRef) (subquery_stage1 : SelectNode) :
  let pivot_count := pivot_expression_count (pivots ref) in
  snd (PivotStageTwo bind_state ref subquery_stage1)
  = mkSelectNode
      (map (fun g => group_reference g g) (internal_group_names bind_state)
       ++ map (fun a => list_of (make_colref a) a)
              (internal_aggregate_names bind_state)
       ++ map (fun en => list_of (fst en) (snd en))
              (combine (all_pivot_expressions (pivots ref))
                       (internal_names "__internal_pivot_name" 1 pivot_count)))
      (Some (SubqueryRef subquery_stage1)) None
      (positions 1 (List.length (internal_group_names bind_state))) /\
  internal_pivot_names (fst (PivotStageTwo bind_state ref subquery_stage1))
  = internal_pivot_names bind_state
    ++ internal_names "__internal_pivot_name" 1 pivot_count /\
  internal_aggregate_names (fst (PivotStageTwo bind_state ref subquery_stage1))
  = internal_aggregate_names bind_state /\
  internal_group_names (fst (PivotStageTwo bind_state ref subquery_stage1))
  = internal_group_names bind_state /\
  group_names (fst (PivotStageTwo bind_state ref subquery_stage1))
  = group_names bind_state /\
  aggregate_names (fst (PivotStageTwo bind_state ref subquery_stage1))
  = aggregate_names bind_state /\
  internal_map_names (fst (PivotStageTwo bind_state ref subquery_stage1))
  = internal_map_names bind_state.
Proof.
  cbn zeta. rewrite PivotStageTwo_eq. cbn [fst snd]. repeat split.
  unfold stage2_columns, pivot_lists. now rewrite all_pivot_expressions_length.
Qed.

Section StageThreeTree.
Context {VO : ValueOps}.

Lemma subscript_out_of_bounds {A} (what : string) (l : list A) (i : nat) :
  List.length l <= i -> subscript what l i = OutOfBounds what.
Proof.
  intros Hle. unfold subscript.
  now rewrite (proj2 (nth_error_None l i) Hle).
Qed.

(** Lines 196-205: the loop over the internal pivot-list names. *)
Lemma stage3_maps_tree (count : nat) :
  forall first bind_state n,
  first <= List.length (internal_aggregate_names bind_state) ->
  first + count <= List.length (internal_pivot_names bind_state) ->
  for_each stage3_map (seq first count) (bind_state, n)
  = if Nat.leb (first + count) (List.length (internal_aggregate_names bind_state))
    then Ok (mkBindState (internal_group_names bind_state) (group_names bind_state)
               (aggregate_names bind_state) (internal_aggregate_names bind_state)
               (internal_pivot_names bind_state)
               (internal_map_names bind_state
                ++ internal_names "__internal_pivot_map" (first + 1) count),
             mkSelectNode (select_list n ++ stage3_maps bind_state first count)
               (from_table n) (where_clause n) (group_expressions n))
    else OutOfBounds "bind_state.internal_aggregate_names[i]".
Proof.
  induction count as [|count IH]; intros first bs n Hfirst Hcount.
  - rewrite Nat.add_0_r, (proj2 (Nat.leb_le _ _) Hfirst).
    unfold stage3_maps, internal_names. simpl.
    rewrite !app_nil_r, SelectNode_eta. now destruct bs.
  - cbn [seq for_each]. unfold stage3_map at 1.
    rewrite (@subscript_nth _ _ (internal_pivot_names bs) first "") by lia.
    cbn [bind].
    destruct (Nat.lt_ge_cases first (List.length (internal_aggregate_names bs)))
      as [Hlt | Hge].
    + rewrite (@subscript_nth _ _ (internal_aggregate_names bs) first "") by lia.
      cbn [bind]. rewrite IH by (read_fields; lia). read_fields.
      replace (first + S count) with (S first + count) by lia.
      destruct (Nat.leb (S first + count)
                        (List.length (internal_aggregate_names bs)));
        [|reflexivity].
      unfold stage3_maps, internal_names. cbn [seq map].
      rewrite <- !app_assoc. cbn [internal_pivot_names internal_aggregate_names].
      reflexivity.
    + rewrite subscript_out_of_bounds by assumption. cbn [bind].
      now rewrite (proj2 (Nat.leb_gt _ _)) by lia.
Qed.

Lemma PivotStageThree_eq (bind_state : PivotBindState) (ref : PivotRef)
    (subquery_stage2 : SelectNode) :
  PivotStageThree bind_state ref subquery_stage2
  = if Nat.leb (List.length (internal_pivot_names bind_state))
                (List.length (internal_aggregate_names bind_state))
    then Ok (mkBindState (internal_group_names bind_state) (group_names bind_state)
               (aggregate_names bind_state) (internal_aggregate_names bind_state)
               (internal_pivot_names bind_state)
               (internal_map_names bind_state
                ++ internal_names "__internal_pivot_map" 1
                     (List.length (internal_pivot_names bind_state))),
             mkSelectNode (stage3_columns bind_state)
               (Some (SubqueryRef subquery_stage2)) None [])
    else OutOfBounds "bind_state.internal_aggregate_names[i]".
Proof.
  unfold PivotStageThree.
  rewrite stage3_maps_tree by (cbn; lia). cbn [Nat.add].
  destruct (Nat.leb _ _); [|reflexivity]. cbn [bind].
  change stage3_group
    with (fun n g => push_select n (group_reference g g)).
  rewrite (push_select_loop (fun g => group_reference g g)).
  read_fields. reflexivity.
Qed.

End StageThreeTree.

(** X9.  Stage 3 pairs the [i]-th pivot list with the [i]-th aggregate
    list.  When there are no more pivot-list names than aggregate names, it
    returns a tree over the tree of stage 2, without filter or grouping,
    whose select list is the grouping columns followed by one
    [MAP(pivot list, aggregate list)] per pivot-list name, under the
    internal map names numbered from 1; aggregates past the number of pivot
    lists are in no map.  When there are more pivot-list names than
    aggregate names, it reads the aggregate names past their end. *)
Theorem PivotStageThree_tree {VO : ValueOps} (bind_state : PivotBindState)
    (ref : PivotRef) (subquery_stage2 : SelectNode) :
  let pivot_names := internal_pivot_names bind_state in
  let aggregate_names := internal_aggregate_names bind_state in
  (List.length pivot_names <= List.length aggregate_names ->
   exists bind_state',
     PivotStageThree bind_state ref subquery_stage2
     = Ok (bind_state',
           mkSelectNode
             (map (fun g => group_reference g g) (internal_group_names bind_state)
              ++ map (fun i => map_of (nth i pivot_names "") (nth i aggregate_names "")
                                      (internal_name "__internal_pivot_map" (i + 1)))
                     (seq 0 (List.length pivot_names)))
             (Some (SubqueryRef subquery_stage2)) None []) /\
     internal_map_names bind_state'
     = internal_map_names bind_state
       ++ internal_names "__internal_pivot_map" 1 (List.length pivot_names)) /\
  (List.length aggregate_names < List.length pivot_names ->
   PivotStageThree bind_state ref subquery_stage2
   = OutOfBounds "bind_state.internal_aggregate_names[i]").
Proof.
  cbn zeta. rewrite PivotStageThree_eq. split; intros H.
  - rewrite (proj2 (Nat.leb_le _ _) H). eexists. split; reflexivity.
  - now rewrite (proj2 (Nat.leb_gt _ _) H).
Qed.

(* ================================================================== *)
(** * Further properties: the whole pivot rewrite *)

Section Pipeline.
Context {VO : ValueOps} {CAT : Catalog}.

Lemma expanded_pivot_expressions (ps : list PivotColumn) :
  map pivot_expressions
      (map (fun pivot => set_entries pivot (expanded_entries pivot)) ps)
  = map pivot_expressions ps.
Proof. rewrite map_map. now apply map_ext. Qed.

Lemma expanded_pivot_entries (ps : list PivotColumn) :
  map entries (map (fun pivot => set_entries pivot (expanded_entries pivot)) ps)
  = map expanded_entries ps.
Proof. rewrite map_map. now apply map_ext. Qed.

Lemma combinations_nil {A} (levels : list (list A)) :
  combinations levels = [] <-> In [] levels.
Proof.
  induction levels as [|es levels IH].
  - simpl. split; [discriminate | tauto].
  - cbn [combinations In]. split.
    + intros H. destruct es as [|e es]; [now left|]. right. apply IH.
      cbn [flat_map] in H. apply app_eq_nil in H. destruct H as [H _].
      now apply map_eq_nil in H.
    + intros [-> | H]; [reflexivity|]. apply IH in H. rewrite H.
      induction es as [|e es IHes]; [reflexivity | exact IHes].
Qed.

Lemma map_snd_combine {A B} (l1 : list A) :
  forall l2 : list B,
  List.length l2 = List.length l1 -> map snd (combine l1 l2) = l2.
Proof.
  induction l1 as [|a l1 IH]; intros [|b l2] Hlen; try discriminate;
    [reflexivity|].
  cbn [combine map snd]. f_equal. apply IH. simpl in Hlen. lia.
Qed.

(** The trees and the names of a rewrite whose first three stages have
    gone through. *)
Lemma BindPivot_stage3_trees (ref : PivotRef) (all_columns : list ParsedExpression)
    bind_state ref' subquery_stage3 pivot_values :
  BindPivot_stage3 ref all_columns
    = Ok (bind_state, ref', subquery_stage3, pivot_values) ->
  exists ref1 handled_columns subquery_stage1 subquery_stage2,
    BindPivot_validate ref = Ok (ref1, handled_columns) /\
    let group_count :=
      List.length (grouping_columns ref all_columns handled_columns) in
    let pivot_count := pivot_expression_count (pivots ref) in
    pivot_values = map element_of (combinations (map expanded_entries (pivots ref))) /\
    from_table subquery_stage1 = source ref /\
    where_clause subquery_stage1 = None /\
    group_expressions subquery_stage1 = positions 1 (group_count + pivot_count) /\
    from_table subquery_stage2 = Some (SubqueryRef subquery_stage1) /\
    where_clause subquery_stage2 = None /\
    group_expressions subquery_stage2 = positions 1 group_count /\
    from_table subquery_stage3 = Some (SubqueryRef subquery_stage2) /\
    where_clause subquery_stage3 = None /\
    group_expressions subquery_stage3 = [] /\
    pivots ref <> [] /\
    pivot_count <= List.length (aggregates ref) /\
    internal_map_names bind_state
      = internal_names "__internal_pivot_map" 1 pivot_count /\
    group_names bind_state
      = map GetName (grouping_columns ref all_columns handled_columns) /\
    List.length (internal_group_names bind_state) = group_count.
Proof.
  unfold BindPivot_stage3. intros H.
  first_call H. destruct a as [ref1 handled].
  first_call H. rename a into pvs.
  first_call H. destruct a as [[bs1 ref2] n1].
  rewrite PivotStageTwo_eq, PivotStageThree_eq in H.
  cbn [internal_pivot_names internal_aggregate_names internal_group_names
       internal_map_names group_names aggregate_names] in H.
  destruct (Nat.leb _ _) eqn:Hbound in H; [|discriminate].
  cbn [bind] in H. injection H as <- <- <- <-.
  exists ref1, handled, n1,
    (mkSelectNode (stage2_columns bs1 (all_pivot_expressions (pivots ref2)))
       (Some (SubqueryRef n1)) None
       (positions 1 (List.length (internal_group_names bs1)))).
  split; [reflexivity|].
  pose proof (validated_pivots _ Hcall) as Href1.
  assert (Hne : pivots ref <> []).
  { intros Hnil. subst ref1. unfold ConstructPivots in Hcall0.
    cbn [set_pivots pivots] in Hcall0. rewrite Hnil in Hcall0. discriminate. }
  assert (Hne1 : pivots ref1 <> []).
  { subst ref1. cbn [set_pivots pivots]. destruct (pivots ref); [easy | discriminate]. }
  rewrite ConstructPivots_elements in Hcall0 by assumption.
  injection Hcall0 as <-.
  assert (Hcount : pivot_expression_count (pivots ref1)
                   = pivot_expression_count (pivots ref)).
  { subst ref1. cbn [set_pivots pivots]. unfold pivot_expression_count.
    now rewrite map_map. }
  assert (Hgroups : grouping_columns ref1 all_columns handled
                    = grouping_columns ref all_columns handled)
    by (subst ref1; reflexivity).
  assert (Hsource : source ref1 = source ref) by (subst ref1; reflexivity).
  assert (Haggr : aggregates ref1 = aggregates ref) by (subst ref1; reflexivity).
  pose proof (PivotStageOne_names _ _ _ Hcall1)
    as (groups0 & gcols & pcols & acols & gc & pc & Hg0 & _ & Hlg & _ & _
        & Hig1 & Hgn1 & Hia1 & Hip1 & Him1 & _ & _ & Hcount2 & _).
  apply stage1_groups_ok in Hg0. subst groups0.
  unfold grouped_columns in Hlg, Hgn1. cbn [select_list] in Hlg, Hgn1.
  apply PivotStageOne_shape in Hcall1.
  destruct Hcall1 as (gcols' & pcols' & -> & Hg' & Hp' & _ & _).
  assert (Hlen : List.length gcols'
                 = List.length (grouping_columns ref all_columns handled)).
  { apply (f_equal (@List.length _)) in Hg'. rewrite !length_map in Hg'.
    now rewrite Hg', Hgroups. }
  assert (Hlenp : List.length pcols' = pivot_expression_count (pivots ref)).
  { apply (f_equal (@List.length _)) in Hp'.
    rewrite !length_map, all_pivot_expressions_length in Hp'.
    now rewrite Hp', Hcount. }
  rewrite Hip1, Hia1, app_nil_l, !internal_names_length in Hbound.
  apply Nat.leb_le in Hbound.
  cbn zeta. cbn [from_table where_clause group_expressions internal_map_names
                 group_names internal_group_names].
  rewrite Hig1, length_map, Hlg, Hgroups, Hlen, Hlenp, Hsource.
  repeat split; try assumption.
  - subst ref1. cbn [set_pivots pivots]. now rewrite expanded_pivot_entries.
  - rewrite Haggr in Hbound. lia.
  - rewrite Him1, Hip1, !app_nil_l, internal_names_length. now rewrite Hcount2, Hcount.
  - now rewrite Hgn1, Hgroups.
Qed.

(** A rewrite that went through: its elements hold one value each. *)
Lemma BindPivot_single_values (ref : PivotRef) (all_columns : list ParsedExpression)
    (subquery_stage4 : SelectNode) :
  BindPivot ref all_columns = Ok subquery_stage4 ->
  exists bind_state ref' subquery_stage3 pivot_values,
    BindPivot_stage3 ref all_columns
      = Ok (bind_state, ref', subquery_stage3, pivot_values) /\
    Forall (fun pv => List.length (values pv) = 1) pivot_values /\
    subquery_stage4
    = mkSelectNode
        (group_columns bind_state
         ++ flat_map (extract_columns (internal_map_names bind_state)) pivot_values)
        (Some (SubqueryRef subquery_stage3)) None [].
Proof.
  unfold BindPivot. intros H. first_call H.
  destruct a as [[[bs ref'] n3] pvs].
  destruct (BindPivot_stage3_sizes _ _ Hcall) as [Hgroups Hsize].
  destruct (PivotStageFour_result bs ref' n3 pvs Hgroups Hsize) as [Hok Hbad].
  exists bs, ref', n3, pvs. split; [reflexivity|].
  destruct (Forall_Exists_dec (fun pv => List.length (values pv) = 1)
              (fun pv => Nat.eq_dec (List.length (values pv)) 1) pvs)
    as [Hall | Hex].
  - split; [assumption|]. rewrite (Hok Hall) in H. now injection H as <-.
  - rewrite (Hbad Hex) in H. discriminate.
Qed.

Lemma extract_column_names (maps : list string) (pivot_values : list PivotValueElement) :
  List.length maps = 1 ->
  Forall (fun pv => List.length (values pv) = 1) pivot_values ->
  map expr_alias (flat_map (extract_columns maps) pivot_values)
  = map name pivot_values.
Proof.
  intros Hmaps. destruct maps as [|m [|m' maps]]; try discriminate.
  induction 1 as [|pv pvs Hpv Hpvs IH]; [reflexivity|].
  cbn [flat_map map]. rewrite map_app, IH. unfold extract_columns.
  destruct (values pv) as [|v [|v' vs]]; try discriminate. reflexivity.
Qed.

End Pipeline.

(** X10.  The tree a pivot rewrite returns has four levels: stage 4
    selects from stage 3, stage 3 from stage 2, stage 2 from stage 1, and
    stage 1 from the source of the declaration.  No level has a filter.
    Stage 1 is grouped by the positions of its grouping columns and pivot
    expressions, stage 2 by the positions of its grouping columns, stages 3
    and 4 are not grouped.  The grouping columns are those of the
    declaration, given the columns its validation has handled. *)
Theorem BindPivot_four_levels {VO : ValueOps} {CAT : Catalog} (ref : PivotRef)
    (all_columns : list ParsedExpression) (subquery_stage4 : SelectNode) :
  BindPivot ref all_columns = Ok subquery_stage4 ->
  exists subquery_stage3 subquery_stage2 subquery_stage1 group_count,
    from_table subquery_stage4 = Some (SubqueryRef subquery_stage3) /\
    from_table subquery_stage3 = Some (SubqueryRef subquery_stage2) /\
    from_table subquery_stage2 = Some (SubqueryRef subquery_stage1) /\
    from_table subquery_stage1 = source ref /\
    where_clause subquery_stage4 = None /\ where_clause subquery_stage3 = None /\
    where_clause subquery_stage2 = None /\ where_clause subquery_stage1 = None /\
    group_expressions subquery_stage4 = [] /\
    group_expressions subquery_stage3 = [] /\
    group_expressions subquery_stage2 = positions 1 group_count /\
    group_expressions subquery_stage1
      = positions 1 (group_count + pivot_expression_count (pivots ref)) /\
    exists checked handled_columns,
      BindPivot_validate ref = Ok (checked, handled_columns) /\
      group_count = List.length (grouping_columns ref all_columns handled_columns).
Proof.
  intros H. apply BindPivot_single_values in H.
  destruct H as (bs & ref' & n3 & pvs & Hstages & _ & ->).
  apply BindPivot_stage3_trees in Hstages.
  destruct Hstages as (ref1 & handled & n1 & n2 & Hvalidate & Htrees).
  cbn zeta in Htrees.
  destruct Htrees as (_ & Hf1 & Hw1 & Hg1 & Hf2 & Hw2 & Hg2 & Hf3 & Hw3 & Hg3 & _).
  exists n3, n2, n1, (List.length (grouping_columns ref all_columns handled)).
  cbn [from_table where_clause group_expressions]. repeat split; try assumption.
  exists ref1, handled. split; [assumption | reflexivity].
Qed.

Lemma PivotStageOne_tree_witness :
  exists bind_state ref' subquery_stage1,
    PivotStageOne new_PivotBindState sales_by_quarter sales_columns
                  ["amount"; "quarter"]
      = Ok (bind_state, ref', subquery_stage1) /\
    group_expressions subquery_stage1 = positions 1 (1 + 1) /\
    skipn (1 + 1) (select_list subquery_stage1)
      = aggregate_columns [sum_amount] 1.
Proof.
  do 3 eexists. split; [vm_compute; reflexivity|].
  split.
  - eapply (fun H => proj1 (proj2 (proj2
              (PivotStageOne_tree sales_by_quarter sales_columns
                                  ["amount"; "quarter"] H)))).
    vm_compute. reflexivity.
  - eapply (fun H => proj1 (proj2 (proj2 (proj2 (proj2
              (PivotStageOne_tree sales_by_quarter sales_columns
                                  ["amount"; "quarter"] H)))))).
    vm_compute. reflexivity.
Defined.

Lemma PivotStageThree_tree_witness :
  (exists bind_state' subquery_stage3,
     PivotStageThree (mkBindState ["g"] ["g"] [""; ""] ["a1"; "a2"] ["p1"] [])
                     sales_by_quarter new_SelectNode
     = Ok (bind_state', subquery_stage3) /\
     internal_map_names bind_state' = ["__internal_pivot_map1"]) /\
  PivotStageThree (mkBindState ["g"] ["g"] [""] ["a1"] ["p1"; "p2"] [])
                  sales_by_quarter new_SelectNode
  = OutOfBounds "bind_state.internal_aggregate_names[i]".
Proof.
  split.
  - destruct (proj1 (PivotStageThree_tree
                       (mkBindState ["g"] ["g"] [""; ""] ["a1"; "a2"] ["p1"] [])
                       sales_by_quarter new_SelectNode))
      as (bind_state' & Hrun & Hmaps).
    + cbn. lia.
    + exists bind_state'. eexists. split; [exact Hrun | exact Hmaps].
  - apply (proj2 (PivotStageThree_tree
                    (mkBindState ["g"] ["g"] [""] ["a1"] ["p1"; "p2"] [])
                    sales_by_quarter new_SelectNode)).
    cbn. lia.
Defined.

Lemma BindPivot_four_levels_witness :
  exists subquery_stage4 subquery_stage3 subquery_stage2 subquery_stage1 group_count,
    BindPivot sales_by_quarter sales_columns = Ok subquery_stage4 /\
    from_table subquery_stage4 = Some (SubqueryRef subquery_stage3) /\
    from_table subquery_stage3 = Some (SubqueryRef subquery_stage2) /\
    from_table subquery_stage2 = Some (SubqueryRef subquery_stage1) /\
    from_table subquery_stage1 = Some (BaseTableRef "sales") /\
    group_expressions subquery_stage2 = positions 1 group_count /\
    group_count = 1.
Proof.
  assert (Hrun : BindPivot sales_by_quarter sales_columns
                 = Ok (match BindPivot sales_by_quarter sales_columns with
                       | Ok n => n
                       | _ => new_SelectNode
                       end))
    by (vm_compute; reflexivity).
  destruct (BindPivot_four_levels sales_by_quarter sales_columns Hrun)
    as (n3 & n2 & n1 & g & H4 & H3 & H2 & H1 & _ & _ & _ & _ & _ & _ & Hg2 & _
        & checked & handled & Hvalidate & Hcount).
  eexists. exists n3, n2, n1, g. split; [exact Hrun|].
  repeat split; try assumption.
  vm_compute in Hvalidate. injection Hvalidate as _ <-. exact Hcount.
Defined.

(** X11.  A pivot rewrite only goes through when some pivot column is left
    without entries, or the pivot columns have one pivot expression between
    them and there is an aggregate: a declaration with several pivot
    expressions and an entry for each column is never rewritten. *)
Theorem BindPivot_one_pivot_expression {VO : ValueOps} {CAT : Catalog}
    (ref : PivotRef) (all_columns : list ParsedExpression)
    (subquery_stage4 : SelectNode) :
  BindPivot ref all_columns = Ok subquery_stage4 ->
  (exists pivot, In pivot (pivots ref) /\ expanded_entries pivot = []) \/
  (pivot_expression_count (pivots ref) = 1 /\ 1 <= List.length (aggregates ref)).
Proof.
  intros H. apply BindPivot_single_values in H.
  destruct H as (bs & ref' & n3 & pvs & Hstages & Hsingle & _).
  destruct (BindPivot_stage3_sizes _ _ Hstages) as [_ Hsize].
  apply BindPivot_stage3_trees in Hstages.
  destruct Hstages as (ref1 & handled & n1 & n2 & _ & Htrees). cbn zeta in Htrees.
  destruct Htrees as (Hpvs & _ & _ & _ & _ & _ & _ & _ & _ & _ & _ & Hbound & Hmaps & _).
  destruct pvs as [|pv pvs].
  - left. symmetry in Hpvs. apply map_eq_nil in Hpvs.
    apply combinations_nil, in_map_iff in Hpvs.
    destruct Hpvs as (pivot & Hempty & Hin). now exists pivot.
  - right. specialize (Hsize pv (or_introl eq_refl)).
    inversion Hsingle as [|? ? Hone _]; subst.
    rewrite Hone, Hmaps, internal_names_length in Hsize. lia.
Qed.

Lemma BindPivot_one_pivot_expression_witness :
  exists subquery_stage4,
    BindPivot sales_by_quarter sales_columns = Ok subquery_stage4 /\
    ((exists pivot, In pivot (pivots sales_by_quarter)
                    /\ expanded_entries pivot = []) \/
     (pivot_expression_count (pivots sales_by_quarter) = 1 /\
      1 <= List.length (aggregates sales_by_quarter))).
Proof.
  eexists. split; [vm_compute; reflexivity|].
  eapply (BindPivot_one_pivot_expression sales_by_quarter sales_columns).
  vm_compute. reflexivity.
Defined.

(** X12.  For a declaration with a pivot column, the enumeration yields no
    element exactly when some pivot column has no entries. *)
Theorem ConstructPivots_no_element {VO : ValueOps} (ref : PivotRef) :
  pivots ref <> [] ->
  (ConstructPivots ref [] 0 empty_element = Ok []
   <-> exists pivot, In pivot (pivots ref) /\ entries pivot = []).
Proof.
  intros Hne. rewrite ConstructPivots_elements by assumption. split.
  - intros H. injection H as H. apply map_eq_nil in H.
    apply combinations_nil, in_map_iff in H.
    destruct H as (pivot & Hempty & Hin). now exists pivot.
  - intros (pivot & Hin & Hempty). f_equal.
    replace (combinations (map entries (pivots ref))) with (@nil (list PivotColumnEntry));
      [reflexivity|].
    symmetry. apply combinations_nil. rewrite <- Hempty. now apply in_map.
Qed.

Lemma ConstructPivots_no_element_witness :
  ConstructPivots
    (pivot_sales [on_column "quarter" [in_entry [Varchar "Q1"] ""];
                  on_column "region" []] [sum_amount])
    [] 0 empty_element
  = Ok [].
Proof.
  apply (ConstructPivots_no_element
           (pivot_sales [on_column "quarter" [in_entry [Varchar "Q1"] ""];
                         on_column "region" []] [sum_amount])).
  - discriminate.
  - exists (on_column "region" []). split; [right; left|]; reflexivity.
Defined.

(** X13.  The columns of a rewritten pivot, by name: the grouping columns
    under the names they had for the user, then one column per combination
    of entries, in the order of the enumeration, under the display name of
    the combination. *)
Theorem BindPivot_column_names {VO : ValueOps} {CAT : Catalog} (ref : PivotRef)
    (all_columns : list ParsedExpression) (subquery_stage4 : SelectNode)
    (ref1 : PivotRef) (handled_columns : case_insensitive_set_t) :
  BindPivot ref all_columns = Ok subquery_stage4 ->
  BindPivot_validate ref = Ok (ref1, handled_columns) ->
  map expr_alias (select_list subquery_stage4)
  = map GetName (grouping_columns ref all_columns handled_columns)
    ++ map (fun combo => name (element_of combo))
           (combinations (map expanded_entries (pivots ref))).
Proof.
  intros H Hvalid. apply BindPivot_single_values in H.
  destruct H as (bs & ref' & n3 & pvs & Hstages & Hsingle & ->).
  destruct (BindPivot_stage3_sizes _ _ Hstages) as [Hgroups Hsize].
  apply BindPivot_stage3_trees in Hstages.
  destruct Hstages as (ref1' & handled & n1 & n2 & Hvalid' & Htrees).
  rewrite Hvalid in Hvalid'. injection Hvalid' as <- <-. cbn zeta in Htrees.
  destruct Htrees as (Hpvs & _ & _ & _ & _ & _ & _ & _ & _ & _ & _ & _ & Hmaps
                      & Hnames & _).
  cbn [select_list]. rewrite map_app. f_equal.
  - unfold group_columns. rewrite map_map.
    change (fun x : string * string =>
              expr_alias (ColumnRefExpression [fst x] (snd x)))
      with (@snd string string).
    now rewrite map_snd_combine, Hnames.
  - rewrite <- (map_map element_of name), <- Hpvs.
    destruct pvs as [|pv rest]; [reflexivity|].
    apply extract_column_names; [|assumption].
    rewrite <- (Hsize pv (or_introl eq_refl)). now inversion Hsingle.
Qed.

Lemma BindPivot_column_names_witness :
  exists subquery_stage4,
    BindPivot sales_by_quarter sales_columns = Ok subquery_stage4 /\
    map expr_alias (select_list subquery_stage4) = ["region"; "Q1"; "Q2"].
Proof.
  eexists. split; [vm_compute; reflexivity|].
  eapply eq_trans;
    [eapply (BindPivot_column_names sales_by_quarter sales_columns);
     vm_compute; reflexivity|].
  vm_compute. reflexivity.
Defined.

(* ================================================================== *)
(** * Further properties: validation of the aggregates and the columns
      a pivot uses *)

Section Validation.
Context {VO : ValueOps} {CAT : Catalog}.

Lemma check_aggregate_result (aggr : ParsedExpression)
    (handled_columns : case_insensitive_set_t) :
  check_aggregate handled_columns aggr
  = match aggregate_error aggr with
    | Some e => Throw e
    | None => Ok (insert_all (referenced_columns aggr) handled_columns)
    end.
Proof.
  unfold check_aggregate, aggregate_error.
  destruct (expr_type aggr); try reflexivity.
  destruct (HasSubquery aggr); [reflexivity|].
  destruct (IsWindow aggr); [reflexivity|].
  rewrite extract_result. now destruct (has_qualified_column aggr).
Qed.

Lemma check_aggregates_result (aggrs : list ParsedExpression) :
  forall handled_columns,
  for_each check_aggregate aggrs handled_columns
  = match first_aggregate_error aggrs with
    | Some e => Throw e
    | None => Ok (insert_all (flat_map referenced_columns aggrs) handled_columns)
    end.
Proof.
  induction aggrs as [|aggr aggrs IH]; intros handled; [reflexivity|].
  cbn [for_each first_aggregate_error flat_map]. rewrite check_aggregate_result.
  destruct (aggregate_error aggr); [reflexivity|]. cbn [bind].
  rewrite IH. destruct (first_aggregate_error aggrs); [reflexivity|].
  now rewrite insert_all_app.
Qed.

Lemma check_pivots_handled (ps : list PivotColumn) :
  forall total handled checked total' handled' checked',
  for_each check_pivot ps (total, handled, checked) = Ok (total', handled', checked') ->
  handled'
  = insert_all (flat_map referenced_columns (all_pivot_expressions ps)) handled.
Proof.
  induction ps as [|p ps IH]; intros t h c t' h' c' H.
  - simpl in H. now injection H as <- <- <-.
  - cbn [for_each] in H. first_call H. destruct a as [[t1 h1] c1].
    apply IH in H. unfold check_pivot in Hcall.
    first_call Hcall. apply expand_pivot_enum_result in Hcall0. subst a.
    rewrite extract_all_result in Hcall.
    cbn [set_entries pivot_expressions] in Hcall.
    destruct (existsb has_qualified_column (pivot_expressions p)); [discriminate|].
    cbn [bind] in Hcall. first_call Hcall. injection Hcall as <- <- <-.
    unfold all_pivot_expressions. cbn [map List.concat].
    fold (all_pivot_expressions ps).
    now rewrite flat_map_app, insert_all_app.
Qed.

Lemma validated_columns (ref ref' : PivotRef) (handled : case_insensitive_set_t) :
  BindPivot_validate ref = Ok (ref', handled) ->
  handled = insert_all (used_columns ref) [].
Proof.
  unfold BindPivot_validate. intros H. first_call H.
  rewrite check_aggregates_result in Hcall.
  destruct (first_aggregate_error (aggregates ref)); [discriminate|].
  injection Hcall as <-. first_call H. destruct a as [[total h] checked].
  destruct (PIVOT_EXPRESSION_LIMIT <=? total)%Z; [discriminate|].
  injection H as _ <-. apply check_pivots_handled in Hcall.
  unfold used_columns. now rewrite flat_map_app, insert_all_app.
Qed.

End Validation.

(** X16.  The aggregates are checked in order and the first one that is
    not acceptable decides the error: an aggregate that is not a function
    call, else one that contains a subquery, else one that contains a
    window function, else one that refers to a qualified column.  When all
    are acceptable, the columns they refer to are added to the set. *)
Theorem aggregates_checked_in_order {VO : ValueOps} {CAT : Catalog}
    (aggrs : list ParsedExpression) (handled_columns : case_insensitive_set_t) :
  for_each check_aggregate aggrs handled_columns
  = match first_aggregate_error aggrs with
    | Some e => Throw e
    | None => Ok (insert_all (flat_map referenced_columns aggrs) handled_columns)
    end /\
  (forall ref all_columns e,
     first_aggregate_error (aggregates ref) = Some e ->
     BindPivot ref all_columns = Throw e).
Proof.
  split; [apply check_aggregates_result|].
  intros ref all_columns e He.
  unfold BindPivot, BindPivot_stage3, BindPivot_validate.
  now rewrite check_aggregates_result, He.
Qed.

(** X17.  When validation passes, a name is found in the set of handled
    columns exactly if it is, up to case, the name of a column that an
    aggregate or a pivot expression refers to.  So a pivot without listed
    rows groups by the columns of the source that the declaration does not
    use, in the order of the source. *)
Theorem validated_handled_columns {VO : ValueOps} {CAT : Catalog}
    (ref ref' : PivotRef) (handled_columns : case_insensitive_set_t) :
  BindPivot_validate ref = Ok (ref', handled_columns) ->
  (forall column_name,
     ci_find column_name handled_columns
     = existsb (ci_equal column_name) (used_columns ref)) /\
  (forall all_columns,
     groups ref = [] ->
     grouping_columns ref all_columns handled_columns
     = filter (fun c => negb (existsb (ci_equal (colref_name c)) (used_columns ref)))
              all_columns).
Proof.
  intros H. apply validated_columns in H. subst handled_columns.
  assert (Hfind : forall column_name,
            ci_find column_name (insert_all (used_columns ref) [])
            = existsb (ci_equal column_name) (used_columns ref))
    by (intros column_name; now rewrite ci_find_insert_all).
  split; [exact Hfind|].
  intros all_columns Hgroups. unfold grouping_columns. rewrite Hgroups.
  apply filter_ext. intros c. now rewrite Hfind.
Qed.

Lemma validated_handled_columns_witness :
  exists ref' handled_columns,
    BindPivot_validate sales_by_quarter = Ok (ref', handled_columns) /\
    grouping_columns sales_by_quarter sales_columns handled_columns
    = [make_colref "region"].
Proof.
  do 2 eexists. split; [vm_compute; reflexivity|].
  eapply eq_trans.
  - eapply (fun H => proj2 (validated_handled_columns sales_by_quarter H)
                       sales_columns eq_refl).
    vm_compute. reflexivity.
  - vm_compute. reflexivity.
Defined.

(** [PIVOT sales ON quarter IN ('Q1') USING amount]: the aggregate is a
    column and no function call. *)
Lemma aggregates_checked_in_order_witness :
  BindPivot (pivot_sales [on_column "quarter" [in_entry [Varchar "Q1"] ""]]
                         [make_colref "amount"])
            sales_columns
  = Throw not_aggregate_error.
Proof.
  apply (proj2 (aggregates_checked_in_order [] [])). reflexivity.
Defined.

(* ================================================================== *)
(** * Further properties: the columns and the names of an UNPIVOT *)

Section UnpivotColumns.
Context {VO : ValueOps} {CAT : Catalog} {BO : BinderOps}.

(** Lines 376-385: the loop over the columns of one star. *)
Lemma star_columns_loop (star_columns : list ParsedExpression) :
  forall new_entries,
  for_each (fun new_entries col =>
              match col with
              | ColumnRefExpression column_names _ =>
                  Ok (new_entries ++
                      [{| entry_values := [Value_VARCHAR (GetColumnName column_names)];
                          star_expr := None;
                          entry_alias := GetColumnName column_names |}])
              | _ => Throw not_colref_star_error
              end)
           star_columns new_entries
  = if forallb is_colref star_columns
    then Ok (new_entries ++ map (fun c => star_entry (colref_name c)) star_columns)
    else Throw not_colref_star_error.
Proof.
  induction star_columns as [|c cs IH]; intros new_entries.
  - simpl. now rewrite app_nil_r.
  - cbn [for_each forallb map].
    destruct c; cbn [is_colref andb bind]; try reflexivity.
    rewrite IH. destruct (forallb is_colref cs); [|reflexivity].
    now rewrite <- app_assoc.
Qed.

(** Lines 371-390. *)
Lemma expand_star_entries (child_binder : StarBinder) (es : list PivotColumnEntry) :
  forall acc new_entries,
  for_each (expand_star_entry child_binder) es acc = Ok new_entries ->
  new_entries = acc ++ flat_map (star_columns_of child_binder) es.
Proof.
  induction es as [|e es IH]; intros acc new_entries H.
  - simpl in H. injection H as <-. now rewrite app_nil_r.
  - cbn [for_each] in H. first_call H. apply IH in H. subst new_entries.
    cbn [flat_map]. rewrite app_assoc. f_equal.
    unfold expand_star_entry in Hcall. unfold star_columns_of.
    destruct (star_expr e) as [star|]; [|now injection Hcall as <-].
    first_call Hcall. rewrite star_columns_loop in Hcall.
    destruct (forallb is_colref a0); [|discriminate]. now injection Hcall as <-.
Qed.

Lemma fold_left_map {A B S} (f : S -> B -> S) (g : A -> B) (l : list A) :
  forall s, fold_left (fun s x => f s (g x)) l s = fold_left f (map g l) s.
Proof. induction l as [|x l IH]; intros s; [reflexivity | apply IH]. Qed.

(** Lines 395-399: the set of the printed values. *)
Lemma unpivot_handled_columns_eq (es : list PivotColumnEntry) :
  unpivot_handled_columns es = insert_all (unpivoted_values es) [].
Proof.
  unfold unpivot_handled_columns, unpivoted_values.
  generalize (@nil string). induction es as [|e es IH]; intros s; [reflexivity|].
  cbn [fold_left flat_map]. rewrite IH, insert_all_app. f_equal.
  unfold insert_all.
  apply (fold_left_map (fun s n => ci_insert n s) ToString).
Qed.

Lemma column_matches_app (a b : list ParsedExpression) (key : string) :
  column_matches (a ++ b) key = column_matches a key || column_matches b key.
Proof. unfold column_matches. apply existsb_app. Qed.

Lemma column_matches_same (cols : list ParsedExpression) (a b : string) :
  ci_equal a b = true -> column_matches cols a = column_matches cols b.
Proof.
  intros H. unfold column_matches. induction cols as [|c cols IH]; simpl;
    [reflexivity|].
  now rewrite IH, (ci_equal_same _ _ _ H).
Qed.

(** Looking a name up in what is left of a set once the names of some
    columns have been erased from it. *)
Lemma ci_find_unmatched (earlier : list ParsedExpression) (x : string)
    (s : case_insensitive_set_t) :
  ci_find x (filter (fun k => negb (column_matches earlier k)) s)
  = ci_find x s && negb (column_matches earlier x).
Proof.
  unfold ci_find. induction s as [|k s IH]; [reflexivity|].
  cbn [filter existsb].
  destruct (column_matches earlier k) eqn:Hk; cbn [negb existsb]; rewrite IH;
    destruct (ci_equal x k) eqn:Hxk; cbn [orb andb]; try reflexivity;
    rewrite (column_matches_same earlier _ _ Hxk), Hk; cbn [negb];
    now rewrite ?andb_false_r.
Qed.

Lemma column_matches_one (c : ParsedExpression) (key : string) :
  column_matches [c] key = ci_equal (colref_name c) key.
Proof. unfold column_matches. simpl. apply orb_false_r. Qed.

Lemma ci_erase_unmatched (earlier : list ParsedExpression) (c : ParsedExpression)
    (s : case_insensitive_set_t) :
  ci_erase (colref_name c) (filter (fun k => negb (column_matches earlier k)) s)
  = filter (fun k => negb (column_matches (earlier ++ [c]) k)) s.
Proof.
  unfold ci_erase. induction s as [|k s IH]; [reflexivity|].
  cbn [filter]. rewrite column_matches_app, column_matches_one.
  destruct (column_matches earlier k); cbn [negb orb filter]; [exact IH|].
  destruct (ci_equal (colref_name c) k); cbn [negb]; now rewrite IH.
Qed.

Lemma ci_erase_absent (x : string) (s : case_insensitive_set_t) :
  ci_find x s = false -> ci_erase x s = s.
Proof.
  unfold ci_find, ci_erase. induction s as [|k s IH]; [reflexivity|].
  cbn [existsb filter]. intros H. apply orb_false_iff in H. destruct H as [Hk Hs].
  rewrite Hk. cbn [negb]. now rewrite IH.
Qed.

Lemma passing_columns_app (unpivoted : list string) (a b : list ParsedExpression) :
  forall earlier,
  passing_columns unpivoted earlier (a ++ b)
  = passing_columns unpivoted earlier a
    ++ passing_columns unpivoted (earlier ++ a) b.
Proof.
  induction a as [|c a IH]; intros earlier.
  - simpl. now rewrite app_nil_r.
  - rewrite <- app_comm_cons. cbn [passing_columns].
    rewrite IH, <- !app_assoc. reflexivity.
Qed.

Lemma unpivoted_columns_app (unpivoted : list string) (a b : list ParsedExpression) :
  forall earlier,
  unpivoted_columns unpivoted earlier (a ++ b)
  = unpivoted_columns unpivoted earlier a
    ++ unpivoted_columns unpivoted (earlier ++ a) b.
Proof.
  induction a as [|c a IH]; intros earlier.
  - simpl. now rewrite app_nil_r.
  - rewrite <- app_comm_cons. cbn [unpivoted_columns].
    rewrite IH, <- !app_assoc. reflexivity.
Qed.

Lemma unpivoted_columns_In (unpivoted : list string) (cols : list ParsedExpression) :
  forall earlier c, In c (unpivoted_columns unpivoted earlier cols) -> In c cols.
Proof.
  induction cols as [|c' cols IH]; intros earlier c H; [contradiction|].
  cbn [unpivoted_columns] in H. apply in_app_or in H. destruct H as [H | H].
  - destruct (passes_through unpivoted earlier c'); [contradiction|].
    destruct H as [<- | []]. now left.
  - right. eapply IH, H.
Qed.

(** Lines 401-415: the loop over the columns of the source, from the
    state it has reached after the columns [earlier]. *)
Lemma split_columns_loop (unpivoted : list string) (front : list ParsedExpression)
    (from : option TableRef) (filter_ : option ParsedExpression)
    (grouped : list ParsedExpression) (cols : list ParsedExpression) :
  forall earlier,
  for_each split_column cols
    (mkSelectNode (front ++ passing_columns unpivoted [] earlier) from filter_ grouped,
     name_pairs (unpivoted_columns unpivoted [] earlier),
     filter (fun k => negb (column_matches earlier k)) (insert_all unpivoted []))
  = if forallb is_colref cols
    then Ok (mkSelectNode (front ++ passing_columns unpivoted [] (earlier ++ cols))
                          from filter_ grouped,
             name_pairs (unpivoted_columns unpivoted [] (earlier ++ cols)),
             filter (fun k => negb (column_matches (earlier ++ cols) k))
                    (insert_all unpivoted []))
    else Throw not_colref_error.
Proof.
  induction cols as [|c cols IH]; intros earlier.
  - simpl. now rewrite !app_nil_r.
  - cbn [for_each forallb].
    destruct c as [names a| | | | | |] eqn:Hc;
      cbn [split_column is_colref andb bind]; try reflexivity.
    rewrite <- Hc.
    change (GetColumnName names) with (colref_name (ColumnRefExpression names a)).
    rewrite <- Hc.
    assert (Hnext : earlier ++ c :: cols = (earlier ++ [c]) ++ cols)
      by (now rewrite <- app_assoc).
    rewrite Hnext, <- IH.
    rewrite ci_find_unmatched, ci_find_insert_all. cbn [ci_find existsb orb].
    rewrite passing_columns_app, unpivoted_columns_app.
    cbn [passing_columns unpivoted_columns app].
    rewrite !app_nil_l, !app_nil_r, <- ci_erase_unmatched.
    assert (Hpass : passes_through unpivoted earlier c
                    = negb (existsb (ci_equal (colref_name c)) unpivoted
                            && negb (column_matches earlier (colref_name c)))).
    { unfold passes_through. rewrite negb_andb, negb_involutive. reflexivity. }
    rewrite <- Hpass.
    destruct (passes_through unpivoted earlier c) eqn:Hthrough; cbn [bind].
    + rewrite ci_erase_absent.
      * unfold push_select. cbn [select_list from_table where_clause group_expressions].
        now rewrite ?app_nil_r, <- ?app_assoc.
      * rewrite ci_find_unmatched, ci_find_insert_all. cbn [ci_find existsb orb].
        symmetry in Hpass. now apply negb_true_iff in Hpass.
    + rewrite app_nil_r. unfold name_pairs. rewrite map_app. cbn [map].
      unfold ci_map_set.
      replace (existsb _ (map _ (unpivoted_columns unpivoted [] earlier)))
        with false; [reflexivity|].
      symmetry. apply not_true_is_false. intros Hex.
      apply existsb_exists in Hex. destruct Hex as (kv & Hin & Hkey).
      apply in_map_iff in Hin. destruct Hin as (c' & <- & Hin).
      apply unpivoted_columns_In in Hin. cbn [fst] in Hkey.
      unfold passes_through in Hthrough. apply orb_false_iff in Hthrough.
      destruct Hthrough as [_ Hmatch].
      assert (column_matches earlier (colref_name c) = true); [|congruence].
      unfold column_matches. apply existsb_exists. exists c'. split; [assumption|].
      now rewrite ci_equal_sym.
Qed.

Lemma insert_all_In (names : list string) :
  forall (s : case_insensitive_set_t) k,
  In k (insert_all names s) -> In k s \/ In k names.
Proof.
  induction names as [|n names IH]; intros s k H; [now left|].
  cbn [insert_all fold_left] in H. apply IH in H. destruct H as [H | H].
  - unfold ci_insert in H. destruct (ci_find n s); [now left|].
    apply in_app_or in H. destruct H as [H | [<- | []]]; [now left|].
    right. now left.
  - right. now right.
Qed.

(** Line 417: nothing is left of the set exactly when every value names a
    column of the source. *)
Lemma unmatched_values (unpivoted : list string) (cols : list ParsedExpression) :
  (forallb (column_matches cols) unpivoted = true ->
   filter (fun k => negb (column_matches cols k)) (insert_all unpivoted []) = []) /\
  (forallb (column_matches cols) unpivoted = false ->
   filter (fun k => negb (column_matches cols k)) (insert_all unpivoted []) <> []).
Proof.
  split.
  - intros Hall.
    destruct (filter _ _) as [|k rest] eqn:Hleft; [reflexivity|].
    assert (Hin : In k (filter (fun k => negb (column_matches cols k))
                               (insert_all unpivoted [])))
      by (rewrite Hleft; now left).
    apply filter_In in Hin. destruct Hin as [Hin Hk].
    apply insert_all_In in Hin. destruct Hin as [[] | Hin].
    rewrite forallb_forall in Hall. rewrite (Hall k Hin) in Hk. discriminate.
  - intros Hsome Hnil.
    assert (Hex : exists v, In v unpivoted /\ column_matches cols v = false).
    { clear Hnil. induction unpivoted as [|v vs IH]; [discriminate|].
      cbn [forallb] in Hsome. destruct (column_matches cols v) eqn:Hv.
      - destruct (IH Hsome) as (w & Hw & Hcw). exists w. split; [now right | assumption].
      - exists v. split; [now left | assumption]. }
    destruct Hex as (v & Hv & Hcv).
    assert (Hfound : ci_find v (insert_all unpivoted []) = true).
    { rewrite ci_find_insert_all. cbn [ci_find existsb orb].
      apply existsb_exists. exists v. split; [assumption | apply ci_equal_refl]. }
    unfold ci_find in Hfound. apply existsb_exists in Hfound.
    destruct Hfound as (k & Hk & Hvk).
    assert (Hin : In k (filter (fun k => negb (column_matches cols k))
                               (insert_all unpivoted []))).
    { apply filter_In. split; [assumption|].
      now rewrite <- (column_matches_same cols _ _ Hvk), Hcv. }
    rewrite Hnil in Hin. contradiction.
Qed.

(** What the name map holds for a value that names a column. *)
Lemma name_pairs_find (unpivoted : list string) (value : string)
    (cols : list ParsedExpression) :
  existsb (ci_equal value) unpivoted = true ->
  forall earlier,
  column_matches earlier value = false ->
  find (fun kv => ci_equal value (fst kv))
       (name_pairs (unpivoted_columns unpivoted earlier cols))
  = option_map (fun c => (colref_name c, colref_name c))
               (find (fun c => ci_equal value (colref_name c)) cols).
Proof.
  intros Hvalue. induction cols as [|c cols IH]; intros earlier Hearlier;
    [reflexivity|].
  cbn [unpivoted_columns find].
  assert (Hnext : ci_equal value (colref_name c) = false ->
                  column_matches (earlier ++ [c]) value = false).
  { intros Hne. rewrite column_matches_app, column_matches_one, Hearlier.
    now rewrite ci_equal_sym, Hne. }
  destruct (passes_through unpivoted earlier c) eqn:Hthrough.
  - rewrite app_nil_l.
    destruct (ci_equal value (colref_name c)) eqn:Hvc; [|now apply IH, Hnext].
    exfalso. unfold passes_through in Hthrough.
    assert (Hsame := Hvc). rewrite ci_equal_sym in Hsame.
    rewrite (column_matches_same earlier _ _ Hsame), Hearlier, orb_false_r in Hthrough.
    apply negb_true_iff in Hthrough.
    apply existsb_exists in Hvalue. destruct Hvalue as (w & Hw & Hvw).
    assert (existsb (ci_equal (colref_name c)) unpivoted = true); [|congruence].
    apply existsb_exists. exists w. split; [assumption|].
    apply ci_equal_Lower. apply ci_equal_Lower in Hvc, Hvw. congruence.
  - change ([c] ++ unpivoted_columns unpivoted (earlier ++ [c]) cols)
      with (c :: unpivoted_columns unpivoted (earlier ++ [c]) cols).
    unfold name_pairs. cbn [map find fst].
    destruct (ci_equal value (colref_name c)) eqn:Hvc; [reflexivity|].
    now apply IH, Hnext.
Qed.

Lemma name_map_lookup (unpivoted : list string) (value : string)
    (cols : list ParsedExpression) :
  existsb (ci_equal value) unpivoted = true ->
  column_matches cols value = true ->
  ci_map_find value (name_pairs (unpivoted_columns unpivoted [] cols))
  = Some (source_spelling cols value).
Proof.
  intros Hvalue Hmatch. unfold ci_map_find, source_spelling.
  rewrite (name_pairs_find _ _ _ Hvalue [] eq_refl).
  destruct (find _ cols) as [c|] eqn:Hfind; [reflexivity|].
  exfalso. unfold column_matches in Hmatch. apply existsb_exists in Hmatch.
  destruct Hmatch as (c & Hc & Heq).
  pose proof (find_none _ _ Hfind c Hc) as Hne. cbn beta in Hne.
  rewrite ci_equal_sym in Hne. congruence.
Qed.

(** Lines 425-434: the generated name of one entry. *)
Lemma generated_name_loop (name_map : case_insensitive_map_t)
    (spelling : string -> string) (vs : list Value) :
  Forall (fun v => ci_map_find (ToString v) name_map = Some (spelling (ToString v))) vs ->
  forall generated_name,
  for_each (append_column_name name_map) vs generated_name
  = Ok (fold_left append_part (map (fun v => spelling (ToString v)) vs) generated_name).
Proof.
  induction 1 as [|v vs Hv Hvs IH]; intros g; [reflexivity|].
  cbn [for_each map fold_left]. unfold append_column_name at 1. rewrite Hv.
  cbn [bind].
  replace ((if negb (empty g) then (g ++ "_")%string else g)
           ++ spelling (ToString v))%string
    with (append_part g (spelling (ToString v))); [apply IH|].
  unfold append_part. destruct g; cbn [empty negb]; [reflexivity|].
  now rewrite string_append_assoc.
Qed.

(** Lines 423-436: the names of the entries. *)
Lemma unpivot_names_loop (unpivoted : list string) (cols : list ParsedExpression)
    (es : list PivotColumnEntry) :
  Forall (fun entry =>
            Forall (fun v => existsb (ci_equal (ToString v)) unpivoted = true /\
                             column_matches cols (ToString v) = true)
                   (entry_values entry)) es ->
  forall unpivot_names_list,
  for_each (unpivot_name (name_pairs (unpivoted_columns unpivoted [] cols)))
           es unpivot_names_list
  = Ok (unpivot_names_list ++ map (unpivot_column_name cols) es).
Proof.
  induction 1 as [|e es He Hes IH]; intros names.
  - simpl. now rewrite app_nil_r.
  - cbn [for_each map]. unfold unpivot_name at 1.
    rewrite (generated_name_loop _ (source_spelling cols)).
    + cbn [bind]. rewrite IH, <- app_assoc. cbn [app].
      unfold unpivot_column_name at 2. now rewrite append_parts_empty.
    + eapply Forall_impl; [|exact He]. intros v [Hv Hm].
      now apply name_map_lookup.
Qed.

(** Lines 363-436, once the stars are expanded. *)
Lemma BindUnpivot_names_eq (child_binder : StarBinder) (ref : PivotRef)
    (all_columns : list ParsedExpression) (unpivot : PivotColumn)
    (rest : list PivotColumn) (new_entries : list PivotColumnEntry) :
  pivots ref = unpivot :: rest ->
  for_each (expand_star_entry child_binder) (entries unpivot) [] = Ok new_entries ->
  BindUnpivot_names child_binder ref all_columns
  = if negb (forallb is_colref all_columns) then Throw not_colref_error
    else if forallb (column_matches all_columns) (unpivoted_values new_entries)
    then Ok (mkSelectNode
               (passing_columns (unpivoted_values new_entries) [] all_columns)
               (source ref) None [],
             set_entries unpivot new_entries,
             map (unpivot_column_name all_columns) new_entries)
    else Throw unmatched_column_error.
Proof.
  intros Hpivots Hstars. unfold BindUnpivot_names.
  rewrite Hpivots. cbn [subscript nth_error bind]. rewrite Hstars. cbn [bind].
  cbn [set_entries entries]. rewrite unpivot_handled_columns_eq.
  pose proof (split_columns_loop (unpivoted_values new_entries) [] (source ref)
                None [] all_columns []) as Hloop.
  cbn [passing_columns unpivoted_columns name_pairs map app] in Hloop.
  rewrite !app_nil_l in Hloop.
  unfold column_matches at 1 in Hloop. cbn [existsb negb] in Hloop.
  replace (filter (fun _ : string => true) (insert_all (unpivoted_values new_entries) []))
    with (insert_all (unpivoted_values new_entries) []) in Hloop
    by (symmetry; apply forallb_filter_id; now apply forallb_forall).
  unfold set_from_table, new_SelectNode. cbn [select_list where_clause group_expressions].
  match goal with
  | |- bind ?c _ = _ =>
      let Hc := fresh in
      assert (Hc : c = _) by exact Hloop; rewrite Hc; clear Hc
  end. destruct (forallb is_colref all_columns); [|reflexivity].
  cbn [negb bind].
  destruct (unmatched_values (unpivoted_values new_entries) all_columns)
    as [Hnone Hsome].
  destruct (forallb (column_matches all_columns) (unpivoted_values new_entries))
    eqn:Hall.
  - rewrite (Hnone eq_refl). rewrite unpivot_names_loop; [reflexivity|].
    apply Forall_forall. intros entry Hentry. apply Forall_forall. intros v Hv.
    assert (Hin : In (ToString v) (unpivoted_values new_entries)).
    { unfold unpivoted_values. apply in_flat_map. exists entry.
      split; [assumption | now apply in_map]. }
    split.
    + apply existsb_exists. exists (ToString v). split; [assumption | apply ci_equal_refl].
    + rewrite forallb_forall in Hall. now apply Hall.
  - specialize (Hsome eq_refl).
    destruct (filter _ _); [contradiction | reflexivity].
Qed.

End UnpivotColumns.

(** X18.  The star entries of an UNPIVOT are replaced, in place and in
    order, by one entry per column of the star: the column name is its only
    value and its alias.  The other entries are kept as they are, and no
    entry holds a star afterwards. *)
Theorem star_entries_expanded {VO : ValueOps} {CAT : Catalog} {BO : BinderOps}
    (child_binder : StarBinder) (es new_entries : list PivotColumnEntry) :
  for_each (expand_star_entry child_binder) es [] = Ok new_entries ->
  new_entries = flat_map (star_columns_of child_binder) es /\
  Forall (fun entry => star_expr entry = None) new_entries.
Proof.
  intros H. apply expand_star_entries in H. cbn [app] in H. subst new_entries.
  split; [reflexivity|].
  apply Forall_forall. intros entry Hin. apply in_flat_map in Hin.
  destruct Hin as (e & _ & Hin). unfold star_columns_of in Hin.
  destruct (star_expr e) as [star|] eqn:Hstar.
  - destruct (ExpandStarExpression child_binder star); try contradiction.
    apply in_map_iff in Hin. now destruct Hin as (c & <- & _).
  - destruct Hin as [<- | []]. exact Hstar.
Qed.

Lemma star_entries_expanded_witness :
  for_each (expand_star_entry (BO := sql_binder) ["id"; "q1"])
           [in_entry [Varchar "x"] "";
            {| entry_values := []; star_expr := Some (StarExpression "");
               entry_alias := "" |}] []
  = Ok [in_entry [Varchar "x"] ""; star_entry "id"; star_entry "q1"] /\
  Forall (fun entry => star_expr entry = None)
         [in_entry [Varchar "x"] ""; star_entry "id"; star_entry "q1"].
Proof.
  split; [reflexivity|].
  apply (star_entries_expanded (BO := sql_binder) ["id"; "q1"]
           [in_entry [Varchar "x"] "";
            {| entry_values := []; star_expr := Some (StarExpression "");
               entry_alias := "" |}]).
  reflexivity.
Defined.

(** X19.  Once the stars are expanded and the columns of the source are
    column references, the first part of an UNPIVOT goes through exactly
    when every value of every entry names, up to case, a column of the
    source; otherwise it ends in the unmatched-column error.  The internal
    error of the name map is never raised. *)
Theorem unpivot_values_name_columns {VO : ValueOps} {CAT : Catalog} {BO : BinderOps}
    (child_binder : StarBinder) (ref : PivotRef)
    (all_columns : list ParsedExpression) (unpivot : PivotColumn)
    (rest : list PivotColumn) (new_entries : list PivotColumnEntry) :
  pivots ref = unpivot :: rest ->
  for_each (expand_star_entry child_binder) (entries unpivot) [] = Ok new_entries ->
  forallb is_colref all_columns = true ->
  is_ok (BindUnpivot_names child_binder ref all_columns)
  = forallb (fun entry =>
               forallb (fun value => column_matches all_columns (ToString value))
                       (entry_values entry))
            new_entries /\
  (is_ok (BindUnpivot_names child_binder ref all_columns) = false ->
   BindUnpivot_names child_binder ref all_columns = Throw unmatched_column_error).
Proof.
  intros Hpivots Hstars Hcols.
  rewrite (BindUnpivot_names_eq _ _ all_columns Hpivots Hstars), Hcols.
  cbn [negb].
  assert (Hsame : forallb (column_matches all_columns) (unpivoted_values new_entries)
                  = forallb (fun entry =>
                               forallb (fun value =>
                                          column_matches all_columns (ToString value))
                                       (entry_values entry))
                            new_entries).
  { unfold unpivoted_values. clear. induction new_entries as [|e es IH];
      [reflexivity|].
    cbn [flat_map forallb]. rewrite forallb_app, IH. f_equal.
    induction (entry_values e) as [|v vs IHv]; [reflexivity|].
    cbn [map forallb]. now rewrite IHv. }
  rewrite <- Hsame.
  destruct (forallb (column_matches all_columns) (unpivoted_values new_entries));
    split; try reflexivity; discriminate.
Qed.

Lemma unpivot_values_name_columns_witness :
  BindUnpivot_names (BO := sql_binder) ["id"; "q1"; "q2"] unknown_column
                    (map make_colref ["id"; "q1"; "q2"])
  = Throw unmatched_column_error.
Proof.
  eapply (unpivot_values_name_columns (BO := sql_binder) ["id"; "q1"; "q2"]
            unknown_column (map make_colref ["id"; "q1"; "q2"]));
    reflexivity.
Defined.

Section PassingColumns.
Context {VO : ValueOps}.

Lemma passing_columns_distinct (unpivoted : list string)
    (cols : list ParsedExpression) :
  forall earlier,
  (forall a c b, cols = a ++ c :: b ->
     column_matches (earlier ++ a) (colref_name c) = false) ->
  passing_columns unpivoted earlier cols
  = filter (fun c => negb (existsb (ci_equal (colref_name c)) unpivoted)) cols.
Proof.
  induction cols as [|c cols IH]; intros earlier Hdistinct; [reflexivity|].
  cbn [passing_columns filter]. unfold passes_through.
  pose proof (Hdistinct [] c cols eq_refl) as Hc. rewrite app_nil_r in Hc.
  rewrite Hc, orb_false_r, IH.
  - now destruct (negb _).
  - intros a c' b ->. rewrite <- app_assoc. apply (Hdistinct (c :: a) c' b).
    reflexivity.
Qed.

End PassingColumns.

(** X20.  The select node of an UNPIVOT, before the name column and the
    value columns are added: it selects from the source, has no filter and
    no grouping, and its select list is the columns of the source that pass
    through, in the order of the source.  A column passes through when no
    value of an entry names it or when a column before it has its name, up
    to case; so when the names of the source are distinct up to case, the
    columns that pass through are those that no value names. *)
Theorem unpivot_passing_columns {VO : ValueOps} {CAT : Catalog} {BO : BinderOps}
    (child_binder : StarBinder) (ref : PivotRef)
    (all_columns : list ParsedExpression) (unpivot : PivotColumn)
    (rest : list PivotColumn) (new_entries : list PivotColumnEntry)
    select_node unpivot' unpivot_names_list :
  pivots ref = unpivot :: rest ->
  for_each (expand_star_entry child_binder) (entries unpivot) [] = Ok new_entries ->
  BindUnpivot_names child_binder ref all_columns
    = Ok (select_node, unpivot', unpivot_names_list) ->
  unpivot' = set_entries unpivot new_entries /\
  select_node
  = mkSelectNode (passing_columns (unpivoted_values new_entries) [] all_columns)
                 (source ref) None [] /\
  ((forall a c b, all_columns = a ++ c :: b ->
      column_matches a (colref_name c) = false) ->
   select_list select_node
   = filter (fun c => negb (existsb (ci_equal (colref_name c))
                                    (unpivoted_values new_entries)))
            all_columns).
Proof.
  intros Hpivots Hstars.
  rewrite (BindUnpivot_names_eq _ _ all_columns Hpivots Hstars).
  destruct (forallb is_colref all_columns); [|discriminate]. cbn [negb].
  destruct (forallb (column_matches all_columns) (unpivoted_values new_entries));
    [|discriminate].
  intros [= <- <- _]. repeat split.
  intros Hdistinct. cbn [select_list]. now apply passing_columns_distinct.
Qed.

Lemma unpivot_passing_columns_witness :
  exists select_node unpivot' unpivot_names_list,
    BindUnpivot_names (BO := sql_binder) ["id"; "q1"; "q2"] unpivot_quarters
                      (map make_colref ["id"; "Q1"; "q2"; "q1"])
      = Ok (select_node, unpivot', unpivot_names_list) /\
    select_node
    = mkSelectNode [make_colref "id"; make_colref "q1"]
                   (Some (BaseTableRef "t")) None [].
Proof.
  do 3 eexists. split; [vm_compute; reflexivity|].
  pose (unpivot := {| pivot_expressions := []; column_unpivot_names := ["quarter"];
                      entries := [in_entry [Varchar "q1"] ""; in_entry [Varchar "q2"] ""];
                      pivot_enum := "" |}).
  assert (H1 : pivots unpivot_quarters = unpivot :: []) by reflexivity.
  assert (H2 : for_each (expand_star_entry (BO := sql_binder) ["id"; "q1"; "q2"])
                        (entries unpivot) []
               = Ok (entries unpivot)) by reflexivity.
  eapply eq_trans.
  - eapply (fun H3 =>
              proj1 (proj2 (unpivot_passing_columns (BO := sql_binder)
                              ["id"; "q1"; "q2"] unpivot_quarters
                              (map make_colref ["id"; "Q1"; "q2"; "q1"])
                              H1 H2 H3))).
    vm_compute. reflexivity.
  - reflexivity.
Defined.

(** X21.  The names in the name column of an UNPIVOT, one per entry in
    order: the alias of the entry when it has one; otherwise the names of
    the columns its values name, as the source spells them (the first
    column of that name, up to case), joined with underscores. *)
Theorem unpivot_names_of_entries {VO : ValueOps} {CAT : Catalog} {BO : BinderOps}
    (child_binder : StarBinder) (ref : PivotRef)
    (all_columns : list ParsedExpression) select_node unpivot unpivot_names_list :
  BindUnpivot_names child_binder ref all_columns
    = Ok (select_node, unpivot, unpivot_names_list) ->
  unpivot_names_list = map (unpivot_column_name all_columns) (entries unpivot) /\
  (forall entry, In entry (entries unpivot) -> empty (entry_alias entry) = false ->
     unpivot_column_name all_columns entry = Value_VARCHAR (entry_alias entry)) /\
  (forall entry value, In entry (entries unpivot) ->
     empty (entry_alias entry) = true -> entry_values entry = [value] ->
     unpivot_column_name all_columns entry
     = Value_VARCHAR (source_spelling all_columns (ToString value))).
Proof.
  intros H. split; [|split].
  - unfold BindUnpivot_names in H.
    destruct (pivots ref) as [|unpivot0 rest] eqn:Hpivots; [discriminate|].
    cbn [subscript nth_error bind] in H.
    destruct (for_each (expand_star_entry child_binder) (entries unpivot0) [])
      as [new_entries| |] eqn:Hstars; try discriminate.
    assert (Heq := BindUnpivot_names_eq child_binder ref all_columns Hpivots Hstars).
    unfold BindUnpivot_names in Heq. rewrite Hpivots in Heq.
    cbn [subscript nth_error bind] in Heq. rewrite Hstars in Heq.
    rewrite Heq in H.
    destruct (forallb is_colref all_columns); [|discriminate]. cbn [negb] in H.
    destruct (forallb (column_matches all_columns) (unpivoted_values new_entries));
      [|discriminate].
    now injection H as _ <- <-.
  - intros entry _ Halias. unfold unpivot_column_name. now rewrite Halias.
  - intros entry value _ Halias Hvalue. unfold unpivot_column_name.
    rewrite Halias, Hvalue. cbn [negb map]. f_equal.
    now destruct (source_spelling all_columns (ToString value)).
Qed.

Lemma unpivot_names_of_entries_witness :
  exists select_node unpivot unpivot_names_list,
    BindUnpivot_names (BO := sql_binder) wide_columns mixed_case_entries
                      (map make_colref wide_columns)
    = Ok (select_node, unpivot, unpivot_names_list) /\
    unpivot_names_list = [Varchar "q1"; Varchar "q2_q3"; Varchar "last"].
Proof.
  do 3 eexists. split; [vm_compute; reflexivity|].
  eapply eq_trans.
  - eapply (fun H => proj1 (unpivot_names_of_entries (BO := sql_binder)
                              wide_columns mixed_case_entries
                              (map make_colref wide_columns) H)).
    vm_compute. reflexivity.
  - vm_compute. reflexivity.
Defined.

(* ================================================================== *)
(** * Further properties: the name column and the value columns of an
      UNPIVOT *)

Section UnpivotValues.
Context {VO : ValueOps} {CAT : Catalog} {BO : BinderOps}.

(** Lines 441-443 at one value position. *)
Lemma unpivot_position_values (v_idx : nat) (es : list PivotColumnEntry) :
  forall expressions result,
  for_each (fun expressions entry =>
              value <- subscript "entry.values[v_idx]" (entry_values entry) v_idx ;;
              Ok (expressions ++ [make_colref (ToString value)]))
           es expressions
  = Ok result ->
  result
  = expressions
    ++ map (fun entry =>
              make_colref (ToString (nth v_idx (entry_values entry) (Value_VARCHAR ""))))
           es.
Proof.
  induction es as [|e es IH]; intros expressions result H.
  - simpl in H. injection H as <-. now rewrite app_nil_r.
  - cbn [for_each] in H. first_call H. apply IH in H. subst result.
    first_call Hcall. injection Hcall as <-. unfold subscript in Hcall0.
    destruct (nth_error (entry_values e) v_idx) as [value|] eqn:Hnth;
      [|discriminate].
    injection Hcall0 as <-. cbn [map].
    rewrite (nth_error_nth _ _ (Value_VARCHAR "") Hnth), <- app_assoc.
    reflexivity.
Qed.

(** Lines 437-445: the loop over the value positions. *)
Lemma unpivot_positions_values (es : list PivotColumnEntry) (count : nat) :
  forall first unpivot_expressions result,
  for_each (fun unpivot_expressions v_idx =>
              expressions <- unpivot_position es v_idx ;;
              Ok (unpivot_expressions ++ [expressions]))
           (seq first count) unpivot_expressions
  = Ok result ->
  result
  = unpivot_expressions
    ++ map (fun v_idx =>
              map (fun entry =>
                     make_colref (ToString (nth v_idx (entry_values entry)
                                                (Value_VARCHAR ""))))
                  es)
           (seq first count).
Proof.
  induction count as [|count IH]; intros first acc result H.
  - simpl in H. injection H as <-. now rewrite app_nil_r.
  - cbn [seq for_each] in H. first_call H. apply IH in H. subst result.
    first_call Hcall. injection Hcall as <-.
    unfold unpivot_position in Hcall0. apply unpivot_position_values in Hcall0.
    subst a0. now rewrite <- app_assoc.
Qed.

Lemma unpivot_expressions_of_values (es : list PivotColumnEntry)
    (unpivot_expressions : list (list ParsedExpression)) :
  unpivot_expressions_of es = Ok unpivot_expressions ->
  unpivot_expressions = value_lists es.
Proof.
  unfold unpivot_expressions_of, value_lists. intros H.
  destruct es as [|first_entry rest]; [discriminate|].
  cbn [subscript nth_error bind] in H.
  apply unpivot_positions_values in H. exact H.
Qed.

Lemma value_lists_length (es : list PivotColumnEntry) :
  List.length (value_lists es) = match es with
                                 | [] => 0
                                 | first_entry :: _ => arity first_entry
                                 end.
Proof.
  unfold value_lists. destruct es; [reflexivity|].
  now rewrite length_map, length_seq.
Qed.

(** Lines 447-480, once the value lists are there. *)
Lemma BindUnpivot_tail (child_binder : StarBinder) (ref : PivotRef)
    (all_columns : list ParsedExpression) (filter_ : option ParsedExpression)
    select_node unpivot unpivot_names_list unpivot_expressions :
  BindUnpivot_names child_binder ref all_columns
    = Ok (select_node, unpivot, unpivot_names_list) ->
  unpivot_expressions_of (entries unpivot) = Ok unpivot_expressions ->
  BindUnpivot child_binder ref all_columns filter_
  = match column_unpivot_names unpivot with
    | [] => OutOfBounds "unpivot.unpivot_names[0]"
    | name_alias :: _ =>
        if Nat.eqb (List.length (unpivot_names ref)) (List.length unpivot_expressions)
        then Ok (mkSelectNode
                   (select_list select_node
                    ++ FunctionExpression "unnest"
                         [make_constant (Value_LIST unpivot_names_list)] name_alias
                       :: map (unnest_value ref unpivot_expressions)
                              (seq 0 (List.length unpivot_expressions)))
                   (from_table select_node) (where_clause select_node)
                   (group_expressions select_node),
                 if include_nulls ref then filter_
                 else conjoin filter_
                        (map (fun i => is_not_null (unnest_name ref i))
                             (seq 0 (List.length unpivot_expressions))))
        else Throw name_count_error
    end.
Proof.
  intros Hnames Hvalues. unfold BindUnpivot. rewrite Hnames. cbn [bind].
  rewrite Hvalues. cbn [bind].
  destruct (column_unpivot_names unpivot) as [|name_alias others]; [reflexivity|].
  cbn [subscript nth_error bind].
  destruct (Nat.eqb _ _) eqn:Hsize; [|reflexivity]. cbn [negb].
  apply Nat.eqb_eq in Hsize.
  rewrite unnest_value_columns by (auto; lia). read_fields.
  now rewrite <- app_assoc.
Qed.

End UnpivotValues.

(** X22.  The value columns of an UNPIVOT list, for every value position
    of the first entry, that value of every entry in the order of the
    entries, as a reference to the column of that name: there are as many
    lists as the first entry has values and each holds one reference per
    entry. *)
Theorem unpivot_value_lists {VO : ValueOps} (es : list PivotColumnEntry)
    (unpivot_expressions : list (list ParsedExpression)) :
  unpivot_expressions_of es = Ok unpivot_expressions ->
  exists first_entry rest,
    es = first_entry :: rest /\
    unpivot_expressions
    = map (fun v_idx =>
             map (fun entry =>
                    make_colref (ToString (nth v_idx (entry_values entry)
                                               (Value_VARCHAR ""))))
                 es)
          (seq 0 (arity first_entry)) /\
    List.length unpivot_expressions = arity first_entry /\
    Forall (fun expressions => List.length expressions = List.length es)
           unpivot_expressions.
Proof.
  intros H. destruct es as [|first_entry rest]; [discriminate|].
  apply unpivot_expressions_of_values in H. subst unpivot_expressions.
  exists first_entry, rest. split; [reflexivity|]. split; [reflexivity|]. split.
  - exact (value_lists_length (first_entry :: rest)).
  - apply Forall_forall. intros expressions Hin. unfold value_lists in Hin.
    apply in_map_iff in Hin. destruct Hin as (v_idx & <- & _).
    now rewrite length_map.
Qed.

Lemma unpivot_value_lists_witness :
  exists unpivot_expressions,
    unpivot_expressions_of [in_entry [Varchar "q1"; Varchar "q2"] "";
                            in_entry [Varchar "q3"; Varchar "q4"] ""]
      = Ok unpivot_expressions /\
    unpivot_expressions
    = [[make_colref "q1"; make_colref "q3"]; [make_colref "q2"; make_colref "q4"]].
Proof.
  eexists. split; [vm_compute; reflexivity|].
  destruct (unpivot_value_lists
              [in_entry [Varchar "q1"; Varchar "q2"] "";
               in_entry [Varchar "q3"; Varchar "q4"] ""]
              (unpivot_expressions :=
                 [[make_colref "q1"; make_colref "q3"];
                  [make_colref "q2"; make_colref "q4"]]) eq_refl)
    as (first_entry & rest & _ & Heq & _).
  reflexivity.
Defined.

(** X23.  What [BindUnpivot] does once the names and the value lists are
    there.  A pivot column without a name for the name column makes it read
    past the end of the names.  Otherwise the number of value names of the
    declaration must be the number of value lists, or the call ends in the
    name-count error.  When it is, the select list is the columns that pass
    through, then [UNNEST] of the constant list of the entry names under
    the first name of the pivot column, then the value columns; source,
    filter and grouping of the select node are left as they were. *)
Theorem BindUnpivot_name_column {VO : ValueOps} {CAT : Catalog} {BO : BinderOps}
    (child_binder : StarBinder) (ref : PivotRef)
    (all_columns : list ParsedExpression) (filter_ : option ParsedExpression)
    select_node unpivot unpivot_names_list unpivot_expressions :
  BindUnpivot_names child_binder ref all_columns
    = Ok (select_node, unpivot, unpivot_names_list) ->
  unpivot_expressions_of (entries unpivot) = Ok unpivot_expressions ->
  (column_unpivot_names unpivot = [] ->
   BindUnpivot child_binder ref all_columns filter_
   = OutOfBounds "unpivot.unpivot_names[0]") /\
  (forall name_alias others,
     column_unpivot_names unpivot = name_alias :: others ->
     (List.length (unpivot_names ref) <> List.length unpivot_expressions ->
      BindUnpivot child_binder ref all_columns filter_ = Throw name_count_error) /\
     (List.length (unpivot_names ref) = List.length unpivot_expressions ->
      exists filter',
        BindUnpivot child_binder ref all_columns filter_
        = Ok (mkSelectNode
                (select_list select_node
                 ++ FunctionExpression "unnest"
                      [make_constant (Value_LIST unpivot_names_list)] name_alias
                    :: map (unnest_value ref unpivot_expressions)
                           (seq 0 (List.length unpivot_expressions)))
                (from_table select_node) (where_clause select_node)
                (group_expressions select_node),
              filter'))).
Proof.
  intros Hnames Hvalues.
  rewrite (BindUnpivot_tail _ _ _ filter_ Hnames Hvalues). split.
  - now intros ->.
  - intros name_alias others ->. split; intros Hsize.
    + now rewrite (proj2 (Nat.eqb_neq _ _) Hsize).
    + rewrite (proj2 (Nat.eqb_eq _ _) Hsize). eexists. reflexivity.
Qed.

Lemma BindUnpivot_name_column_witness :
  exists filter',
  BindUnpivot (BO := sql_binder) wide_columns longer_second_entry
              (map make_colref wide_columns) None
  = Ok (mkSelectNode
          [make_colref "id";
           FunctionExpression "unnest"
             [make_constant (List [Varchar "q1"; Varchar "q2_q3"])] "quarter";
           FunctionExpression "unnest"
             [FunctionExpression "list_value" [make_colref "q1"; make_colref "q2"] ""]
             "amount"]
          (Some (BaseTableRef "wide")) None [],
        filter').
Proof.
  destruct (fun H1 H2 =>
              proj2 (BindUnpivot_name_column (BO := sql_binder) wide_columns
                       longer_second_entry (map make_colref wide_columns) None
                       (select_node := mkSelectNode [make_colref "id"]
                                         (Some (BaseTableRef "wide")) None [])
                       (unpivot := {| pivot_expressions := [];
                                      column_unpivot_names := ["quarter"];
                                      entries := [in_entry [Varchar "q1"] "";
                                                  in_entry [Varchar "q2"; Varchar "q3"] ""];
                                      pivot_enum := "" |})
                       (unpivot_names_list := [Varchar "q1"; Varchar "q2_q3"])
                       (unpivot_expressions := [[make_colref "q1"; make_colref "q2"]])
                       H1 H2) "quarter" [] eq_refl)
    as [_ Hok]; [reflexivity | reflexivity |].
  destruct (Hok eq_refl) as (filter' & Hrun). exists filter'. rewrite Hrun.
  reflexivity.
Defined.

(* ================================================================== *)
(** * Further properties: the recursion of the enumerator and the check
      of an IN list *)

(** X24.  A call of [ConstructPivots] at an index in range keeps the
    elements it is given and appends one element per combination of the
    entries of the pivot columns from that index on, depth first.  Every
    appended element extends [current_value]: its values are those of
    [current_value] followed by the values of the combination, its name is
    that of [current_value] with the level names appended. *)
Theorem ConstructPivots_appends {VO : ValueOps} (ref : PivotRef)
    (pivot_values : list PivotValueElement) (pivot_idx : nat)
    (current_value : PivotValueElement) :
  pivot_idx < List.length (pivots ref) ->
  ConstructPivots ref pivot_values pivot_idx current_value
  = Ok (pivot_values
        ++ map (fun combo =>
                  {| values := values current_value
                               ++ List.concat (map entry_values combo);
                     name := fold_left append_part (map level_name combo)
                                       (name current_value) |})
               (combinations (map entries (skipn pivot_idx (pivots ref))))).
Proof.
  intros Hlt. unfold ConstructPivots. rewrite ConstructPivots_from_eq.
  - do 2 f_equal. apply map_ext. intros combo. apply extend_along.
  - intros Hnil. apply (f_equal (@List.length _)) in Hnil.
    rewrite length_skipn in Hnil. simpl in Hnil. lia.
Qed.

Lemma ConstructPivots_appends_witness :
  ConstructPivots quarters_by_region [empty_element] 1
                  (@mkElement sql_values [Varchar "Q1"] "Q1")
  = Ok [empty_element;
        {| values := [Varchar "Q1"; Varchar "A"]; name := "Q1_north" |};
        {| values := [Varchar "Q1"; Varchar "B"]; name := "Q1_B" |}].
Proof.
  eapply eq_trans;
    [apply (ConstructPivots_appends quarters_by_region [empty_element]
              (pivot_idx := 1) (@mkElement sql_values [Varchar "Q1"] "Q1"));
     cbn; lia
    | reflexivity].
Defined.

(** X25.  The IN list of a pivot column is accepted exactly when every
    entry has as many values as the column has pivot expressions and no
    entry has the key of an entry before it.  When it is not, the check
    ends in the duplicate-value error or in the inconsistent-rows error; it
    reads nothing out of bounds. *)
Theorem in_list_accepted {VO : ValueOps} (pivot : PivotColumn) :
  (is_ok (for_each (check_entry pivot) (entries pivot) []) = true
   <-> consistent_rows pivot /\ ~ clashes [] (entries pivot)) /\
  (forall e, for_each (check_entry pivot) (entries pivot) [] = Throw e ->
     e = duplicate_value_error \/ e = inconsistent_rows_error) /\
  (forall w, for_each (check_entry pivot) (entries pivot) [] <> OutOfBounds w).
Proof.
  pose proof (check_entries_outcome pivot (entries pivot) []) as Hout.
  split; [|split].
  - split.
    + intros Hok.
      destruct (for_each (check_entry pivot) (entries pivot) []) as [seen| |] eqn:Hrun;
        try discriminate.
      pose proof (check_entries_consistent _ _ _ Hrun) as Hrows.
      split; [exact Hrows|]. intros Hclash.
      destruct (check_entries_result pivot Hrows []) as [Hdup _].
      rewrite (Hdup Hclash) in Hrun. discriminate.
    + intros [Hrows Hfree].
      destruct (check_entries_result pivot Hrows []) as [_ Hpass].
      now rewrite (Hpass Hfree).
  - intros e He. now rewrite He in Hout.
  - intros w Hw. now rewrite Hw in Hout.
Qed.

(* ================================================================== *)
(** * Further properties: what is read in bounds *)

Section InBounds.
Context {VO : ValueOps} {CAT : Catalog}.
Hypothesis GetType_in_bounds : forall type_name w, GetType type_name <> OutOfBounds w.

Lemma check_pivots_in_bounds (ps : list PivotColumn) :
  forall st w, for_each check_pivot ps st <> OutOfBounds w.
Proof.
  induction ps as [|p ps IH]; intros [[total handled] checked] w; [discriminate|].
  cbn [for_each]. unfold check_pivot at 1. unfold expand_pivot_enum.
  destruct (negb (empty (pivot_enum p))).
  - destruct (GetType (pivot_enum p)) as [[enum_values|other]| |] eqn:Htype;
      cbn [bind]; try discriminate.
    + rewrite extract_all_result.
      destruct (existsb has_qualified_column _); [discriminate|]. cbn [bind].
      match goal with
      | |- context [for_each (check_entry ?q) ?es []] =>
          pose proof (check_entries_outcome q es []) as Hout;
          destruct (for_each (check_entry q) es []); cbn [bind];
          [apply IH | discriminate | contradiction]
      end.
    + now apply GetType_in_bounds in Htype.
  - cbn [bind]. rewrite extract_all_result.
    destruct (existsb has_qualified_column _); [discriminate|]. cbn [bind].
    pose proof (check_entries_outcome p (entries p) []) as Hout.
    destruct (for_each (check_entry p) (entries p) []); cbn [bind];
      [apply IH | discriminate | contradiction].
Qed.

Lemma BindPivot_validate_in_bounds (ref : PivotRef) (w : string) :
  BindPivot_validate ref <> OutOfBounds w.
Proof.
  unfold BindPivot_validate. rewrite check_aggregates_result.
  destruct (first_aggregate_error (aggregates ref)); [discriminate|]. cbn [bind].
  match goal with
  | |- context [for_each check_pivot ?ps ?st] =>
      pose proof (check_pivots_in_bounds ps st) as Hin;
      destruct (for_each check_pivot ps st) as [[[total handled] checked]| |w']
  end; cbn [bind]; try discriminate.
  - destruct (PIVOT_EXPRESSION_LIMIT <=? total)%Z; discriminate.
  - now destruct (Hin w').
Qed.

Lemma PivotStageOne_in_bounds (bind_state : PivotBindState) (ref : PivotRef)
    (all_columns : list ParsedExpression) (handled_columns : case_insensitive_set_t)
    (w : string) :
  PivotStageOne bind_state ref all_columns handled_columns <> OutOfBounds w.
Proof.
  unfold PivotStageOne.
  assert (Hgroups : forall w', stage1_groups ref all_columns handled_columns
                               <> OutOfBounds w').
  { intros w'. unfold stage1_groups. destruct (groups ref); [|discriminate].
    pose proof (stage1_implicit_groups handled_columns all_columns [] (source ref))
      as Hloop.
    change (grouped_columns [] (source ref))
      with (set_from_table new_SelectNode (source ref)) in Hloop.
    rewrite Hloop. destruct (forallb is_colref all_columns); discriminate. }
  destruct (stage1_groups ref all_columns handled_columns) as [groups0| |w'];
    cbn [bind]; [|discriminate | now destruct (Hgroups w')].
  destruct (fold_left stage1_name_group _ _) as [[gc renamed] bs1].
  destruct (map_accum stage1_pivot_column _ _) as [[pc n1] new_pivots].
  destruct (fold_left stage1_aggregate _ _) as [[ac bs2] n2].
  discriminate.
Qed.

End InBounds.

(** X26.  A pivot rewrite of a declaration with a pivot column and no
    more pivot expressions than aggregates reads nothing out of bounds (the
    assertions aside, and the catalog being taken not to): it returns its
    tree or throws. *)
Theorem BindPivot_in_bounds {VO : ValueOps} {CAT : Catalog} (ref : PivotRef)
    (all_columns : list ParsedExpression) :
  (forall type_name w, GetType type_name <> OutOfBounds w) ->
  pivots ref <> [] ->
  pivot_expression_count (pivots ref) <= List.length (aggregates ref) ->
  forall w, BindPivot ref all_columns <> OutOfBounds w.
Proof.
  intros Hcatalog Hpivots Hcount w.
  destruct (BindPivot_stage3 ref all_columns)
    as [[[[bs ref'] n3] pvs]| |w'] eqn:Hstages.
  - destruct (BindPivot_stage3_sizes _ _ Hstages) as [Hgroups Hsize].
    destruct (PivotStageFour_result bs ref' n3 pvs Hgroups Hsize) as [Hok Hbad].
    unfold BindPivot. rewrite Hstages. cbn [bind].
    destruct (Forall_Exists_dec (fun pv => List.length (values pv) = 1)
                (fun pv => Nat.eq_dec (List.length (values pv)) 1) pvs)
      as [Hall | Hex].
    + rewrite (Hok Hall). discriminate.
    + rewrite (Hbad Hex). discriminate.
  - unfold BindPivot. rewrite Hstages. discriminate.
  - exfalso. unfold BindPivot_stage3 in Hstages.
    destruct (BindPivot_validate ref) as [[ref1 handled]| |w1] eqn:Hvalid;
      cbn [bind] in Hstages; try discriminate;
      [|now apply (BindPivot_validate_in_bounds Hcatalog) in Hvalid].
    pose proof (validated_pivots _ Hvalid) as Href1.
    assert (Hne1 : pivots ref1 <> []).
    { subst ref1. cbn [set_pivots pivots].
      destruct (pivots ref); [easy | discriminate]. }
    rewrite ConstructPivots_elements in Hstages by assumption.
    cbn [bind] in Hstages.
    destruct (PivotStageOne new_PivotBindState ref1 all_columns handled)
      as [[[bs1 ref2] n1]| |w1] eqn:Hone; cbn [bind] in Hstages;
      try discriminate; [|now apply PivotStageOne_in_bounds in Hone].
    rewrite PivotStageTwo_eq, PivotStageThree_eq in Hstages.
    cbn [internal_pivot_names internal_aggregate_names] in Hstages.
    apply PivotStageOne_names in Hone.
    destruct Hone as (groups0 & gcols & pcols & acols & gc & pc & _ & _ & _ & _ & _
                      & _ & _ & Hia1 & Hip1 & _ & _ & _ & Hcount2 & _).
    rewrite Hip1, Hia1, app_nil_l, !internal_names_length, Hcount2 in Hstages.
    assert (Hsame : pivot_expression_count (pivots ref1)
                    = pivot_expression_count (pivots ref)).
    { subst ref1. cbn [set_pivots pivots]. unfold pivot_expression_count.
      now rewrite map_map. }
    assert (Haggr : aggregates ref1 = aggregates ref) by (subst ref1; reflexivity).
    rewrite Hsame, Haggr, (proj2 (Nat.leb_le _ _) Hcount) in Hstages.
    discriminate.
Qed.

Lemma BindPivot_in_bounds_witness :
  BindPivot two_aggregates sales_columns
  <> OutOfBounds "bind_state.internal_aggregate_names[i]".
Proof.
  apply (BindPivot_in_bounds (CAT := sql_catalog) two_aggregates sales_columns).
  - intros type_name w. cbn. destruct (String.eqb type_name "quarter"); discriminate.
  - discriminate.
  - cbn. lia.
Defined.

(** X27.  An UNPIVOT reads nothing out of bounds (the assertions aside)
    when the declaration has its pivot column, the pivot column names the
    name column, and the entries, once the stars are expanded, are not empty
    and have each at least as many values as the first: it returns its
    select node or throws. *)
Theorem BindUnpivot_in_bounds {VO : ValueOps} {CAT : Catalog} {BO : BinderOps}
    (child_binder : StarBinder) (ref : PivotRef)
    (all_columns : list ParsedExpression) (filter_ : option ParsedExpression)
    (unpivot : PivotColumn) (rest : list PivotColumn)
    (first_entry : PivotColumnEntry) (others : list PivotColumnEntry) :
  pivots ref = unpivot :: rest ->
  for_each (expand_star_entry child_binder) (entries unpivot) []
    = Ok (first_entry :: others) ->
  Forall (fun entry => arity first_entry <= arity entry) others ->
  column_unpivot_names unpivot <> [] ->
  forall w, BindUnpivot child_binder ref all_columns filter_ <> OutOfBounds w.
Proof.
  intros Hpivots Hstars Hsizes Hname w.
  pose proof (BindUnpivot_names_eq child_binder ref all_columns Hpivots Hstars)
    as Hnames.
  destruct (negb (forallb is_colref all_columns)).
  { unfold BindUnpivot. rewrite Hnames. discriminate. }
  destruct (forallb _ (unpivoted_values (first_entry :: others))).
  - destruct (unpivot_expressions_of_result (first_entry :: others))
      as [_ Hvalues].
    destruct (Hvalues _ _ eq_refl) as [Hok _].
    destruct (Hok Hsizes) as (ues & _ & Hues).
    rewrite (BindUnpivot_tail _ _ _ filter_ Hnames Hues).
    cbn [set_entries column_unpivot_names].
    destruct (column_unpivot_names unpivot); [contradiction|].
    destruct (Nat.eqb _ _); discriminate.
  - unfold BindUnpivot. rewrite Hnames. discriminate.
Qed.

Lemma BindUnpivot_in_bounds_witness :
  BindUnpivot (BO := sql_binder) wide_columns longer_second_entry
              (map make_colref wide_columns) None
  <> OutOfBounds "entry.values[v_idx]".
Proof.
  eapply (BindUnpivot_in_bounds (BO := sql_binder) wide_columns longer_second_entry
            (map make_colref wide_columns) None);
    [reflexivity | reflexivity | | discriminate].
  repeat constructor.
Defined.

(* ================================================================== *)
(** * [Bind]: binding, the level of the filter and the registration *)

Section BindSteps.
Context {VO : ValueOps} {CAT : Catalog} {BO : BinderOps}.

(** A call that cannot reach [this] binder, followed by the rest. *)
Lemma step_call {A B} (c : outcome A) (k : A -> binder_step B) (this : ThisBinder) :
  step_bind (call c) k this
  = match c with
    | Ok a => k a this
    | Throw e => (Throw e, this)
    | OutOfBounds w => (OutOfBounds w, this)
    end.
Proof. unfold step_bind, call. now destruct c. Qed.

(** Until the tree is generated [this] binder is not touched. *)
Lemma Bind_of_tree (ref : PivotRef) (this : ThisBinder) :
  Bind ref this
  = match generated_tree ref with
    | Ok (select_node, where_clause) =>
        bind_generated_tree ref select_node where_clause this
    | Throw e => (Throw e, this)
    | OutOfBounds w => (OutOfBounds w, this)
    end.
Proof.
  unfold Bind. rewrite step_call.
  now destruct (generated_tree ref) as [[select_node where_clause]| |].
Qed.

(** The steps of a call of lines 507-532 that returns. *)
Lemma bind_generated_tree_returns (ref : PivotRef) (select_node : SelectNode)
    (where_clause : option ParsedExpression) (this this' : ThisBinder)
    (result : BoundTableRef BoundQueryNode) :
  bind_generated_tree ref select_node where_clause this = (Ok result, this') ->
  exists child_binder bound this_bound this_moved bound_result this_last,
    BindNode this select_node = (Ok (child_binder, bound), this_bound) /\
    MoveCorrelatedExpressions this_bound child_binder = (Ok tt, this_moved) /\
    match where_clause with
    | None => bound_result = bound /\ this_last = this_moved
    | Some predicate =>
        exists child_context,
          AddSubquery new_BindContext (GetRootIndex bound) (registered_alias ref)
                      (column_name_alias ref) bound
          = (Ok tt, child_context) /\
          BindSelectNode this_moved child_context
            (mkSelectNode [StarExpression ""] None (Some predicate) [])
            (BoundSubqueryRef bound)
          = (Ok bound_result, this_last)
    end /\
    result = BoundSubqueryRef bound_result /\
    AddSubquery (registry this_last) (GetRootIndex bound_result) (registered_alias ref)
                (column_name_alias ref) bound_result
    = (Ok tt, registry this') /\
    snd this' = snd this_last.
Proof.
  cbv beta iota zeta delta [bind_generated_tree step_bind call register_subquery
                       bind_where_query registry].
  fold (registered_alias ref).
  destruct (BindNode this select_node)
    as [[[child_binder bound]| |] this_bound] eqn:Hnode; try discriminate.
  destruct (MoveCorrelatedExpressions this_bound child_binder)
    as [[[]| |] this_moved] eqn:Hmove; try discriminate.
  destruct where_clause as [predicate|].
  - destruct (AddSubquery new_BindContext (GetRootIndex bound) (registered_alias ref)
                (column_name_alias ref) bound)
      as [[[]| |] child_context] eqn:Hchild; try discriminate.
    match goal with
    | |- context [BindSelectNode ?a ?b ?c ?d] =>
        destruct (BindSelectNode a b c d) as [[bound_where| |] this_last] eqn:Hwhere
    end; try discriminate.
    destruct (AddSubquery (fst this_last) _ _ _ _) as [[[]| |] context] eqn:Hadd;
      try discriminate.
    intros [= <- <-].
    exists child_binder, bound, this_bound, this_moved, bound_where, this_last.
    repeat split; try assumption. now exists child_context.
  - destruct (AddSubquery (fst this_moved) _ _ _ _) as [[[]| |] context] eqn:Hadd;
      try discriminate.
    intros [= <- <-].
    exists child_binder, bound, this_bound, this_moved, bound, this_moved.
    repeat split; assumption.
Qed.

(** A call of lines 507-532 that does not return, under the two conditions
    on the binder. *)
Lemma bind_generated_tree_fails (ref : PivotRef) (select_node : SelectNode)
    (where_clause : option ParsedExpression) (this : ThisBinder) :
  calls_keep_registry ->
  failed_registration_adds_nothing ->
  is_ok (fst (bind_generated_tree ref select_node where_clause this)) = false ->
  registry (snd (bind_generated_tree ref select_node where_clause this))
  = registry this.
Proof.
  intros (Hnode & Hmove & Hselect) Hadd.
  cbv beta iota zeta delta [bind_generated_tree step_bind call register_subquery
                       bind_where_query].
  specialize (Hnode this select_node).
  destruct (BindNode this select_node) as [[[child_binder bound]| |] this_bound];
    cbn [fst snd] in *; try (intros _; exact Hnode).
  specialize (Hmove this_bound child_binder).
  destruct (MoveCorrelatedExpressions this_bound child_binder)
    as [[[]| |] this_moved];
    cbn [fst snd] in *; try (intros _; congruence).
  destruct where_clause as [predicate|].
  - destruct (AddSubquery new_BindContext _ _ _ _) as [[[]| |] child_context];
      cbn [fst snd]; try (intros _; congruence).
    match goal with
    | |- context [BindSelectNode ?a ?b ?c ?d] =>
        specialize (Hselect a b c d);
        destruct (BindSelectNode a b c d) as [[bound_where| |] this_last]
    end; cbn [fst snd] in *; try (intros _; congruence).
    match goal with
    | |- context [AddSubquery ?a ?b ?c ?d ?e] =>
        specialize (Hadd a b c d e);
        destruct (AddSubquery a b c d e) as [[[]| |] context]
    end; cbn [fst snd is_ok] in *; try discriminate;
      intros _; unfold registry in *; cbn [fst]; rewrite Hadd by reflexivity;
      congruence.
  - match goal with
    | |- context [AddSubquery ?a ?b ?c ?d ?e] =>
        specialize (Hadd a b c d e);
        destruct (AddSubquery a b c d e) as [[[]| |] context]
    end; cbn [fst snd is_ok] in *; try discriminate;
      intros _; unfold registry in *; cbn [fst]; rewrite Hadd by reflexivity;
      congruence.
Qed.

(** The conjunction of the tests, written over the columns. *)
Lemma conjoin_tests (where_clause : option ParsedExpression) (columns : list string) :
  conjoin where_clause (map not_null_test columns)
  = fold_left
      (fun w column =>
         Some (match w with
               | Some w =>
                   ConjunctionExpression
                     [w; OperatorExpression [ColumnRefExpression [column] ""] ""] ""
               | None => OperatorExpression [ColumnRefExpression [column] ""] ""
               end))
      columns where_clause.
Proof.
  unfold conjoin. revert where_clause.
  induction columns as [|column columns IH]; intros w; [reflexivity|].
  cbn [map fold_left]. apply IH.
Qed.

(** What [BindUnpivot_names] returns. *)
Lemma BindUnpivot_names_returns (child_binder : StarBinder) (ref : PivotRef)
    (all_columns : list ParsedExpression) first_level unpivot unpivot_names_list :
  BindUnpivot_names child_binder ref all_columns
    = Ok (first_level, unpivot, unpivot_names_list) ->
  exists declared rest new_entries,
    pivots ref = declared :: rest /\
    for_each (expand_star_entry child_binder) (entries declared) [] = Ok new_entries /\
    first_level = mkSelectNode
                    (passing_columns (unpivoted_values new_entries) [] all_columns)
                    (source ref) None [] /\
    unpivot = set_entries declared new_entries /\
    unpivot_names_list = map (unpivot_column_name all_columns) new_entries.
Proof.
  intros H.
  destruct (pivots ref) as [|declared rest] eqn:Hpivots.
  { unfold BindUnpivot_names in H. rewrite Hpivots in H. discriminate. }
  destruct (for_each (expand_star_entry child_binder) (entries declared) [])
    as [new_entries| |] eqn:Hstars.
  - rewrite (BindUnpivot_names_eq _ _ _ Hpivots Hstars) in H.
    destruct (negb _); [discriminate|].
    destruct (forallb _ _); [|discriminate].
    injection H as <- <- <-. now exists declared, rest, new_entries.
  - unfold BindUnpivot_names in H. rewrite Hpivots in H.
    cbn [subscript nth_error bind] in H. rewrite Hstars in H. discriminate.
  - unfold BindUnpivot_names in H. rewrite Hpivots in H.
    cbn [subscript nth_error bind] in H. rewrite Hstars in H. discriminate.
Qed.

(** What [BindUnpivot] returns: the tree of the first level and the
    filter. *)
Lemma BindUnpivot_returns (child_binder : StarBinder) (ref : PivotRef)
    (all_columns : list ParsedExpression) (filter_ : option ParsedExpression)
    select_node filter' :
  BindUnpivot child_binder ref all_columns filter_ = Ok (select_node, filter') ->
  exists first_level unpivot unpivot_names_list name_alias,
    BindUnpivot_names child_binder ref all_columns
      = Ok (first_level, unpivot, unpivot_names_list) /\
    nth_error (column_unpivot_names unpivot) 0 = Some name_alias /\
    List.length (value_lists (entries unpivot)) = List.length (unpivot_names ref) /\
    select_node
    = mkSelectNode
        (select_list first_level
         ++ FunctionExpression "unnest"
              [ConstantExpression (Value_LIST unpivot_names_list) ""] name_alias
            :: map (unnest_value ref (value_lists (entries unpivot)))
                   (seq 0 (List.length (unpivot_names ref))))
        (source ref) None [] /\
    filter' = (if include_nulls ref then filter_
               else conjoin filter_
                      (map not_null_test
                           (map (unnest_name ref)
                                (seq 0 (List.length (unpivot_names ref)))))).
Proof.
  intros H.
  destruct (BindUnpivot_names child_binder ref all_columns)
    as [[[first_level unpivot] unpivot_names_list]| |] eqn:Hnames;
    try (unfold BindUnpivot in H; rewrite Hnames in H; discriminate).
  destruct (unpivot_expressions_of (entries unpivot)) as [ues| |] eqn:Hvalues;
    try (unfold BindUnpivot in H; rewrite Hnames in H; cbn [bind] in H;
         rewrite Hvalues in H; discriminate).
  rewrite (BindUnpivot_tail _ _ _ filter_ Hnames Hvalues) in H.
  destruct (column_unpivot_names unpivot) as [|name_alias others] eqn:Halias;
    [discriminate|].
  destruct (Nat.eqb _ _) eqn:Hsize; [|discriminate].
  apply Nat.eqb_eq in Hsize.
  apply unpivot_expressions_of_values in Hvalues. subst ues.
  destruct (BindUnpivot_names_returns _ _ _ Hnames)
    as (declared & rest & new_entries & _ & _ & Hfirst & _ & _).
  injection H as <- <-.
  exists first_level, unpivot, unpivot_names_list, name_alias.
  rewrite Halias, <- Hsize, map_map. subst first_level.
  repeat split; reflexivity.
Qed.

End BindSteps.

(** C7.  When [Bind] returns on the UNPIVOT path, the select node that was
    generated and bound first has no WHERE clause: it is the passing
    columns, the name column and one value column per value name of the
    declaration, the i-th being [UNNEST] of the list of the i-th values of
    the entries, over the source.  If nulls are kept there is no filter and
    the result is that bound node itself.  If nulls are excluded the filter
    is the conjunction, from left to right, of one IS NOT NULL test per
    value column, and the result is one more level, [SELECT * WHERE filter],
    bound over the bound node; it is the result that is registered.  Given a
    filter, [BindUnpivot] conjoins the tests onto it. *)
Theorem Bind_unpivot_null_filter {VO : ValueOps} {CAT : Catalog} {BO : BinderOps}
    (ref : PivotRef) (this this' : ThisBinder)
    (result : BoundTableRef BoundQueryNode) :
  aggregates ref = [] ->
  Bind ref this = (Ok result, this') ->
  exists copied_source star_binder all_columns first_level unpivot
         unpivot_names_list name_alias
         child_binder bound_select_node this_bound this_moved
         bound_result this_last,
    source ref = Some copied_source /\
    bind_source copied_source = Ok star_binder /\
    ExpandStarExpression star_binder (StarExpression "") = Ok all_columns /\
    BindUnpivot_names star_binder ref all_columns
      = Ok (first_level, unpivot, unpivot_names_list) /\
    nth_error (column_unpivot_names unpivot) 0 = Some name_alias /\
    List.length (value_lists (entries unpivot)) = List.length (unpivot_names ref) /\
    let value_columns := seq 0 (List.length (unpivot_names ref)) in
    let select_node :=
      mkSelectNode
        (select_list first_level
         ++ FunctionExpression "unnest"
              [ConstantExpression (Value_LIST unpivot_names_list) ""] name_alias
            :: map (fun i =>
                      FunctionExpression "unnest"
                        [FunctionExpression "list_value"
                           (nth i (value_lists (entries unpivot)) []) ""]
                        (unnest_name ref i))
                   value_columns)
        (source ref) None [] in
    let filter :=
      if include_nulls ref then None
      else fold_left
             (fun w column =>
                let test := OperatorExpression [ColumnRefExpression [column] ""] "" in
                Some (match w with
                      | Some w => ConjunctionExpression [w; test] ""
                      | None => test
                      end))
             (map (unnest_name ref) value_columns) None in
    (forall given,
       BindUnpivot star_binder ref all_columns given
       = Ok (select_node,
             if include_nulls ref then given
             else conjoin given (map not_null_test
                                     (map (unnest_name ref) value_columns)))) /\
    generated_tree ref = Ok (select_node, filter) /\
    (filter = None <-> include_nulls ref = true \/ unpivot_names ref = []) /\
    BindNode this select_node = (Ok (child_binder, bound_select_node), this_bound) /\
    MoveCorrelatedExpressions this_bound child_binder = (Ok tt, this_moved) /\
    match filter with
    | None => bound_result = bound_select_node /\ this_last = this_moved
    | Some predicate =>
        exists child_context,
          AddSubquery new_BindContext (GetRootIndex bound_select_node)
                      (registered_alias ref) (column_name_alias ref) bound_select_node
          = (Ok tt, child_context) /\
          BindSelectNode this_moved child_context
            (mkSelectNode [StarExpression ""] None (Some predicate) [])
            (BoundSubqueryRef bound_select_node)
          = (Ok bound_result, this_last)
    end /\
    result = BoundSubqueryRef bound_result /\
    AddSubquery (registry this_last) (GetRootIndex bound_result)
                (registered_alias ref) (column_name_alias ref) bound_result
    = (Ok tt, registry this').
Proof.
  intros Hunpivot HBind. rewrite Bind_of_tree in HBind.
  destruct (generated_tree ref) as [[select_node filter]| |] eqn:Htree;
    try discriminate.
  apply bind_generated_tree_returns in HBind.
  destruct HBind as (child_binder & bound & this_bound & this_moved & bound_result
                     & this_last & Hnode & Hmove & Hlevel & Hresult & Hadd & _).
  assert (Hrun : exists copied_source star_binder all_columns,
            source ref = Some copied_source /\
            bind_source copied_source = Ok star_binder /\
            ExpandStarExpression star_binder (StarExpression "") = Ok all_columns /\
            BindUnpivot star_binder ref all_columns None = Ok (select_node, filter)).
  { unfold generated_tree in Htree. rewrite Hunpivot in Htree.
    destruct (source ref) as [copied_source|]; [|discriminate].
    destruct (bind_source copied_source) as [star_binder| |] eqn:Hsource;
      try discriminate.
    cbn [bind] in Htree.
    destruct (ExpandStarExpression star_binder (StarExpression ""))
      as [all_columns| |] eqn:Hstar; try discriminate.
    now exists copied_source, star_binder, all_columns. }
  destruct Hrun as (copied_source & star_binder & all_columns & Hsource & Hbound
                    & Hstar & Hrun).
  destruct (BindUnpivot_returns _ _ _ _ Hrun)
    as (first_level & unpivot & unpivot_names_list & name_alias & Hnames & Halias
        & Hcount & Hselect & Hfilter).
  assert (Hany : forall given,
            BindUnpivot star_binder ref all_columns given
            = Ok (select_node,
                  if include_nulls ref then given
                  else conjoin given
                         (map not_null_test
                              (map (unnest_name ref)
                                   (seq 0 (List.length (unpivot_names ref))))))).
  { intros given.
    destruct (unpivot_expressions_of (entries unpivot)) as [ues| |] eqn:Hues;
      try (unfold BindUnpivot in Hrun; rewrite Hnames in Hrun; cbn [bind] in Hrun;
           rewrite Hues in Hrun; discriminate).
    rewrite (BindUnpivot_tail _ _ _ given Hnames Hues).
    apply unpivot_expressions_of_values in Hues. subst ues.
    destruct (column_unpivot_names unpivot) as [|name_alias' rest_names];
      [discriminate|].
    injection Halias as Halias. subst name_alias'.
    rewrite Hcount, Nat.eqb_refl, map_map, Hselect.
    destruct (BindUnpivot_names_returns _ _ _ Hnames)
      as (declared & rest & new_entries & _ & _ & -> & _ & _).
    reflexivity. }
  exists copied_source, star_binder, all_columns, first_level, unpivot,
         unpivot_names_list, name_alias,
         child_binder, bound, this_bound, this_moved, bound_result, this_last.
  cbv zeta. rewrite <- conjoin_tests.
  subst select_node filter.
  split; [exact Hsource|]. split; [exact Hbound|]. split; [exact Hstar|].
  split; [exact Hnames|]. split; [exact Halias|]. split; [exact Hcount|].
  split; [exact Hany|].
  split; [reflexivity|]. split.
  { destruct (include_nulls ref); [split; [now left | reflexivity]|].
    rewrite conjoin_none. split.
    - intros Hnil. right. apply (f_equal (@List.length _)) in Hnil.
      rewrite !length_map, length_seq in Hnil.
      now apply length_zero_iff_nil.
    - intros [Hfalse | ->]; [discriminate | reflexivity]. }
  split; [exact Hnode|]. split; [exact Hmove|]. split; [exact Hlevel|].
  split; [exact Hresult | exact Hadd].
Qed.

Lemma Bind_unpivot_null_filter_witness :
  exists first_level bound_first,
    generated_tree unpivot_quarters
      = Ok (first_level,
            Some (OperatorExpression [ColumnRefExpression ["amount"] ""] "")) /\
    where_clause first_level = None /\
    fst (BindNode (BinderOps := sql_binder) (@nil Registration, @nil string) first_level)
      = Ok (["outer.id"], bound_first) /\
    fst (Bind unpivot_quarters (@nil Registration, @nil string))
      = Ok (BoundSubqueryRef
              (BoundSelect 1
                 (mkSelectNode [StarExpression ""] None
                    (Some (OperatorExpression [ColumnRefExpression ["amount"] ""] ""))
                    [])
                 (Some bound_first))).
Proof.
  destruct (Bind_unpivot_null_filter (BO := sql_binder) unpivot_quarters
              (@nil Registration, @nil string)
              (this' := snd (Bind (BO := sql_binder) unpivot_quarters
                                  (@nil Registration, @nil string)))
              (result := match fst (Bind (BO := sql_binder) unpivot_quarters
                                         (@nil Registration, @nil string)) with
                         | Ok r => r
                         | _ => BoundSubqueryRef (BoundSelect 0 new_SelectNode None)
                         end))
    as (copied_source & star_binder & all_columns & first_level & unpivot
        & unpivot_names_list & name_alias & child_binder & bound & this_bound
        & this_moved & bound_result & this_last & _ & _ & _ & _ & _ & _ & _ & Htree
        & _ & Hnode & _ & Hlevel & Hresult & _);
    [reflexivity | vm_compute; reflexivity |].
  cbv zeta in Htree, Hnode, Hlevel.
  cbn [BindNode sql_binder] in Hnode. injection Hnode as _ <- _.
  eexists. eexists. split; [exact Htree|]. split; [reflexivity|].
  split; [reflexivity|].
  destruct Hlevel as (child_context & _ & Hwhere).
  injection Hwhere as <- _. exact (f_equal (@Ok _) Hresult).
Defined.

(** C8.  A call of [Bind] in which the validation or the rewrite fails
    ends in that one failure and leaves [this] binder as it was.  When the
    calls into the child binders keep the registry of [this] binder and a
    failed registration adds nothing to it: a call that fails, in whatever
    step, ends in one failure and leaves the registry as it was; a call that
    returns has generated the tree and bound it, and its registry is the
    one it was given with the one registration of the result, under the
    alias of the declaration, added by the last step. *)
Theorem Bind_registers_last {VO : ValueOps} {CAT : Catalog} {BO : BinderOps}
    (ref : PivotRef) (this : ThisBinder) :
  (forall e, generated_tree ref = Throw e -> Bind ref this = (Throw e, this)) /\
  (forall w, generated_tree ref = OutOfBounds w ->
             Bind ref this = (OutOfBounds w, this)) /\
  (calls_keep_registry ->
   failed_registration_adds_nothing ->
   match Bind ref this with
   | (Ok result, this') =>
       exists select_node where_clause child_binder bound bound_result,
         generated_tree ref = Ok (select_node, where_clause) /\
         fst (BindNode this select_node) = Ok (child_binder, bound) /\
         result = BoundSubqueryRef bound_result /\
         AddSubquery (registry this) (GetRootIndex bound_result)
                     (registered_alias ref) (column_name_alias ref) bound_result
         = (Ok tt, registry this')
   | (Throw _, this') | (OutOfBounds _, this') => registry this' = registry this
   end).
Proof.
  rewrite Bind_of_tree. split; [now intros e ->|]. split; [now intros w ->|].
  intros Hkeep Hfailed.
  destruct (generated_tree ref) as [[select_node where_clause]| |];
    [|reflexivity..].
  pose proof (bind_generated_tree_fails ref select_node where_clause this
                Hkeep Hfailed) as Hfails.
  destruct (bind_generated_tree ref select_node where_clause this)
    as [[result| |] this'] eqn:Hrun; [|now apply Hfails..].
  apply bind_generated_tree_returns in Hrun.
  destruct Hrun as (child_binder & bound & this_bound & this_moved & bound_result
                    & this_last & Hnode & Hmove & Hlevel & Hresult & Hadd & _).
  exists select_node, where_clause, child_binder, bound, bound_result.
  split; [reflexivity|]. split; [now rewrite Hnode|]. split; [exact Hresult|].
  destruct Hkeep as (Hkeep_node & Hkeep_move & Hkeep_select).
  specialize (Hkeep_node this select_node). rewrite Hnode in Hkeep_node.
  specialize (Hkeep_move this_bound child_binder). rewrite Hmove in Hkeep_move.
  cbn [snd] in Hkeep_node, Hkeep_move.
  assert (Hlast : registry this_last = registry this).
  { destruct where_clause as [predicate|].
    - destruct Hlevel as (child_context & _ & Hwhere).
      specialize (Hkeep_select this_moved child_context
                    (mkSelectNode [StarExpression ""] None (Some predicate) [])
                    (BoundSubqueryRef bound)).
      rewrite Hwhere in Hkeep_select. cbn [snd] in Hkeep_select. congruence.
    - destruct Hlevel as [_ ->]. congruence. }
  now rewrite <- Hlast.
Qed.

Lemma Bind_registers_last_witness :
  Bind unpivot_quarters alias_taken
    = (Throw (mkException BinderException "Duplicate alias in query"),
       (registry alias_taken, ["outer.id"])) /\
  registry (snd (Bind unpivot_quarters alias_taken)) = registry alias_taken.
Proof.
  split; [reflexivity|].
  assert (Hkeep : calls_keep_registry (BO := sql_binder)).
  { split; [reflexivity|]. split; [reflexivity|].
    intros this child_context node [bound]. reflexivity. }
  assert (Hfailed : failed_registration_adds_nothing (BO := sql_binder)).
  { intros bind_context root_index alias column_aliases bound.
    cbv beta iota delta [AddSubquery sql_binder add_registration].
    match goal with
    | |- context [existsb ?f ?l] => destruct (existsb f l)
    end; [reflexivity | discriminate]. }
  exact (proj2 (proj2 (Bind_registers_last (BO := sql_binder) unpivot_quarters
                         alias_taken)) Hkeep Hfailed).
Defined.

(** A declaration that fails the validation: the registry and the
    correlated columns of the enclosing binder are as they were. *)
Example failed_Bind_registers_nothing :
  Bind (pivot_sales [on_column "quarter" [in_entry [Varchar "Q1"] ""; in_entry [Varchar "Q1"] ""]]
                    [sum_amount])
       alias_taken
  = (Throw duplicate_value_error, alias_taken).
Proof. reflexivity. Qed.

(** With a binder whose child registers in its parent the registry does
    change in a call that fails in its last step. *)
Example leaking_binder_registers :
  ~ calls_keep_registry (BO := leaking_binder) /\
  Bind (BO := leaking_binder) unpivot_quarters alias_taken
  = (Throw (mkException BinderException "Duplicate alias in query"),
     (registry alias_taken
      ++ [(0, "leaked", [],
           BoundSelect 0
             (mkSelectNode
                [make_colref "id";
                 FunctionExpression "unnest"
                   [make_constant (List [Varchar "q1"; Varchar "q2"])] "quarter";
                 FunctionExpression "unnest"
                   [FunctionExpression "list_value"
                      [make_colref "q1"; make_colref "q2"] ""]
                   "amount"]
                (Some (BaseTableRef "t")) None [])
             None)],
      [])).
Proof.
  split; [|reflexivity].
  intros [Hnode _]. specialize (Hnode ([], []) new_SelectNode). discriminate.
Qed.

(* ================================================================== *)
(** * Further properties: [Bind] *)

(** X14.  What [Bind] returns is what it registers: the result is a
    subquery reference to a bound node, and the registry it gives back is
    the registry of [this] binder as the calls into the child binders left
    it, which is the one it was given when those calls keep it, with that
    node added under the node's own root index, under the alias of the
    declaration and with its column aliases. *)
Theorem Bind_registers_its_result {VO : ValueOps} {CAT : Catalog} {BO : BinderOps}
    (ref : PivotRef) (this this' : ThisBinder)
    (result : BoundTableRef BoundQueryNode) :
  Bind ref this = (Ok result, this') ->
  exists bound this_last,
    result = BoundSubqueryRef bound /\
    AddSubquery (registry this_last) (GetRootIndex bound) (registered_alias ref)
                (column_name_alias ref) bound
    = (Ok tt, registry this') /\
    snd this' = snd this_last /\
    (calls_keep_registry -> registry this_last = registry this).
Proof.
  rewrite Bind_of_tree.
  destruct (generated_tree ref) as [[select_node where_clause]| |];
    try discriminate.
  intros Hrun. apply bind_generated_tree_returns in Hrun.
  destruct Hrun as (child_binder & bound & this_bound & this_moved & bound_result
                    & this_last & Hnode & Hmove & Hlevel & Hresult & Hadd & Hsnd).
  exists bound_result, this_last. repeat split; try assumption.
  intros (Hkeep_node & Hkeep_move & Hkeep_select).
  specialize (Hkeep_node this select_node). rewrite Hnode in Hkeep_node.
  specialize (Hkeep_move this_bound child_binder). rewrite Hmove in Hkeep_move.
  cbn [snd] in Hkeep_node, Hkeep_move.
  destruct where_clause as [predicate|].
  - destruct Hlevel as (child_context & _ & Hwhere).
    specialize (Hkeep_select this_moved child_context
                  (mkSelectNode [StarExpression ""] None (Some predicate) [])
                  (BoundSubqueryRef bound)).
    rewrite Hwhere in Hkeep_select. cbn [snd] in Hkeep_select. congruence.
  - destruct Hlevel as [_ ->]. congruence.
Qed.

Lemma Bind_registers_its_result_witness :
  exists result this' bound,
    Bind unpivot_quarters (@nil Registration, @nil string) = (Ok result, this') /\
    result = BoundSubqueryRef bound /\
    add_registration [] (GetRootIndex bound) "__unnamed_pivot" [] bound
    = (Ok tt, registry this').
Proof.
  destruct (Bind_registers_its_result (BO := sql_binder) unpivot_quarters
              (@nil Registration, @nil string)
              (this' := snd (Bind (BO := sql_binder) unpivot_quarters
                                  (@nil Registration, @nil string)))
              (result := match fst (Bind (BO := sql_binder) unpivot_quarters
                                         (@nil Registration, @nil string)) with
                         | Ok r => r
                         | _ => BoundSubqueryRef (BoundSelect 0 new_SelectNode None)
                         end))
    as (bound & this_last & Hresult & Hadd & _ & Hkeep); [vm_compute; reflexivity|].
  do 2 eexists. exists bound. split; [vm_compute; reflexivity|].
  split; [exact Hresult|].
  rewrite Hkeep in Hadd; [exact Hadd|].
  split; [reflexivity|]. split; [reflexivity|].
  intros this child_context node [b]. reflexivity.
Defined.

(** X15.  On the PIVOT path, that is with an aggregate, [Bind] hands the
    star expansion of the source to [BindPivot], binds the tree it gets and
    returns the bound tree itself: a pivot is never put under the level
    that holds a filter. *)
Theorem Bind_pivot_is_not_wrapped {VO : ValueOps} {CAT : Catalog} {BO : BinderOps}
    (ref : PivotRef) (this this' : ThisBinder)
    (result : BoundTableRef BoundQueryNode) :
  aggregates ref <> [] ->
  Bind ref this = (Ok result, this') ->
  exists copied_source star_binder all_columns subquery_stage4 child_binder bound,
    source ref = Some copied_source /\
    bind_source copied_source = Ok star_binder /\
    ExpandStarExpression star_binder (StarExpression "") = Ok all_columns /\
    BindPivot ref all_columns = Ok subquery_stage4 /\
    fst (BindNode this subquery_stage4) = Ok (child_binder, bound) /\
    result = BoundSubqueryRef bound.
Proof.
  intros Haggr. rewrite Bind_of_tree.
  destruct (generated_tree ref) as [[select_node where_clause]| |] eqn:Htree;
    try discriminate.
  intros Hrun. apply bind_generated_tree_returns in Hrun.
  destruct Hrun as (child_binder & bound & this_bound & this_moved & bound_result
                    & this_last & Hnode & Hmove & Hlevel & Hresult & _).
  unfold generated_tree in Htree.
  destruct (source ref) as [copied_source|]; [|discriminate].
  destruct (bind_source copied_source) as [star_binder| |] eqn:Hsource;
    try discriminate.
  cbn [bind] in Htree.
  destruct (ExpandStarExpression star_binder (StarExpression ""))
    as [all_columns| |] eqn:Hstar; try discriminate.
  cbn [bind] in Htree.
  destruct (aggregates ref) as [|aggr aggrs]; [contradiction|].
  destruct (BindPivot ref all_columns) as [subquery_stage4| |] eqn:Hpivot;
    try discriminate.
  injection Htree as <- <-. destruct Hlevel as [-> _].
  exists copied_source, star_binder, all_columns, subquery_stage4, child_binder, bound.
  repeat split; try assumption. now rewrite Hnode.
Qed.

Lemma Bind_pivot_is_not_wrapped_witness :
  exists result this' subquery_stage4,
    Bind sales_by_quarter (@nil Registration, @nil string) = (Ok result, this') /\
    BindPivot sales_by_quarter sales_columns = Ok subquery_stage4 /\
    result = BoundSubqueryRef (BoundSelect 0 subquery_stage4 None).
Proof.
  destruct (Bind_pivot_is_not_wrapped (BO := sql_binder) sales_by_quarter
              (@nil Registration, @nil string)
              (this' := snd (Bind (BO := sql_binder) sales_by_quarter
                                  (@nil Registration, @nil string)))
              (result := match fst (Bind (BO := sql_binder) sales_by_quarter
                                         (@nil Registration, @nil string)) with
                         | Ok r => r
                         | _ => BoundSubqueryRef (BoundSelect 0 new_SelectNode None)
                         end))
    as (src & sb & cols & n4 & child & bound & Hsrc & Hsb & Hcols & Hpivot & Hnode
        & Hresult);
    [discriminate | vm_compute; reflexivity|].
  injection Hsrc as <-. vm_compute in Hsb. injection Hsb as <-.
  vm_compute in Hcols. injection Hcols as <-.
  do 2 eexists. exists n4. split; [vm_compute; reflexivity|].
  split; [exact Hpivot|].
  cbn [BindNode sql_binder fst] in Hnode. injection Hnode as _ <-. exact Hresult.
Defined.
